(** * lspindex: symbol store, reference resolver and GXL graph builder

    A shallow embedding of [src/lspindex.ts] (the driver [main]) and of
    [src/gxl.ts] ([asGXL], [getGXLSymbolKind]), followed by the properties
    of the design document that can be stated over them.

    Conventions of the embedding:
    - JavaScript strings are [string]; source text is taken to be ASCII, so
      that a character offset is an index into the [string].
    - Line and column numbers are the unsigned integers of the language
      server protocol, hence [nat].
    - A thrown exception is the [Throw] case of [result].
    - Objects that the program shares and mutates (the symbols received from
      the language server, the arrays that hold them) live in a store and are
      named by their address; see [State] below.
    - What the program gets from outside is a parameter: the answers of the
      language server, the content of the files, the working directory, and
      [objectId] of the object-hash package.
    - The DOM tree that [asGXL] builds is the list of the children of its
      [graph] element; the XML text is not modelled. *)

From Stdlib Require Import String Ascii List Bool Arith Lia.
From stdpp Require Import base option list strings pretty gmap.
Import ListNotations.

Local Open Scope string_scope.
Local Open Scope list_scope.
Local Open Scope nat_scope.

(** ** Results of computations that may throw *)

Inductive Error :=
| TypeError          (* property access on [undefined] *)
| InvalidFileURL     (* [fileURLToPath] on something that is no file URL *)
| DanglingEdge.      (* "Edge is referencing non-existant node" *)

Inductive result (A : Type) :=
| Return (a : A)
| Throw (e : Error).
Arguments Return {A} a.
Arguments Throw {A} e.

Definition bind {A B} (r : result A) (k : A -> result B) : result B :=
  match r with
  | Return a => k a
  | Throw e => Throw e
  end.

Notation "'try!' x := r 'in' k" := (bind r (fun x => k))
  (at level 10, x pattern, r at level 100, k at level 200).

Fixpoint foldM {A B} (f : A -> B -> result A) (a : A) (l : list B) : result A :=
  match l with
  | [] => Return a
  | b :: l' => try! a' := f a b in foldM f a' l'
  end.

(** ** The JavaScript string and array methods the program calls *)

Module JS.

(** [s.split(sep)] for a one-character separator. *)
Fixpoint split (sep : ascii) (s : string) : list string :=
  match s with
  | EmptyString => [""]
  | String c s' =>
      if Ascii.eqb c sep then "" :: split sep s'
      else match split sep s' with
           | [] => [String c ""]
           | x :: xs => String c x :: xs
           end
  end.

(** [l.join(sep)]. *)
Fixpoint join (sep : string) (l : list string) : string :=
  match l with
  | [] => ""
  | [x] => x
  | x :: xs => x +:+ sep +:+ join sep xs
  end.

(** [s.slice(n)] for [n >= 0]. *)
Fixpoint slice (n : nat) (s : string) : string :=
  match n, s with
  | 0, _ => s
  | S n', String _ s' => slice n' s'
  | S _, EmptyString => ""
  end.

(** [s.startsWith(p)]. *)
Definition startsWith (s p : string) : bool := String.prefix p s.

Definition isWordChar (c : ascii) : bool :=
  let n := nat_of_ascii c in
  ((48 <=? n) && (n <=? 57)) || ((65 <=? n) && (n <=? 90))
  || ((97 <=? n) && (n <=? 122)) || (n =? 95).

Definition wordCharAt (n : nat) (s : string) : bool :=
  match String.get n s with
  | Some c => isWordChar c
  | None => false
  end.

(** [/\bimport\b/.test(s)]; [prevWord] tells whether the character before
    [s] is a word character. *)
Fixpoint testImportFrom (prevWord : bool) (s : string) : bool :=
  match s with
  | EmptyString => false
  | String c s' =>
      (negb prevWord && String.prefix "import" s && negb (wordCharAt 6 s))
      || testImportFrom (isWordChar c) s'
  end.

Definition testImport (s : string) : bool := testImportFrom false s.

End JS.

(** ** Node's [path] module (POSIX flavour) *)

Module path.

Definition sep : string := "/".
Definition sepChar : ascii := "/"%char.

Definition isAbsolute (p : string) : bool := String.prefix "/" p.

(** Node's [normalizeString]: drops empty and ["."] segments and resolves
    [".."] against the segments kept so far ([stack], innermost first). *)
Fixpoint normalizeSegments (absolute : bool) (stack segs : list string)
  : list string :=
  match segs with
  | [] => rev stack
  | s :: rest =>
      if String.eqb s "" || String.eqb s "." then normalizeSegments absolute stack rest
      else if String.eqb s ".." then
        match stack with
        | top :: stack' =>
            if String.eqb top ".." then normalizeSegments absolute (s :: stack) rest
            else normalizeSegments absolute stack' rest
        | [] =>
            if absolute then normalizeSegments absolute [] rest
            else normalizeSegments absolute [s] rest
        end
      else normalizeSegments absolute (s :: stack) rest
  end.

(** The segments of [path.resolve(p)] when the working directory is [cwd]
    (an absolute path). *)
Definition resolveSegments (cwd p : string) : list string :=
  normalizeSegments true []
    (JS.split sepChar (if isAbsolute p then p else cwd +:+ sep +:+ p)).

Definition resolve (cwd p : string) : string :=
  sep +:+ JS.join sep (resolveSegments cwd p).

(** [path.normalize(p)], for paths that do not end in a separator. *)
Definition normalize (p : string) : string :=
  if String.eqb p "" then "."
  else
    let segs := normalizeSegments (isAbsolute p) [] (JS.split sepChar p) in
    if isAbsolute p then sep +:+ JS.join sep segs
    else match segs with
         | [] => "."
         | _ => JS.join sep segs
         end.

(** [path.join(a, b)]. *)
Definition join (a b : string) : string :=
  let joined :=
    if String.eqb a "" then b else if String.eqb b "" then a else a +:+ sep +:+ b in
  normalize joined.

Fixpoint stripCommon (f t : list string) : list string * list string :=
  match f, t with
  | x :: f', y :: t' => if String.eqb x y then stripCommon f' t' else (f, t)
  | _, _ => (f, t)
  end.

(** [path.relative(from, to)]. *)
Definition relative (cwd from to : string) : string :=
  let '(up, down) :=
    stripCommon (resolveSegments cwd from) (resolveSegments cwd to) in
  JS.join sep (repeat ".." (length up) ++ down).

(** [path.basename(p)]. *)
Definition basename (p : string) : string :=
  List.last (filter (fun s => negb (String.eqb s "")) (JS.split sepChar p)) "".

End path.

(** ** Node's [url] module, for paths that need no percent-encoding *)

Module url.

Definition pathToFileURL (cwd p : string) : string :=
  "file://" +:+ path.resolve cwd p.

Definition fileURLToPath (u : string) : result string :=
  if String.prefix "file:///" u then Return (JS.slice 7 u)
  else Throw InvalidFileURL.

End url.

(** ** JavaScript [Map], in insertion order *)

Module Map.

Definition t (K V : Type) : Type := list (K * V).

Section Ops.
Context {K V : Type} `{EqDecision K}.

Fixpoint get (m : t K V) (k : K) : option V :=
  match m with
  | [] => None
  | (k', v) :: m' => if decide (k' = k) then Some v else get m' k
  end.

Definition has (m : t K V) (k : K) : bool :=
  match get m k with
  | Some _ => true
  | None => false
  end.

(** [m.set(k, v)]: an existing key keeps its place. *)
Fixpoint set (m : t K V) (k : K) (v : V) : t K V :=
  match m with
  | [] => [(k, v)]
  | (k', v') :: m' =>
      if decide (k' = k) then (k', v) :: m' else (k', v') :: set m' k v
  end.

Definition keys (m : t K V) : list K := map fst m.
End Ops.

End Map.

(** ** The language server protocol types the program reads *)

Inductive SymbolKind :=
| SkFile | SkModule | SkNamespace | SkPackage | SkClass | SkMethod
| SkProperty | SkField | SkConstructor | SkEnum | SkInterface | SkFunction
| SkVariable | SkConstant | SkString | SkNumber | SkBoolean | SkArray
| SkObject | SkKey | SkNull | SkEnumMember | SkStruct | SkEvent
| SkOperator | SkTypeParameter.

Global Instance SymbolKind_eq_dec : EqDecision SymbolKind.
Proof. solve_decision. Defined.

Record Position := mkPosition { line : nat; character : nat }.
Record Range := mkRange { start : Position; end_ : Position }.
Record Location := mkLocation { uri : string; range : Range }.

(** [LSPSymbol = SymbolInformation | DocumentSymbol], with the properties
    the program reads. *)
Inductive LSPSymbol :=
| SymbolInformation (name : string) (kind : SymbolKind)
    (location : Location) (containerName : option string)
| DocumentSymbol (name : string) (kind : SymbolKind)
    (range selectionRange : Range).

Definition name (s : LSPSymbol) : string :=
  match s with
  | SymbolInformation n _ _ _ | DocumentSymbol n _ _ _ => n
  end.

Definition kind (s : LSPSymbol) : SymbolKind :=
  match s with
  | SymbolInformation _ k _ _ | DocumentSymbol _ k _ _ => k
  end.

(** [symbol.containerName]; [undefined] on a [DocumentSymbol]. *)
Definition containerName (s : LSPSymbol) : option string :=
  match s with
  | SymbolInformation _ _ _ c => c
  | DocumentSymbol _ _ _ _ => None
  end.

Definition DocumentSymbol_is (s : LSPSymbol) : bool :=
  match s with
  | DocumentSymbol _ _ _ _ => true
  | SymbolInformation _ _ _ _ => false
  end.

(** [DocumentSymbol.is(symbol) ? symbol.range : symbol.location.range] *)
Definition declaredRange (s : LSPSymbol) : Range :=
  match s with
  | DocumentSymbol _ _ r _ => r
  | SymbolInformation _ _ l _ => range l
  end.

(** [DocumentSymbol.is(symbol) ? symbol.selectionRange : symbol.location.range] *)
Definition lookupRange (s : LSPSymbol) : Range :=
  match s with
  | DocumentSymbol _ _ _ r => r
  | SymbolInformation _ _ l _ => range l
  end.

(** A symbol object as a function receives it: the address that gives the
    object its identity (what a [Map] keyed by objects compares) and the
    value read through it. *)
Record SymbolObject := mkObject { addr : nat; val : LSPSymbol }.

(** ** [Position] and [Range] of @sourcegraph/extension-api-classes *)

Definition isBefore (p q : Position) : bool :=
  if line p <? line q then true
  else if line q <? line p then false
  else character p <? character q.

(** [Range.fromPlain]: the constructor orders the two ends. *)
Definition fromPlain (r : Range) : Range :=
  if isBefore (start r) (end_ r) then r
  else {| start := end_ r; end_ := start r |}.

Definition containsPosition (r : Range) (p : Position) : bool :=
  negb (isBefore p (start r)) && negb (isBefore (end_ r) p).

(** [r.contains(other)] for a [Range] argument. *)
Definition contains (r other : Range) : bool :=
  containsPosition r (start other) && containsPosition r (end_ other).

(** ** gxl.ts *)

Inductive GXLEdgeType := Source_Dependency | Enclosing.

Record GXLNodeAttributes := mkAttributes {
  Source_Name : string;
  Source_Line : nat;
  Source_Column : nat;
  Source_Path : string
}.

(** The children appended to the [graph] element. *)
Inductive Element :=
| node (id : string) (type : string) (attrs : GXLNodeAttributes)
| edge (from to : string) (type : GXLEdgeType).

(** The document that [asGXL] hands to the XML serializer. *)
Record Document := mkDocument {
  graphId : string;
  elements : list Element
}.

(** What [objectId] (the object-hash package) is applied to: a symbol, an
    array of symbols, and the pair of input maps. *)
Inductive HashInput :=
| HashSymbol (s : LSPSymbol)
| HashSymbols (l : list LSPSymbol)
| HashMaps (symbolsByFile : list (string * list LSPSymbol))
    (references : list (LSPSymbol * list LSPSymbol)).

Definition getGXLSymbolKind (symbol : LSPSymbol) : option string :=
  match kind symbol with
  | SkFile | SkModule => Some "File"
  | SkClass => Some "Class"
  | SkField | SkProperty => Some "Member"
  | SkMethod => Some "Method"
  | SkFunction => Some "Routine"
  | _ => None
  end.

(** [find] with a callback that may throw. *)
Fixpoint findM {A} (p : A -> result bool) (l : list A) : result (option A) :=
  match l with
  | [] => Return None
  | x :: l' =>
      try! b := p x in
      if b then Return (Some x) else findM p l'
  end.

(** [nodeIds], [edgeNodeIds] and the children of [graphElement]. *)
Record Builder := mkBuilder {
  nodeIds : gset string;
  edgeNodeIds : list (string * string);
  graphElement : list Element
}.

Section Gxl.

(** [objectId] of object-hash, and [process.cwd()]. *)
Variable objectId : HashInput -> string.
Variable cwd : string.

(** The attributes are a string and three integers here, so that neither
    [createGXLNode] nor [addGXLAttribute] throws. *)
Definition createGXLNode (id type : string) (attrs : GXLNodeAttributes)
  : Element := node id type attrs.

Definition createGXLEdge (from to : string) (type : GXLEdgeType)
  : Element := edge from to type.

Definition nodeID (symbol : LSPSymbol) : string :=
  name symbol +:+ ":" +:+ objectId (HashSymbol symbol).

(** Lines 109-130: the edge appended for a symbol of kind [File]. *)
Definition parentDirectoryEdge
    (symbolsByFile : Map.t string (list SymbolObject)) (rootPath : string)
    (uri : string) (symbol : SymbolObject) : result (list Element) :=
  try! filePath := url.fileURLToPath uri in
  let relativeFilePath := path.relative cwd rootPath filePath in
  if negb (String.eqb relativeFilePath "..")
     && negb (JS.startsWith relativeFilePath (".." +:+ path.sep))
  then
    let parentDirectoryUri :=
      url.pathToFileURL cwd (path.join filePath "..") in
    match Map.get symbolsByFile parentDirectoryUri with
    | Some parentDirSymbol =>
        Return [createGXLEdge (nodeID (val symbol))
                  (objectId (HashSymbols (map val parentDirSymbol)))
                  Enclosing]
    | None => Return []
    end
  else Return [].

(** Lines 134 and 139-143: the container looked up for a symbol that is
    not of kind [File] and not a [DocumentSymbol]. *)
Definition findContainer (rootPath uri : string)
    (symbols : list SymbolObject) (symbol : SymbolObject)
  : result (option SymbolObject) :=
  match
    find (fun s => bool_decide (Some (name (val s)) = containerName (val symbol)))
         symbols
  with
  | Some container => Return (Some container)
  | None =>
      findM (fun s =>
               if bool_decide (kind (val s) = SkFile) then
                 try! filePath := url.fileURLToPath uri in
                 Return (String.eqb (name (val s))
                           (path.relative cwd rootPath filePath))
               else Return false)
            symbols
  end.

(** Lines 132-148: the edge created for a symbol that is not of kind
    [File]. *)
Definition containerEdge (rootPath uri : string)
    (symbols : list SymbolObject) (symbol : SymbolObject)
  : result (option Element) :=
  if negb (DocumentSymbol_is (val symbol)) then
    try! container := findContainer rootPath uri symbols symbol in
    Return (option_map
              (fun c => createGXLEdge (nodeID (val symbol))
                          (objectId (HashSymbol (val c))) Enclosing)
              container)
  else Return None.

(** Lines 160-169. *)
Definition addReference (to : string) (b : Builder) (reference : SymbolObject)
  : Builder :=
  let referenceNodeID := objectId (HashSymbol (val reference)) in
  {| nodeIds := nodeIds b;
     edgeNodeIds := edgeNodeIds b ++ [(referenceNodeID, to)];
     graphElement :=
       graphElement b ++ [createGXLEdge referenceNodeID to Source_Dependency] |}.

(** [references.get(symbol)]: keys are compared by object identity. *)
Definition referencesOf
    (references : Map.t SymbolObject (list SymbolObject))
    (symbol : SymbolObject) : option (list SymbolObject) :=
  option_map snd
    (find (fun e => bool_decide (addr (fst e) = addr symbol)) references).

(** The body of the inner loop, lines 98-169. *)
Definition addSymbol
    (symbolsByFile : Map.t string (list SymbolObject))
    (references : Map.t SymbolObject (list SymbolObject))
    (rootPath : string)
    (uri : string) (symbols : list SymbolObject)
    (b : Builder) (symbol : SymbolObject) : result Builder :=
  match getGXLSymbolKind (val symbol) with
  | None => Return b
  | Some type =>
      let nodeID := nodeID (val symbol) in
      let ids := {[ nodeID ]} ∪ nodeIds b in
      let range := declaredRange (val symbol) in
      try! appended :=
        if bool_decide (kind (val symbol) = SkFile) then
          parentDirectoryEdge symbolsByFile rootPath uri symbol
        else
          (* the edge is created and never appended to the graph *)
          try! _created := containerEdge rootPath uri symbols symbol in
          Return []
      in
      try! filePath := url.fileURLToPath uri in
      let node :=
        createGXLNode nodeID type
          {| Source_Name := name (val symbol);
             Source_Line := line (start range);
             Source_Column := character (start range);
             Source_Path := path.relative cwd rootPath filePath |} in
      let b' :=
        {| nodeIds := ids;
           edgeNodeIds := edgeNodeIds b;
           graphElement := graphElement b ++ appended ++ [node] |} in
      Return (fold_left (addReference nodeID)
                (default [] (referencesOf references symbol)) b')
  end.

(** Lines 174-178. *)
Definition verify (b : Builder) : result unit :=
  foldM (fun _ e =>
           if negb (bool_decide (e.1 ∈ nodeIds b))
              || negb (bool_decide (e.2 ∈ nodeIds b))
           then Throw DanglingEdge else Return tt)
        tt (edgeNodeIds b).

Definition emptyBuilder : Builder :=
  {| nodeIds := ∅; edgeNodeIds := []; graphElement := [] |}.

(** Lines 96-171. *)
Definition build
    (symbolsByFile : Map.t string (list SymbolObject))
    (references : Map.t SymbolObject (list SymbolObject))
    (rootPath : string) : result Builder :=
  foldM (fun b '(uri, symbols) =>
           foldM (addSymbol symbolsByFile references rootPath uri symbols)
                 b symbols)
        emptyBuilder symbolsByFile.

Definition asGXL
    (symbolsByFile : Map.t string (list SymbolObject))
    (references : Map.t SymbolObject (list SymbolObject))
    (rootPath : string) : result Document :=
  let id :=
    objectId
      (HashMaps
         (map (fun '(u, l) => (u, map val l)) symbolsByFile)
         (map (fun '(k, l) => (val k, map val l)) references)) in
  try! b := build symbolsByFile references rootPath in
  try! _ := verify b in
  Return {| graphId := id; elements := graphElement b |}.

End Gxl.

(** ** lspindex.ts *)

(** The array that [invert] turns into [symbolSizes], before [reverse]. *)
Definition symbolSizeOrder : list SymbolKind :=
  [SkPackage; SkNamespace; SkFile; SkModule; SkClass; SkFunction; SkEnum;
   SkInterface; SkMethod; SkConstructor; SkField; SkProperty; SkEnumMember;
   SkVariable; SkTypeParameter; SkConstant; SkString; SkNumber; SkBoolean;
   SkArray; SkObject; SkKey; SkNull; SkStruct; SkEvent; SkOperator].

(** [symbolSizes[kind]]: [invert] maps every element of the reversed array
    to its index, as a string. *)
Definition symbolSizes (k : SymbolKind) : option string :=
  option_map (fun p => pretty (fst p))
    (list_find (fun x => x = k) (rev symbolSizeOrder)).

(** lodash's ascending comparison on the keys: strings compare as strings,
    [undefined] comes last. *)
Definition keyLeb (a b : option string) : bool :=
  match a, b with
  | Some x, Some y => String.leb x y
  | Some _, None => true
  | None, Some _ => false
  | None, None => true
  end.

Fixpoint insertBy {A} (key : A -> option string) (x : A) (l : list A)
  : list A :=
  match l with
  | [] => [x]
  | y :: l' =>
      if keyLeb (key y) (key x) then y :: insertBy key x l' else x :: l
  end.

(** lodash's [sortBy]: a stable sort that returns a new array and leaves
    its argument alone. *)
Definition sortBy {A} (l : list A) (key : A -> option string) : list A :=
  fold_left (fun sorted x => insertBy key x sorted) l [].

Inductive Request :=
| DocumentSymbolRequest (uri : string)
| ReferencesRequest (uri : string) (position : Position).

(** The answers of the language server; [None] is a [null] result. *)
Record LanguageServer := mkServer {
  documentSymbolResult : string -> option (list LSPSymbol);
  referencesResult : string -> Position -> option (list Location)
}.

(** The objects [main] allocates and the maps it fills.
    - [objects]: the symbol objects, by address.
    - [arrays]: the arrays of symbols, by address; an array holds the
      addresses of its elements.
    - [symbols]: [Map<string, LSPSymbol[]>], from URI to an array.
    - [allReferences]: [Map<LSPSymbol, Location[]>], keyed by object.
    - [requests]: the requests sent to the language server, oldest first. *)
Record State := mkState {
  objects : list LSPSymbol;
  arrays : list (list nat);
  symbols : Map.t string nat;
  allReferences : Map.t nat (list Location);
  requests : list Request
}.

Definition initialState : State :=
  {| objects := []; arrays := []; symbols := []; allReferences := [];
     requests := [] |}.

Definition newObject (s : LSPSymbol) (st : State) : nat * State :=
  (length (objects st),
   {| objects := objects st ++ [s]; arrays := arrays st;
      symbols := symbols st; allReferences := allReferences st;
      requests := requests st |}).

(** The objects of a response, allocated in order; each comes back with the
    value it was received with. *)
Definition newObjects (l : list LSPSymbol) (st : State)
  : list SymbolObject * State :=
  (imap (fun i s => mkObject (length (objects st) + i) s) l,
   {| objects := objects st ++ l; arrays := arrays st;
      symbols := symbols st; allReferences := allReferences st;
      requests := requests st |}).

Definition newArray (l : list nat) (st : State) : nat * State :=
  (length (arrays st),
   {| objects := objects st; arrays := arrays st ++ [l];
      symbols := symbols st; allReferences := allReferences st;
      requests := requests st |}).

(** [array.push(x)] *)
Definition push (array x : nat) (st : State) : State :=
  {| objects := objects st;
     arrays := alter (fun l => l ++ [x]) array (arrays st);
     symbols := symbols st; allReferences := allReferences st;
     requests := requests st |}.

(** [symbols.set(uri, array)] *)
Definition setSymbols (uri : string) (array : nat) (st : State) : State :=
  {| objects := objects st; arrays := arrays st;
     symbols := Map.set (symbols st) uri array;
     allReferences := allReferences st; requests := requests st |}.

Definition setObject (a : nat) (s : LSPSymbol) (st : State) : State :=
  {| objects := <[a := s]> (objects st); arrays := arrays st;
     symbols := symbols st; allReferences := allReferences st;
     requests := requests st |}.

Definition send (r : Request) (st : State) : State :=
  {| objects := objects st; arrays := arrays st; symbols := symbols st;
     allReferences := allReferences st; requests := requests st ++ [r] |}.

(** [allReferences.set(symbol, references)] *)
Definition setReferences (symbol : nat) (l : list Location) (st : State)
  : State :=
  {| objects := objects st; arrays := arrays st; symbols := symbols st;
     allReferences := Map.set (allReferences st) symbol l;
     requests := requests st |}.

Definition readObject (st : State) (a : nat) : result SymbolObject :=
  match objects st !! a with
  | Some s => Return (mkObject a s)
  | None => Throw TypeError
  end.

Fixpoint mapM {A B} (f : A -> result B) (l : list A) : result (list B) :=
  match l with
  | [] => Return []
  | x :: l' =>
      try! y := f x in
      try! ys := mapM f l' in
      Return (y :: ys)
  end.

(** The elements of an array, each with the value it has now. *)
Definition readArray (st : State) (array : nat) : result (list SymbolObject) :=
  match arrays st !! array with
  | Some l => mapM (readObject st) l
  | None => Throw TypeError
  end.

Definition zeroRange : Range :=
  {| start := {| line := 0; character := 0 |};
     end_ := {| line := 0; character := 0 |} |}.

(** [referencePosition.character += n], where [referencePosition] is
    [range.start] of the symbol itself. *)
Definition advance (n : nat) (s : LSPSymbol) : LSPSymbol :=
  let forward (r : Range) : Range :=
    {| start := {| line := line (start r);
                   character := character (start r) + n |};
       end_ := end_ r |} in
  match s with
  | SymbolInformation nm k l c =>
      SymbolInformation nm k {| uri := uri l; range := forward (range l) |} c
  | DocumentSymbol nm k r sel => DocumentSymbol nm k r (forward sel)
  end.

Definition newline : ascii := ascii_of_nat 10.

Section Lspindex.

Variable objectId : HashInput -> string.
Variable cwd : string.
(** [path.resolve(argv.rootPath)], [argv.noReferences], the language
    server and the content of the files. *)
Variable rootPath : string.
Variable noReferences : bool.
Variable server : LanguageServer.
Variable readFile : string -> string.

(** Lines 164-191, with the [segments] array held last element first:
    [popped] is the result of [segments.pop()]. *)
Fixpoint addDirectories (reversed : list string) (st : State) : State :=
  match reversed with
  | [] => st
  | popped :: remaining =>
      if String.eqb popped "" then st
      else
        let dir := JS.join path.sep (rev remaining) in
        let relativeDirPath := path.relative cwd rootPath dir in
        if String.eqb relativeDirPath ".."
           || JS.startsWith relativeDirPath (".." +:+ path.sep)
        then st
        else
          let uri := url.pathToFileURL cwd dir in
          let st' :=
            if negb (Map.has (symbols st) uri) then
              let '(symbol, st1) :=
                newObject
                  (SymbolInformation (path.basename dir) SkFile
                     {| uri := uri; range := zeroRange |}
                     (Some (path.basename (path.join dir ".."))))
                  st in
              let '(array, st2) := newArray [symbol] st1 in
              setSymbols uri array st2
            else st in
          addDirectories remaining st'
  end.

(** Lines 196-235: the body of the loop over [docSymbols]. *)
Definition getReferences (file uri : string) (st : State) (symbol : nat)
  : result State :=
  try! object := readObject st symbol in
  match getGXLSymbolKind (val object) with
  | None => Return st
  | Some _ =>
      let range := lookupRange (val object) in
      let content := readFile file in
      match JS.split newline content !! line (start range) with
      | None => Throw TypeError
      | Some lineContent =>
          if JS.testImport lineContent then Return st
          else
            let s1 :=
              if JS.startsWith
                   (JS.slice (character (start (lookupRange (val object))))
                      lineContent) "def "
              then advance (String.length "def " + 1) (val object)
              else val object in
            let s2 :=
              if JS.startsWith
                   (JS.slice (character (start (lookupRange s1)))
                      lineContent) "class "
              then advance (String.length "class " + 1) s1
              else s1 in
            let st1 := setObject symbol s2 st in
            let referencePosition := start (lookupRange s2) in
            let st2 := send (ReferencesRequest uri referencePosition) st1 in
            let references :=
              default [] (referencesResult server uri referencePosition) in
            Return (setReferences symbol references st2)
      end
  end.

(** Lines 154-191: the symbols of [file] and of its directories. The
    result is [docSymbols], as the objects received and as the address of
    the array that holds them, and the new state. *)
Definition getSymbols (st : State) (file : string)
  : list SymbolObject * nat * State :=
  let uri := url.pathToFileURL cwd file in
  let st := send (DocumentSymbolRequest uri) st in
  let '(received, st) :=
    newObjects (default [] (documentSymbolResult server uri)) st in
  let '(docSymbols, st) := newArray (map addr received) st in
  let '(filtered, st) :=
    newArray
      (map addr
         (filter (fun s => bool_decide (is_Some (getGXLSymbolKind (val s))))
            received))
      st in
  let st := setSymbols uri filtered st in
  (received, docSymbols,
   addDirectories (rev (JS.split path.sepChar file)) st).

(** Lines 153-252: the body of the loop over the files. *)
Definition processFile (st : State) (file : string) : result State :=
  let uri := url.pathToFileURL cwd file in
  let relativePath := path.relative cwd rootPath file in
  let '(received, docSymbols, st) := getSymbols st file in
  try! st :=
    if negb noReferences
    then foldM (getReferences file uri) st (map addr received)
    else Return st
  in
  let '(fileSymbol, st) :=
    newObject
      (SymbolInformation (path.basename relativePath) SkFile
         {| uri := url.pathToFileURL cwd file; range := zeroRange |}
         (Some (path.basename (path.join relativePath ".."))))
      st in
  Return (push docSymbols fileSymbol st).

(** Lines 259-278: the symbol a reference is mapped to, if any. *)
Definition findReferencingSymbol (st : State) (reference : Location)
  : result (option SymbolObject) :=
  match Map.get (symbols st) (uri reference) with
  | None => Return None
  | Some array =>
      try! documentSymbols := readArray st array in
      let referenceRange := fromPlain (range reference) in
      (* the sorted copy is not used *)
      let _sorted :=
        sortBy documentSymbols (fun s => symbolSizes (kind (val s))) in
      Return
        (find (fun symbol =>
                 contains (fromPlain (declaredRange (val symbol)))
                   referenceRange)
              documentSymbols)
  end.

(** Lines 257-295. *)
Definition referencingSymbolsOf (st : State) (references : list Location)
  : result (list SymbolObject) :=
  foldM (fun referencingSymbols reference =>
           try! found := findReferencingSymbol st reference in
           match found with
           | None => Return referencingSymbols
           | Some referencingSymbol =>
               Return (referencingSymbols ++ [referencingSymbol])
           end)
        [] references.

(** Lines 256-296: [symbolToSymbolReferences]. *)
Definition resolveReferences (st : State)
  : result (Map.t nat (list SymbolObject)) :=
  foldM (fun symbolToSymbolReferences '(definitionSymbol, references) =>
           try! referencingSymbols := referencingSymbolsOf st references in
           Return (Map.set symbolToSymbolReferences definitionSymbol
                     referencingSymbols))
        [] (allReferences st).

(** The loop over the files. *)
Definition collect (files : list string) : result State :=
  foldM processFile initialState files.

(** [main], from the enumeration of the files on; the result is the
    document written to [outFile]. *)
Definition main (files : list string) : result Document :=
  try! st := collect files in
  try! symbolToSymbolReferences := resolveReferences st in
  try! symbolsByFile :=
    mapM (fun '(u, array) =>
            try! l := readArray st array in Return (u, l))
         (symbols st) in
  try! references :=
    mapM (fun '(k, l) => try! o := readObject st k in Return (o, l))
         symbolToSymbolReferences in
  asGXL objectId cwd symbolsByFile references rootPath.

End Lspindex.

(** ** The elements of the document, as gxl.ts builds them *)

Module Elements.

(** What jsdom holds for the nodes the program creates: text nodes and
    elements with their attributes and children, in order. *)
#[warnings="-register-all"]
Inductive Dom :=
| DomText (data : string)
| DomElement (tagName : string) (attributes : list (string * string))
    (childNodes : list Dom).

(** The values an attribute can hold at run time. A number is given by
    whether [Number.isInteger] holds of it and by its [toString()]. *)
Inductive JSValue :=
| JSNumber (isInteger : bool) (text : string)
| JSString (s : string)
| JSNull
| JSUndefined
| JSOther (text : string).

Inductive GXLError :=
| NoValue (name id : string)
| InvalidType.

(** [node.append(...children)] *)
Definition append (node : Dom) (children : list Dom) : Dom :=
  match node with
  | DomElement tagName attributes childNodes =>
      DomElement tagName attributes (childNodes ++ children)
  | DomText _ => node
  end.

(** The children of an element after [textContent = s]. *)
Definition textContent (s : string) : list Dom :=
  if String.eqb s "" then [] else [DomText s].

(** Lines 39-43. *)
Definition createGXLType (type : string) : Dom :=
  DomElement "type" [("xlink:href", type)] [].

(** Lines 73-91. *)
Definition addGXLAttribute (node : Dom) (name : string) (value : JSValue)
  : GXLError + Dom :=
  let typed :=
    match value with
    | JSNumber true text => inr ("int", text)
    | JSString s => inr ("string", s)
    | _ => inl InvalidType
    end in
  match typed with
  | inl e => inl e
  | inr (type, text) =>
      let attribute :=
        DomElement "attr" [("name", name)]
          [DomElement type [] (textContent text)] in
      inr (append node [DomText (String newline "  "); attribute])
  end.

(** Lines 53-58: the loop over [Object.entries(attrs)]. *)
Fixpoint addAttributes (id : string) (node : Dom)
    (entries : list (string * JSValue)) : GXLError + Dom :=
  match entries with
  | [] => inr node
  | (name, value) :: rest =>
      match value with
      | JSNull | JSUndefined => inl (NoValue name id)
      | _ =>
          match addGXLAttribute node name value with
          | inl e => inl e
          | inr node' => addAttributes id node' rest
          end
      end
  end.

(** Lines 45-63. *)
Definition createGXLNode (id type : string)
    (attrs : list (string * JSValue)) : GXLError + Dom :=
  let node :=
    DomElement "node" [("id", id)]
      [DomText (String newline "  "); createGXLType type] in
  match addAttributes id node attrs with
  | inl e => inl e
  | inr node' => inr (append node' [DomText (String newline "")])
  end.

(** Lines 65-71. *)
Definition createGXLEdge (from to type : string) : Dom :=
  DomElement "edge" [("from", from); ("to", to)]
    [DomText (String newline "  "); createGXLType type;
     DomText (String newline "")].

(** [Object.entries] of the attributes that [asGXL] passes, lines
    149-154; line and column are integers below 10^21, whose [toString()]
    is the decimal numeral. *)
Definition entries (attrs : GXLNodeAttributes) : list (string * JSValue) :=
  [("Source.Name", JSString (Source_Name attrs));
   ("Source.Line", JSNumber true (pretty (Source_Line attrs)));
   ("Source.Column", JSNumber true (pretty (Source_Column attrs)));
   ("Source.Path", JSString (Source_Path attrs))].

Definition typeName (type : GXLEdgeType) : string :=
  match type with
  | Source_Dependency => "Source_Dependency"
  | Enclosing => "Enclosing"
  end.

(** The element built for a child of the graph. *)
Definition element (e : Element) : GXLError + Dom :=
  match e with
  | node id type attrs => createGXLNode id type (entries attrs)
  | edge from to type => inr (createGXLEdge from to (typeName type))
  end.

End Elements.

(** ** Digests

    object-hash returns the SHA-1 digest of a serialisation of its argument,
    written in hexadecimal. The properties below take [objectId] as a
    parameter; [hexadecimal] is what they need to know of its results. *)

Definition isHexDigit (c : ascii) : bool :=
  existsb (Ascii.eqb c) (list_ascii_of_string "0123456789abcdef").

Definition hexadecimal (s : string) : Prop :=
  forallb isHexDigit (list_ascii_of_string s) = true.

(** A digest to run the program with: the hexadecimal rendering of a
    serialisation that tells any two different values apart. *)
Module Digest.

Definition hexDigit (n : nat) : ascii :=
  nth n (list_ascii_of_string "0123456789abcdef") "0"%char.

Fixpoint hex (s : string) : string :=
  match s with
  | EmptyString => ""
  | String c s' =>
      String (hexDigit (nat_of_ascii c / 16))
        (String (hexDigit (nat_of_ascii c mod 16)) (hex s'))
  end.

Definition kindNumber (k : SymbolKind) : nat :=
  match k with
  | SkFile => 1 | SkModule => 2 | SkNamespace => 3 | SkPackage => 4
  | SkClass => 5 | SkMethod => 6 | SkProperty => 7 | SkField => 8
  | SkConstructor => 9 | SkEnum => 10 | SkInterface => 11
  | SkFunction => 12 | SkVariable => 13 | SkConstant => 14
  | SkString => 15 | SkNumber => 16 | SkBoolean => 17 | SkArray => 18
  | SkObject => 19 | SkKey => 20 | SkNull => 21 | SkEnumMember => 22
  | SkStruct => 23 | SkEvent => 24 | SkOperator => 25
  | SkTypeParameter => 26
  end.

Definition showText (s : string) : string :=
  pretty (String.length s) +:+ ":" +:+ s.

Definition showRange (r : Range) : string :=
  pretty (line (start r)) +:+ "," +:+ pretty (character (start r)) +:+ ","
  +:+ pretty (line (end_ r)) +:+ "," +:+ pretty (character (end_ r)).

Definition showSymbol (s : LSPSymbol) : string :=
  match s with
  | SymbolInformation n k l c =>
      "I" +:+ showText n +:+ pretty (kindNumber k) +:+ ";"
      +:+ showText (uri l) +:+ showRange (range l) +:+ ";"
      +:+ match c with
          | Some c => "S" +:+ showText c
          | None => "N"
          end
  | DocumentSymbol n k r sel =>
      "D" +:+ showText n +:+ pretty (kindNumber k) +:+ ";"
      +:+ showRange r +:+ ";" +:+ showRange sel +:+ ";"
  end.

Definition showList {A} (f : A -> string) (l : list A) : string :=
  pretty (length l) +:+ "[" +:+ JS.join "" (map f l).

Definition show (h : HashInput) : string :=
  match h with
  | HashSymbol s => showSymbol s
  | HashSymbols l => showList showSymbol l
  | HashMaps m r =>
      showList (fun e => showText (fst e) +:+ showList showSymbol (snd e)) m
      +:+ showList (fun e => showSymbol (fst e) +:+ showList showSymbol (snd e)) r
  end.

Definition objectId (h : HashInput) : string := hex (show h).

End Digest.

(** ** Runs of the program

    Inputs on which the properties below are exercised: root [/a/b], one
    file [/a/b/c/d.py], working directory [/w]. *)

Module Scenario.

Definition cwd : string := "/w".
Definition rootPath : string := "/a/b".
Definition file : string := "/a/b/c/d.py".
Definition document : string := "file:///a/b/c/d.py".

Definition span (l1 c1 l2 c2 : nat) : Range :=
  {| start := {| line := l1; character := c1 |};
     end_ := {| line := l2; character := c2 |} |}.

Definition text (lines : list string) : string -> string :=
  fun _ => JS.join (String newline "") lines.

(** A server that knows no symbol. *)
Definition silent : LanguageServer :=
  {| documentSymbolResult := fun _ => None;
     referencesResult := fun _ _ => None |}.

(** One function, declared on the first line of the file. *)
Definition foo : LSPSymbol :=
  SymbolInformation "foo" SkFunction
    {| uri := document; range := span 0 0 1 8 |} None.

Definition fooServer : LanguageServer :=
  {| documentSymbolResult := fun _ => Some [foo];
     referencesResult := fun _ _ => None |}.

Definition fooText : string -> string :=
  text ["def foo():"; "    pass"].

(** A name bound by an import and a function. *)
Definition os : LSPSymbol :=
  SymbolInformation "os" SkModule
    {| uri := document; range := span 0 7 0 9 |} None.

Definition run : LSPSymbol :=
  SymbolInformation "run" SkFunction
    {| uri := document; range := span 1 0 2 14 |} None.

Definition importServer : LanguageServer :=
  {| documentSymbolResult := fun _ => Some [os; run];
     referencesResult :=
       fun _ _ => Some [{| uri := document; range := span 2 4 2 6 |}] |}.

Definition importText : string -> string :=
  text ["import os"; "def run():"; "    os.getcwd()"].

(** A class on lines 0 to 20 and, inside it, a method on lines 5 to 10;
    the method is used on line 7. *)
Definition classC : LSPSymbol :=
  SymbolInformation "C" SkClass
    {| uri := document; range := span 0 0 20 0 |} None.

Definition methodM : LSPSymbol :=
  SymbolInformation "m" SkMethod
    {| uri := document; range := span 5 0 10 0 |} (Some "C").

Definition usage : Location := {| uri := document; range := span 7 0 7 0 |}.

Definition classServer : LanguageServer :=
  {| documentSymbolResult := fun _ => Some [classC; methodM];
     referencesResult :=
       fun _ p => if line p =? 5 then Some [usage] else None |}.

Definition classText : string -> string :=
  text (repeat "pass" 21).

(** The same two symbols as a hierarchical provider sends them. *)
Definition docC : LSPSymbol :=
  DocumentSymbol "C" SkClass (span 0 0 20 0) (span 0 6 0 7).

Definition docM : LSPSymbol :=
  DocumentSymbol "m" SkMethod (span 5 0 10 0) (span 5 8 5 9).

(** A [File] symbol for the document, named by its path below the root. *)
Definition docFile : LSPSymbol :=
  SymbolInformation "c/d.py" SkFile
    {| uri := document; range := zeroRange |} (Some "c").

Definition hierarchy : Map.t string (list SymbolObject) :=
  [(document, [mkObject 0 docC; mkObject 1 docM; mkObject 2 docFile])].

(** The maps [asGXL] gets when [C] is found to use [m]. *)
Definition stored : Map.t string (list SymbolObject) :=
  [(document, [mkObject 0 classC; mkObject 1 methodM])].

Definition resolved : Map.t SymbolObject (list SymbolObject) :=
  [(mkObject 1 methodM, [mkObject 0 classC])].

(** Two directory symbols that differ in [containerName] only. *)
Definition dir1 : LSPSymbol :=
  SymbolInformation "c" SkFile
    {| uri := "file:///a/b/c"; range := zeroRange |} (Some "b").

Definition dir2 : LSPSymbol :=
  SymbolInformation "c" SkFile
    {| uri := "file:///a/b/c"; range := zeroRange |} (Some "x").

(** The store after a run over [file] in which the server reports no
    symbol: the two directories of the file inside the root. *)
Definition dirB : LSPSymbol :=
  SymbolInformation "b" SkFile
    {| uri := "file:///a/b"; range := zeroRange |} (Some "a").

Definition directories : Map.t string (list SymbolObject) :=
  [(document, []);
   ("file:///a/b/c", [mkObject 0 dir1]);
   ("file:///a/b", [mkObject 1 dirB])].





(** A store that holds two objects with the value of [dir1]. *)
Definition twice : Map.t string (list SymbolObject) :=
  [("file:///a/b/c", [mkObject 0 dir1; mkObject 1 dir1])].

End Scenario.

(** ** Vocabulary of the properties *)

(** A path relative to the root that leads out of it. *)
Definition outsideRoot (relativePath : string) : bool :=
  String.eqb relativePath ".."
  || JS.startsWith relativePath (".." +:+ path.sep).

Definition hasColon (s : string) : Prop :=
  In ":"%char (list_ascii_of_string s).

Definition isDependencyEdge (e : Element) : bool :=
  match e with
  | edge _ _ Source_Dependency => true
  | _ => false
  end.

Definition isEnclosingEdge (e : Element) : bool :=
  match e with
  | edge _ _ Enclosing => true
  | _ => false
  end.

(** The identifiers of the nodes of a document. *)
Definition nodeIdsOf (l : list Element) : list string :=
  omap (fun e => match e with node id _ _ => Some id | _ => None end) l.

(** The input records a dependency: a stored symbol that produces a node
    has a referencing symbol in the references map. *)
Definition recordsDependency
    (symbolsByFile : Map.t string (list SymbolObject))
    (references : Map.t SymbolObject (list SymbolObject)) : Prop :=
  exists uri symbols symbol referencing others,
    In (uri, symbols) symbolsByFile /\ In symbol symbols
    /\ is_Some (getGXLSymbolKind (val symbol))
    /\ referencesOf references symbol = Some (referencing :: others).

Definition fileURLs (symbolsByFile : Map.t string (list SymbolObject)) : Prop :=
  Forall (fun e => exists p, url.fileURLToPath (fst e) = Return p)
         symbolsByFile.

(** The invariant of the loops: node identifiers carry a colon, the
    source of a recorded edge is a bare digest, and the recorded edges are
    the dependency edges of the graph. *)
Record consistent (objectId : HashInput -> string) (b : Builder) : Prop := {
  ids_colon : forall id, id ∈ nodeIds b -> hasColon id;
  from_digest : Forall (fun e => exists h, fst e = objectId h) (edgeNodeIds b);
  recorded :
    filter (fun e => isDependencyEdge e = true) (graphElement b)
    = map (fun e => edge (fst e) (snd e) Source_Dependency) (edgeNodeIds b)
}.

(** The document a symbol says it is in. *)
Definition documentOf (s : LSPSymbol) : option string :=
  match s with
  | SymbolInformation _ _ l _ => Some (uri l)
  | DocumentSymbol _ _ _ _ => None
  end.

(** Two symbols with the same name, kind, range and document. *)
Definition sameIdentity (s1 s2 : LSPSymbol) : Prop :=
  name s1 = name s2 /\ kind s1 = kind s2
  /\ declaredRange s1 = declaredRange s2 /\ documentOf s1 = documentOf s2.

(** The line a symbol is declared on, as the loop over [docSymbols] reads
    it in [file]. *)
Definition declarationLine (readFile : string -> string) (file : string)
    (s : LSPSymbol) : option string :=
  JS.split newline (readFile file) !! line (start (lookupRange s)).

(** Answers are recorded under addresses of objects only. *)
Definition keysBounded (st : State) : Prop :=
  forall k, length (objects st) <= k -> Map.get (allReferences st) k = None.

(** [s] has the name that [symbol] gives as its container. *)
Definition namedAsContainerOf (symbol s : SymbolObject) : bool :=
  bool_decide (Some (name (val s)) = containerName (val symbol)).

(** [s] is a symbol of kind [File] named [relativePath]. *)
Definition fileNamed (relativePath : string) (s : SymbolObject) : bool :=
  bool_decide (kind (val s) = SkFile)
  && String.eqb (name (val s)) relativePath.

(** A path segment as [path.resolve] and the file enumeration produce
    them: not empty, not [.] or [..], and free of separators. *)
Definition noSeparator (s : string) : bool :=
  forallb (fun c => negb (Ascii.eqb c path.sepChar)) (list_ascii_of_string s).

Definition cleanSegment (s : string) : bool :=
  negb (String.eqb s "") && negb (String.eqb s ".")
  && negb (String.eqb s "..") && noSeparator s.

(** The absolute path with the given segments. *)
Definition absolute (segments : list string) : string :=
  path.sep +:+ JS.join path.sep segments.

(** The symbol that the directory loop makes for [dir]. *)
Definition directorySymbol (cwd dir : string) : LSPSymbol :=
  SymbolInformation (path.basename dir) SkFile
    {| uri := url.pathToFileURL cwd dir; range := zeroRange |}
    (Some (path.basename (path.join dir ".."))).

(** The symbols of the store, each with the URI it is stored under, in
    the order [asGXL] visits them. *)
Definition storedSymbols (symbolsByFile : Map.t string (list SymbolObject))
  : list (string * SymbolObject) :=
  flat_map (fun e => map (pair (fst e)) (snd e)) symbolsByFile.

(** The node that a symbol stored under [uri] stands for, when its kind is
    not excluded. *)
Definition nodeOf (objectId : HashInput -> string) (cwd rootPath : string)
    (e : string * SymbolObject) : option Element :=
  option_map
    (fun type =>
       node (nodeID objectId (val (snd e))) type
         {| Source_Name := name (val (snd e));
            Source_Line := line (start (declaredRange (val (snd e))));
            Source_Column := character (start (declaredRange (val (snd e))));
            Source_Path := path.relative cwd rootPath (JS.slice 7 (fst e)) |})
    (getGXLSymbolKind (val (snd e))).

Definition isNode (e : Element) : bool :=
  match e with
  | node _ _ _ => true
  | edge _ _ _ => false
  end.

(** The two ends of every recorded edge are node identifiers. *)
Definition endsKnown (b : Builder) : Prop :=
  Forall (fun e => fst e ∈ nodeIds b /\ snd e ∈ nodeIds b) (edgeNodeIds b).

(** The objects at the addresses of [l] are symbols of kinds that [asGXL]
    turns into nodes. *)
Definition nodeObjects (st : State) (l : list nat) : Prop :=
  Forall (fun o => exists s, objects st !! o = Some s
                             /\ is_Some (getGXLSymbolKind s)) l.

(** Every entry of the store is under a URI that [fileURLToPath] accepts
    and leads to an array of symbols that produce nodes. *)
Definition wellStored (st : State) : Prop :=
  forall u a, In (u, a) (symbols st) ->
    (exists p, url.fileURLToPath u = Return p)
    /\ exists l, arrays st !! a = Some l /\ nodeObjects st l.

(** [s'] is [s] but for the column at which its lookup range starts,
    which is [n] further to the right. *)
Definition movedBy (n : nat) (s s' : LSPSymbol) : Prop :=
  name s' = name s /\ kind s' = kind s
  /\ containerName s' = containerName s
  /\ documentOf s' = documentOf s
  /\ DocumentSymbol_is s' = DocumentSymbol_is s
  /\ end_ (lookupRange s') = end_ (lookupRange s)
  /\ line (start (lookupRange s')) = line (start (lookupRange s))
  /\ character (start (lookupRange s'))
     = character (start (lookupRange s)) + n
  /\ (DocumentSymbol_is s = true -> declaredRange s' = declaredRange s).

(** The server reports for [file] a symbol of a kind that produces a node
    on a line that the content of [file] does not have. *)
Definition declaredOffFile (cwd : string) (server : LanguageServer)
    (readFile : string -> string) (file : string) : Prop :=
  exists i s,
    default [] (documentSymbolResult server (url.pathToFileURL cwd file)) !! i
    = Some s
    /\ is_Some (getGXLSymbolKind s)
    /\ declarationLine readFile file s = None.

Definition isDocumentSymbolRequest (r : Request) : bool :=
  match r with
  | DocumentSymbolRequest _ => true
  | ReferencesRequest _ _ => false
  end.

(** The addresses in the lists of the store, list by list. *)
Definition storedAddresses (st : State) : list nat :=
  flat_map (fun e => default [] (arrays st !! snd e)) (symbols st).

(** The requests for [file]: the request for its symbols, then the
    requests for references at [positions] of the same document. *)
Definition requestsFor (cwd : string) (file : string)
    (positions : list Position) : list Request :=
  DocumentSymbolRequest (url.pathToFileURL cwd file)
  :: map (ReferencesRequest (url.pathToFileURL cwd file)) positions.

(** The URIs of the directories that the directory loop visits, in the
    order of the visits. *)
Fixpoint visitedDirectories (cwd rootPath : string) (reversed : list string)
  : list string :=
  match reversed with
  | [] => []
  | popped :: remaining =>
      let dir := JS.join path.sep (rev remaining) in
      if String.eqb popped "" then []
      else if outsideRoot (path.relative cwd rootPath dir) then []
      else url.pathToFileURL cwd dir
           :: visitedDirectories cwd rootPath remaining
  end.

(** The symbol that the loop over the files makes for [file] itself. *)
Definition fileSymbol (cwd rootPath file : string) : LSPSymbol :=
  SymbolInformation (path.basename (path.relative cwd rootPath file)) SkFile
    {| uri := url.pathToFileURL cwd file; range := zeroRange |}
    (Some (path.basename (path.join (path.relative cwd rootPath file) ".."))).

(** The addresses, from [base] on, of the symbols of a response that are
    of a kind that produces a node. *)
Definition nodeAddresses (base : nat) (response : list LSPSymbol)
  : list nat :=
  map addr
    (filter (fun s => bool_decide (is_Some (getGXLSymbolKind (val s))))
       (imap (fun i s => mkObject (base + i) s) response)).

(** Whether the character before the end of [s] is a word character,
    when [before] tells it for the character before [s]. *)
Fixpoint endsInWord (before : bool) (s : string) : bool :=
  match s with
  | EmptyString => before
  | String c s' => endsInWord (JS.isWordChar c) s'
  end.

(** [s] holds the word [import]: the six letters, with no word character
    right before and none right after. *)
Definition hasImportWord (s : string) : Prop :=
  exists pre post,
    s = pre +:+ "import" +:+ post
    /\ endsInWord false pre = false /\ JS.wordCharAt 0 post = false.

(** The place of a kind in the reversed array of [symbolSizes]. *)
Definition sizeRank (k : SymbolKind) : option nat :=
  option_map fst (list_find (fun x => x = k) (rev symbolSizeOrder)).

(** A value that [addGXLAttribute] takes: an integer or a string. *)
Definition accepted (value : Elements.JSValue) : bool :=
  match value with
  | Elements.JSNumber true _ | Elements.JSString _ => true
  | _ => false
  end.

Definition missing (value : Elements.JSValue) : bool :=
  match value with
  | Elements.JSNull | Elements.JSUndefined => true
  | _ => false
  end.

(** The [attr] element of an accepted value. *)
Definition attributeOf (e : string * Elements.JSValue) : Elements.Dom :=
  Elements.DomElement "attr" [("name", fst e)]
    [match snd e with
     | Elements.JSNumber _ text =>
         Elements.DomElement "int" [] (Elements.textContent text)
     | Elements.JSString s =>
         Elements.DomElement "string" [] (Elements.textContent s)
     | _ => Elements.DomText ""
     end].

(** The identifier of the node that a stored symbol stands for, when its
    kind is not excluded. *)
Definition nodeIdOf (objectId : HashInput -> string)
    (e : string * SymbolObject) : option string :=
  option_map (fun _ => nodeID objectId (val (snd e)))
    (getGXLSymbolKind (val (snd e))).

(** * Properties *)

(** ** The path functions on the paths of the runs *)

Example relative_inside : path.relative "/w" "/a/b" "/a/b/c" = "c".
Proof. reflexivity. Qed.

Example relative_root : path.relative "/w" "/a/b" "/a/b" = "".
Proof. reflexivity. Qed.

Example relative_above : path.relative "/w" "/a/b" "/a" = "..".
Proof. reflexivity. Qed.

Example relative_to_cwd : path.relative "/a/b/x" "/a/b" "" = "x".
Proof. reflexivity. Qed.

Example join_parent :
  path.join "/a/b/c" ".." = "/a/b" /\ path.join "/a" ".." = "/"
  /\ path.join "c/d.py" ".." = "c" /\ path.join "d.py" ".." = ".".
Proof. repeat split; reflexivity. Qed.

Example basename_last :
  path.basename "/a/b/c" = "c" /\ path.basename "/" = ""
  /\ path.basename "." = ".".
Proof. repeat split; reflexivity. Qed.

Example testImport_words :
  JS.testImport "import os" = true
  /\ JS.testImport "from x import y" = true
  /\ JS.testImport "important = 1" = false
  /\ JS.testImport "reimport x" = false.
Proof. repeat split; reflexivity. Qed.

Example split_file :
  JS.split "/" "/a/b/c/d.py" = [""; "a"; "b"; "c"; "d.py"].
Proof. reflexivity. Qed.

(** ** The error monad *)

Lemma bind_Return {A B} (r : result A) (k : A -> result B) (b : B) :
  bind r k = Return b -> exists a, r = Return a /\ k a = Return b.
Proof. destruct r as [a|e]; simpl; [eauto | discriminate]. Qed.

Lemma foldM_invariant {A B} (P : A -> Prop) (f : A -> B -> result A) :
  (forall a b a', P a -> f a b = Return a' -> P a') ->
  forall l a a', P a -> foldM f a l = Return a' -> P a'.
Proof.
  intros Hstep l. induction l as [|b l IH]; simpl; intros a a' Ha Hr.
  - congruence.
  - apply bind_Return in Hr as (a1 & H1 & H2). eauto.
Qed.

Lemma foldM_total {A B} (f : A -> B -> result A) (l : list B) :
  (forall a b, In b l -> exists a', f a b = Return a') ->
  forall a, exists a', foldM f a l = Return a'.
Proof.
  induction l as [|b l IH]; simpl; intros Hf a; [eauto|].
  destruct (Hf a b) as [a1 H1]; [auto|]. rewrite H1. simpl.
  apply IH. eauto.
Qed.

(** ** Strings *)


Lemma chars_append (a b : string) :
  list_ascii_of_string (a +:+ b)
  = list_ascii_of_string a ++ list_ascii_of_string b.
Proof. induction a as [|c a IH]; simpl; [reflexivity | now rewrite IH]. Qed.

Lemma hexadecimal_no_colon (s : string) : hexadecimal s -> ~ hasColon s.
Proof.
  unfold hexadecimal, hasColon. intros Hh Hin.
  rewrite forallb_forall in Hh. apply Hh in Hin. discriminate.
Qed.

Lemma hasColon_infix (a b : string) : hasColon (a +:+ ":" +:+ b).
Proof.
  unfold hasColon. rewrite chars_append. apply in_or_app. right.
  simpl. auto.
Qed.

Lemma hex_hexadecimal (s : string) : hexadecimal (Digest.hex s).
Proof.
  unfold hexadecimal. induction s as [|c s IH]; [reflexivity|].
  cbn [Digest.hex list_ascii_of_string forallb]. rewrite IH.
  assert (Hd : forall n, n < 16 -> isHexDigit (Digest.hexDigit n) = true).
  { intros n Hn. do 16 (destruct n as [|n]; [reflexivity|]). lia. }
  rewrite !Hd; [reflexivity | | ].
  - apply Nat.mod_upper_bound. lia.
  - apply Nat.Div0.div_lt_upper_bound.
    pose proof (nat_ascii_bounded c). lia.
Qed.

Lemma objectId_hexadecimal (h : HashInput) : hexadecimal (Digest.objectId h).
Proof. apply hex_hexadecimal. Qed.

(** ** The graph builder *)


Section GxlFacts.

Variable objectId : HashInput -> string.
Variable cwd : string.

Lemma fold_addReference (to : string) (l : list SymbolObject) (b : Builder) :
  fold_left (addReference objectId to) l b
  = {| nodeIds := nodeIds b;
       edgeNodeIds :=
         edgeNodeIds b
         ++ map (fun r => (objectId (HashSymbol (val r)), to)) l;
       graphElement :=
         graphElement b
         ++ map (fun r => edge (objectId (HashSymbol (val r))) to
                            Source_Dependency) l |}.
Proof.
  revert b. induction l as [|r l IH]; intros b; simpl.
  - rewrite !app_nil_r. now destruct b.
  - rewrite IH. unfold addReference, createGXLEdge. simpl.
    now rewrite <- !app_assoc.
Qed.

Lemma parentDirectoryEdge_Return symbolsByFile rootPath uri symbol l :
  parentDirectoryEdge objectId cwd symbolsByFile rootPath uri symbol
  = Return l ->
  forallb isEnclosingEdge l = true.
Proof.
  unfold parentDirectoryEdge. intros H.
  apply bind_Return in H as (filePath & _ & H).
  match type of H with
  | (if ?c then _ else _) = _ => destruct c; [|now inversion H]
  end.
  destruct (Map.get _ _); inversion H; reflexivity.
Qed.

(** What one step of the inner loop does when it returns. *)
Lemma addSymbol_Return symbolsByFile references rootPath uri symbols b
    symbol b' :
  addSymbol objectId cwd symbolsByFile references rootPath uri symbols b
    symbol = Return b' ->
  match getGXLSymbolKind (val symbol) with
  | None => b' = b
  | Some type =>
      exists appended filePath,
        forallb isEnclosingEdge appended = true
        /\ (kind (val symbol) <> SkFile -> appended = [])
        /\ url.fileURLToPath uri = Return filePath
        /\ b' =
           fold_left (addReference objectId (nodeID objectId (val symbol)))
             (default [] (referencesOf references symbol))
             {| nodeIds := {[ nodeID objectId (val symbol) ]} ∪ nodeIds b;
                edgeNodeIds := edgeNodeIds b;
                graphElement :=
                  graphElement b ++ appended
                  ++ [node (nodeID objectId (val symbol)) type
                        {| Source_Name := name (val symbol);
                           Source_Line :=
                             line (start (declaredRange (val symbol)));
                           Source_Column :=
                             character (start (declaredRange (val symbol)));
                           Source_Path :=
                             path.relative cwd rootPath filePath |}] |}
  end.
Proof.
  unfold addSymbol. destruct (getGXLSymbolKind (val symbol)) as [type|].
  2:{ intros H. now inversion H. }
  intros H. apply bind_Return in H as (appended & Happ & H).
  apply bind_Return in H as (filePath & Hpath & H).
  inversion H; subst b'; clear H.
  exists appended, filePath. repeat split; try assumption.
  - destruct (bool_decide _).
    + eapply parentDirectoryEdge_Return; eauto.
    + apply bind_Return in Happ as (c & _ & Hc). now inversion Hc.
  - intros Hk. rewrite bool_decide_eq_false_2 in Happ by assumption.
    apply bind_Return in Happ as (c & _ & Hc). now inversion Hc.
Qed.

Lemma findM_total {A} (p : A -> result bool) (l : list A) :
  (forall x, exists b, p x = Return b) ->
  exists r, findM p l = Return r.
Proof.
  intros Hp. induction l as [|x l IH]; simpl; [eauto|].
  destruct (Hp x) as [b Hb]. rewrite Hb. simpl.
  destruct b; eauto.
Qed.

(** A step of the inner loop throws only through [fileURLToPath]. *)
Lemma addSymbol_total symbolsByFile references rootPath uri symbols b
    symbol filePath :
  url.fileURLToPath uri = Return filePath ->
  exists b',
    addSymbol objectId cwd symbolsByFile references rootPath uri symbols b
      symbol = Return b'.
Proof.
  intros Hpath. unfold addSymbol.
  destruct (getGXLSymbolKind (val symbol)); [|eauto].
  assert (Happ : exists appended,
    (if bool_decide (kind (val symbol) = SkFile)
     then parentDirectoryEdge objectId cwd symbolsByFile rootPath uri symbol
     else try! _created :=
            containerEdge objectId cwd rootPath uri symbols symbol in
          Return []) = Return appended).
  { destruct (bool_decide _).
    - unfold parentDirectoryEdge. rewrite Hpath. simpl.
      match goal with
      | |- exists _, (if ?c then _ else _) = _ => destruct c; [|eauto]
      end.
      destruct (Map.get _ _); eauto.
    - unfold containerEdge. destruct (negb _); simpl; [|eauto].
      unfold findContainer. destruct (find _ _); simpl; [eauto|].
      edestruct (findM_total
        (fun s : SymbolObject =>
           if bool_decide (kind (val s) = SkFile) then
             try! filePath := url.fileURLToPath uri in
             Return (String.eqb (name (val s))
                       (path.relative cwd rootPath filePath))
           else Return false) symbols) as [r Hr].
      + intros x. destruct (bool_decide _); [|eauto].
        rewrite Hpath. simpl. eauto.
      + rewrite Hr. simpl. eauto. }
  destruct Happ as [appended ->]. simpl. rewrite Hpath. simpl. eauto.
Qed.


Lemma consistent_empty : consistent objectId emptyBuilder.
Proof.
  split; simpl; [|constructor|reflexivity].
  intros id Hid. set_solver.
Qed.

Lemma filter_enclosing (l : list Element) :
  forallb isEnclosingEdge l = true ->
  filter (fun e => isDependencyEdge e = true) l = [].
Proof.
  induction l as [|e l IH]; simpl; [reflexivity|].
  intros H. apply andb_prop in H as [He Hl].
  destruct e as [|f t []]; try discriminate.
  rewrite filter_cons_False by discriminate. auto.
Qed.

Lemma addSymbol_consistent symbolsByFile references rootPath uri symbols b
    symbol b' :
  consistent objectId b ->
  addSymbol objectId cwd symbolsByFile references rootPath uri symbols b
    symbol = Return b' ->
  consistent objectId b'
  /\ exists added,
       edgeNodeIds b' = edgeNodeIds b ++ added
       /\ (is_Some (getGXLSymbolKind (val symbol)) ->
           length added
           = length (default [] (referencesOf references symbol))).
Proof.
  intros [Hids Hfrom Hrec] H. apply addSymbol_Return in H.
  destruct (getGXLSymbolKind (val symbol)) as [type|].
  2:{ subst b'. split; [now split|]. exists []. rewrite app_nil_r.
      split; [reflexivity|]. intros [? ?]; discriminate. }
  destruct H as (appended & filePath & Happ & _ & _ & ->).
  rewrite fold_addReference. simpl. split.
  - split; simpl.
    + intros id Hid. apply elem_of_union in Hid as [Hid|Hid]; [|auto].
      apply elem_of_singleton in Hid. subst id. apply hasColon_infix.
    + apply Forall_app. split; [assumption|].
      apply Forall_forall. intros e He. apply list_elem_of_In in He.
      apply in_map_iff in He as (r & <- & _).
      simpl. eauto.
    + rewrite !filter_app, Hrec, (filter_enclosing _ Happ).
      rewrite filter_cons_False by discriminate.
      rewrite filter_nil. simpl. rewrite app_nil_r.
      rewrite map_app, map_map. simpl. f_equal.
      induction (default [] (referencesOf references symbol)) as [|r l IH];
        [reflexivity|].
      simpl. rewrite filter_cons_True by reflexivity.
      now rewrite IH.
  - eexists. split; [reflexivity|]. intros _. now rewrite length_map.
Qed.

End GxlFacts.

Lemma foldM_reaches {A B} (Q : A -> Prop) (f : A -> B -> result A)
    (l : list B) (x : B) :
  (forall a b a', Q a -> f a b = Return a' -> Q a') ->
  (forall a a', f a x = Return a' -> Q a') ->
  In x l ->
  forall a a', foldM f a l = Return a' -> Q a'.
Proof.
  intros Hmono Hx. induction l as [|b l IH]; simpl; intros Hin a a' Hr.
  - contradiction.
  - apply bind_Return in Hr as (a1 & H1 & H2). destruct Hin as [->|Hin].
    + eapply (foldM_invariant Q f Hmono); [|exact H2]. eauto.
    + eauto.
Qed.

Section BuildFacts.

Variable objectId : HashInput -> string.
Variable cwd : string.
Variable symbolsByFile : Map.t string (list SymbolObject).
Variable references : Map.t SymbolObject (list SymbolObject).
Variable rootPath : string.

Lemma build_consistent (b : Builder) :
  build objectId cwd symbolsByFile references rootPath = Return b ->
  consistent objectId b.
Proof.
  unfold build. apply foldM_invariant; [|apply consistent_empty].
  intros a [uri symbols] a' Ha. apply foldM_invariant; [|exact Ha].
  intros a1 s a2 Ha1 Hs.
  now destruct (addSymbol_consistent _ _ _ _ _ _ _ _ _ _ Ha1 Hs).
Qed.

Lemma addSymbol_keeps_edges uri symbols b symbol b' :
  addSymbol objectId cwd symbolsByFile references rootPath uri symbols b
    symbol = Return b' ->
  exists added,
    edgeNodeIds b' = edgeNodeIds b ++ added
    /\ (is_Some (getGXLSymbolKind (val symbol)) ->
        length added = length (default [] (referencesOf references symbol))).
Proof.
  intros H. apply addSymbol_Return in H.
  destruct (getGXLSymbolKind (val symbol)) as [type|].
  - destruct H as (appended & filePath & _ & _ & _ & ->).
    rewrite fold_addReference. simpl. eexists. split; [reflexivity|].
    intros _. now rewrite length_map.
  - subst b'. exists []. rewrite app_nil_r. split; [reflexivity|].
    intros [? ?]; discriminate.
Qed.

Lemma build_records (b : Builder) :
  recordsDependency symbolsByFile references ->
  build objectId cwd symbolsByFile references rootPath = Return b ->
  edgeNodeIds b <> [].
Proof.
  intros (uri & symbols & symbol & r & rs & Hfile & Hsym & Hkind & Hrefs).
  unfold build.
  assert (Hmono : forall u l a s a',
    edgeNodeIds a <> [] ->
    addSymbol objectId cwd symbolsByFile references rootPath u l a s
      = Return a' ->
    edgeNodeIds a' <> []).
  { intros u l a s a' Ha Hs.
    apply addSymbol_keeps_edges in Hs as (added & -> & _).
    destruct (edgeNodeIds a); [contradiction | discriminate]. }
  apply (foldM_reaches (fun b => edgeNodeIds b <> []) _ _ (uri, symbols));
    [ | | exact Hfile].
  - intros a [u l] a' Ha Hr.
    refine (foldM_invariant (fun b => edgeNodeIds b <> []) _ _ l a a' Ha Hr).
    eauto.
  - intros a a'.
    apply (foldM_reaches (fun b => edgeNodeIds b <> []) _ _ symbol);
      [eauto | | exact Hsym].
    intros a1 a2 Hs.
    apply addSymbol_keeps_edges in Hs as (added & -> & Hlen).
    specialize (Hlen Hkind). rewrite Hrefs in Hlen. simpl in Hlen.
    destruct added; [discriminate|]. now destruct (edgeNodeIds a1).
Qed.

Lemma build_total :
  fileURLs symbolsByFile ->
  exists b, build objectId cwd symbolsByFile references rootPath = Return b.
Proof.
  unfold fileURLs, build. intros Hurls. apply foldM_total.
  intros a [uri symbols] Hin.
  rewrite Forall_forall in Hurls.
  apply list_elem_of_In in Hin.
  destruct (Hurls _ Hin) as [filePath Hpath]. simpl in Hpath.
  apply foldM_total. intros a1 s _. eapply addSymbol_total; eauto.
Qed.

Lemma verify_dangling (b : Builder) :
  (forall h, hexadecimal (objectId h)) ->
  consistent objectId b ->
  edgeNodeIds b <> [] ->
  verify b = Throw DanglingEdge.
Proof.
  intros Hhex [Hids Hfrom _] Hne. unfold verify.
  destruct (edgeNodeIds b) as [|e l]; [contradiction|].
  apply Forall_cons in Hfrom as [[h He] _]. simpl.
  rewrite (bool_decide_eq_false_2 (e.1 ∈ nodeIds b)); [reflexivity|].
  intros Hin. apply Hids in Hin. rewrite He in Hin.
  exact (hexadecimal_no_colon _ (Hhex h) Hin).
Qed.

Lemma asGXL_Return (d : Document) :
  asGXL objectId cwd symbolsByFile references rootPath = Return d ->
  exists b,
    build objectId cwd symbolsByFile references rootPath = Return b
    /\ verify b = Return tt
    /\ elements d = graphElement b.
Proof.
  unfold asGXL. intros H.
  apply bind_Return in H as (b & Hb & H).
  apply bind_Return in H as ([] & Hv & H).
  inversion H. eauto.
Qed.

End BuildFacts.


Lemma colon_not_digest (objectId : HashInput -> string) (s : string)
    (h : HashInput) :
  (forall h, hexadecimal (objectId h)) -> hasColon s -> s <> objectId h.
Proof.
  intros Hhex Hs ->. exact (hexadecimal_no_colon _ (Hhex h) Hs).
Qed.

(** ** Runs *)

(** C1. The verification pass looks at the recorded dependency edges only.
    With root [/a/b], the single file [/a/b/c/d.py] and no symbol from the
    server, [main] returns a document in which the [Enclosing] edge of
    directory [c] ends at the digest of the list stored for [/a/b], which
    is the identifier of no node. *)
Theorem enclosing_edge_dangles (objectId : HashInput -> string) :
  (forall h, hexadecimal (objectId h)) ->
  exists d from to,
    main objectId Scenario.cwd Scenario.rootPath false Scenario.silent
      (Scenario.text []) [Scenario.file] = Return d
    /\ In (edge from to Enclosing) (elements d)
    /\ ~ In to (nodeIdsOf (elements d)).
Proof.
  intros Hhex. eexists _, _, _. split; [|split].
  - lazy. reflexivity.
  - simpl. left. reflexivity.
  - simpl. intros [H|[H|[]]]; revert H;
      apply (colon_not_digest objectId _ _ Hhex);
      unfold hasColon; simpl; auto.
Qed.

Lemma enclosing_edge_dangles_run :
  exists d from to,
    main Digest.objectId Scenario.cwd Scenario.rootPath false Scenario.silent
      (Scenario.text []) [Scenario.file] = Return d
    /\ In (edge from to Enclosing) (elements d)
    /\ ~ In to (nodeIdsOf (elements d)).
Proof. apply (enclosing_edge_dangles Digest.objectId objectId_hexadecimal). Defined.



(** C3. The sorted copy of the document's symbols is thrown away and the
    search runs over the list as stored: with the class on lines 0 to 20
    listed before its method on lines 5 to 10, a reference on line 7, which
    both contain, is mapped to the class. *)
Theorem resolver_takes_first_listed :
  exists st,
    collect Scenario.cwd Scenario.rootPath false Scenario.classServer
      Scenario.classText [Scenario.file] = Return st
    /\ contains (fromPlain (declaredRange Scenario.methodM))
         (fromPlain (range Scenario.usage)) = true
    /\ findReferencingSymbol st Scenario.usage
       = Return (Some (mkObject 0 Scenario.classC))
    /\ resolveReferences st
       = Return [(0, []); (1, [mkObject 0 Scenario.classC])].
Proof.
  eexists. split; [vm_compute; reflexivity|].
  repeat split; vm_compute; reflexivity.
Qed.

(** C4. The [File] symbol of the document is pushed onto [docSymbols], the
    array received from the server, after [symbols] was given the filtered
    copy: the list stored for the document holds the two symbols of the
    server and no [File] symbol. *)
Theorem file_symbol_not_stored :
  exists st filtered,
    collect Scenario.cwd Scenario.rootPath false Scenario.classServer
      Scenario.classText [Scenario.file] = Return st
    /\ Map.get (symbols st) Scenario.document = Some filtered
    /\ readArray st filtered
       = Return [mkObject 0 Scenario.classC; mkObject 1 Scenario.methodM]
    /\ readArray st 0
       = Return [mkObject 0 Scenario.classC; mkObject 1 Scenario.methodM;
                 mkObject 4
                   (SymbolInformation "d.py" SkFile
                      {| uri := Scenario.document; range := zeroRange |}
                      (Some "c"))]
    /\ Map.keys (symbols st)
       = [Scenario.document; "file:///a/b/c"; "file:///a/b"]
    /\ Forall (fun u => forall a l, Map.get (symbols st) u = Some a ->
                 arrays st !! a = Some l -> ~ In 4 l)
         (Map.keys (symbols st)).
Proof.
  eexists _, _. split; [vm_compute; reflexivity|].
  repeat split; try (vm_compute; reflexivity).
  repeat constructor; vm_compute; intros a l [= <-] [= <-]; simpl; intuition lia.
Qed.

(** C8. Looking up the references of [foo], declared at column 0 of the
    line [def foo():], moves the start of the range of the stored symbol
    itself to column 5, and the node of [foo] gets that column. *)
Theorem lookup_moves_stored_range :
  exists st filtered moved d,
    collect Scenario.cwd Scenario.rootPath false Scenario.fooServer
      Scenario.fooText [Scenario.file] = Return st
    /\ Map.get (symbols st) Scenario.document = Some filtered
    /\ readArray st filtered = Return [mkObject 0 moved]
    /\ character (start (declaredRange Scenario.foo)) = 0
    /\ character (start (declaredRange moved)) = 5
    /\ main Digest.objectId Scenario.cwd Scenario.rootPath false
         Scenario.fooServer Scenario.fooText [Scenario.file] = Return d
    /\ exists id, In (node id "Routine"
                        {| Source_Name := "foo"; Source_Line := 0;
                           Source_Column := 5; Source_Path := "c/d.py" |})
                     (elements d).
Proof.
  eexists _, _, _, _. split; [vm_compute; reflexivity|].
  repeat split; try (vm_compute; reflexivity).
  eexists. simpl. left. reflexivity.
Qed.

(** ** Maps *)

Section MapFacts.
Context {K V : Type} `{EqDecision K}.

Lemma Map_get_set_eq (m : Map.t K V) (k : K) (v : V) :
  Map.get (Map.set m k v) k = Some v.
Proof.
  induction m as [|[k' v'] m IH]; simpl.
  - now rewrite decide_True.
  - destruct (decide (k' = k)) as [->|Hne]; simpl.
    + now rewrite decide_True.
    + now rewrite decide_False.
Qed.

Lemma Map_get_set_ne (m : Map.t K V) (k k' : K) (v : V) :
  k <> k' -> Map.get (Map.set m k v) k' = Map.get m k'.
Proof.
  intros Hne. induction m as [|[k0 v0] m IH]; simpl.
  - now rewrite decide_False.
  - destruct (decide (k0 = k)) as [->|Hne0]; simpl.
    + now rewrite !decide_False.
    + destruct (decide (k0 = k')); [reflexivity | exact IH].
Qed.

Lemma Map_has_set (m : Map.t K V) (k k' : K) (v : V) :
  Map.has (Map.set m k v) k' = true <-> k = k' \/ Map.has m k' = true.
Proof.
  unfold Map.has. destruct (decide (k = k')) as [->|Hne].
  - rewrite Map_get_set_eq. tauto.
  - rewrite Map_get_set_ne by assumption. tauto.
Qed.

Lemma Map_get_None_keys (m : Map.t K V) (k : K) :
  Map.get m k = None <-> ~ In k (Map.keys m).
Proof.
  induction m as [|[k' v'] m IH]; simpl; [tauto|].
  destruct (decide (k' = k)) as [->|Hne].
  - split; [discriminate | tauto].
  - rewrite IH. tauto.
Qed.
End MapFacts.

(** ** Looking up references *)

Lemma advance_line (n : nat) (s : LSPSymbol) :
  line (start (lookupRange (advance n s))) = line (start (lookupRange s)).
Proof. now destruct s. Qed.

Lemma advance_character (n : nat) (s : LSPSymbol) :
  character (start (lookupRange (advance n s)))
  = character (start (lookupRange s)) + n.
Proof. now destruct s. Qed.

Section LookupFacts.

Variable server : LanguageServer.
Variable readFile : string -> string.
Variables file uri : string.

Local Abbreviation declarationLine := (declarationLine readFile file).

(** A step of the loop either leaves the state alone or rewrites the
    symbol, sends one request and records its answer. *)
Lemma getReferences_Return (st st' : State) (a : nat) :
  getReferences server readFile file uri st a = Return st' ->
  exists s,
    objects st !! a = Some s
    /\ (st' = st
        \/ exists lineContent s',
             declarationLine s = Some lineContent
             /\ JS.testImport lineContent = false
             /\ line (start (lookupRange s')) = line (start (lookupRange s))
             /\ st' =
                setReferences a
                  (default []
                     (referencesResult server uri (start (lookupRange s'))))
                  (send (ReferencesRequest uri (start (lookupRange s')))
                     (setObject a s' st))).
Proof.
  unfold getReferences, readObject, declarationLine. intros H.
  destruct (objects st !! a) as [s|] eqn:Hs; [|discriminate].
  simpl in H. exists s. split; [reflexivity|].
  destruct (getGXLSymbolKind s); [|left; congruence].
  destruct (JS.split newline (readFile file) !! _) as [lineContent|];
    [|discriminate].
  destruct (JS.testImport lineContent) eqn:Himp; [left; congruence|].
  right. inversion H; subst st'; clear H.
  eexists lineContent, _.
  split; [reflexivity|]. split; [assumption|]. split; [|reflexivity].
  repeat match goal with
         | |- context [if ?c then _ else _] => destruct c
         end; now rewrite ?advance_line.
Qed.

(** The step for a symbol declared on an import line does nothing. *)
Lemma getReferences_import (st : State) (a : nat) (s : LSPSymbol)
    (lineContent : string) :
  objects st !! a = Some s ->
  declarationLine s = Some lineContent ->
  JS.testImport lineContent = true ->
  getReferences server readFile file uri st a = Return st.
Proof.
  unfold getReferences, readObject, declarationLine.
  intros -> Hline Himp. simpl.
  destruct (getGXLSymbolKind s); [|reflexivity].
  now rewrite Hline, Himp.
Qed.

End LookupFacts.

Lemma class_is_not_def (x : string) :
  JS.startsWith x "class " = true -> JS.startsWith x "def " = false.
Proof.
  unfold JS.startsWith. destruct x as [|ch x]; [discriminate|].
  cbn [String.prefix].
  destruct (ascii_dec "c"%char ch) as [<-|]; [|discriminate]. intros _.
  destruct (ascii_dec "d"%char "c"%char); [discriminate | reflexivity].
Qed.

(** C9, as the program has it. For a definition whose lookup range starts
    at column [c] of a line that reads [def ...] from there on, the
    references are requested at column [c + 5], one column past the
    keyword and its space (column 5 for [def foo():] at column 0); for a
    line that reads [class ...] from there on, at column [c + 7]. *)
Theorem lookup_position_skips_keyword
    (server : LanguageServer) (readFile : string -> string)
    (file uri : string) (st : State) (a : nat) (s : LSPSymbol)
    (lineContent : string) :
  objects st !! a = Some s ->
  is_Some (getGXLSymbolKind s) ->
  declarationLine readFile file s = Some lineContent ->
  JS.testImport lineContent = false ->
  let l := line (start (lookupRange s)) in
  let c := character (start (lookupRange s)) in
  (JS.startsWith (JS.slice c lineContent) "def " = true ->
   JS.startsWith (JS.slice (c + 5) lineContent) "class " = false ->
   exists st',
     getReferences server readFile file uri st a = Return st'
     /\ requests st'
        = requests st
          ++ [ReferencesRequest uri {| line := l; character := c + 5 |}])
  /\ (JS.startsWith (JS.slice c lineContent) "class " = true ->
      exists st',
        getReferences server readFile file uri st a = Return st'
        /\ requests st'
           = requests st
             ++ [ReferencesRequest uri {| line := l; character := c + 7 |}]).
Proof.
  intros Hs [type Hkind] Hline Himp l c.
  unfold declarationLine in Hline.
  unfold getReferences, readObject. rewrite Hs. simpl.
  rewrite Hkind, Hline, Himp. fold c. split.
  - intros Hdef Hclass. rewrite Hdef, advance_character. fold c.
    rewrite Hclass. eexists. split; [reflexivity|].
    simpl. subst l c. now destruct s.
  - intros Hclass. rewrite (class_is_not_def _ Hclass). cbv iota. fold c.
    rewrite Hclass. eexists. split; [reflexivity|].
    simpl. subst l c. now destruct s.
Qed.

Lemma lookup_position_skips_keyword_run :
  exists st',
    getReferences Scenario.fooServer Scenario.fooText Scenario.file
      Scenario.document
      {| objects := [Scenario.foo]; arrays := []; symbols := [];
         allReferences := []; requests := [] |} 0 = Return st'
    /\ requests st'
       = [ReferencesRequest Scenario.document
            {| line := 0; character := 5 |}].
Proof.
  refine (proj1 (lookup_position_skips_keyword Scenario.fooServer
                   Scenario.fooText Scenario.file Scenario.document
                   {| objects := [Scenario.foo]; arrays := []; symbols := [];
                      allReferences := []; requests := [] |}
                   0 Scenario.foo "def foo():" _ _ _ _) _ _);
    try reflexivity.
  eexists; reflexivity.
Defined.

(** C9 as stated fails: for [def foo():] at column 0 the references are
    requested at column 5, not at column 4. *)
Lemma lookup_position_not_column_4 :
  exists st,
    collect Scenario.cwd Scenario.rootPath false Scenario.fooServer
      Scenario.fooText [Scenario.file] = Return st
    /\ requests st
       = [DocumentSymbolRequest Scenario.document;
          ReferencesRequest Scenario.document {| line := 0; character := 5 |}]
    /\ ~ In (ReferencesRequest Scenario.document
               {| line := 0; character := 4 |})
            (requests st).
Proof.
  eexists. split; [vm_compute; reflexivity|]. split; [reflexivity|].
  simpl. intros [H|[H|[]]]; discriminate.
Qed.

(** ** The loop over the files *)

Section CollectFacts.

Variable cwd : string.
Variable rootPath : string.

(** One turn of the directory loop. *)
Lemma addDirectories_step (popped : string) (remaining : list string)
    (st : State) :
  let dir := JS.join path.sep (rev remaining) in
  let relativeDirPath := path.relative cwd rootPath dir in
  let uri := url.pathToFileURL cwd dir in
  addDirectories cwd rootPath (popped :: remaining) st
  = if String.eqb popped "" then st
    else if outsideRoot relativeDirPath then st
    else addDirectories cwd rootPath remaining
           (if Map.has (symbols st) uri then st
            else
              setSymbols uri (length (arrays st))
                (snd (newArray [length (objects st)]
                   (snd (newObject
                      (SymbolInformation (path.basename dir) SkFile
                         {| uri := uri; range := zeroRange |}
                         (Some (path.basename (path.join dir ".."))))
                      st))))).
Proof.
  simpl. unfold outsideRoot.
  destruct (String.eqb popped ""); [reflexivity|].
  destruct (_ || _); [reflexivity|].
  now destruct (Map.has _ _).
Qed.

(** The directory loop only adds: objects, arrays and keys that were there
    stay as they are. *)
Lemma addDirectories_frame (l : list string) (st : State) :
  (exists extra,
     objects (addDirectories cwd rootPath l st) = objects st ++ extra)
  /\ (exists extra,
        arrays (addDirectories cwd rootPath l st) = arrays st ++ extra)
  /\ allReferences (addDirectories cwd rootPath l st) = allReferences st
  /\ requests (addDirectories cwd rootPath l st) = requests st
  /\ (forall u a, Map.get (symbols st) u = Some a ->
        Map.get (symbols (addDirectories cwd rootPath l st)) u = Some a).
Proof.
  revert st. induction l as [|popped remaining IH]; intros st.
  - simpl. repeat split; auto; exists []; now rewrite app_nil_r.
  - rewrite addDirectories_step. cbv zeta.
    destruct (String.eqb popped "").
    { repeat split; auto; exists []; now rewrite app_nil_r. }
    destruct (outsideRoot _).
    { repeat split; auto; exists []; now rewrite app_nil_r. }
    destruct (Map.has (symbols st) _) eqn:Hhas; [apply IH|].
    match goal with |- context [addDirectories _ _ _ ?s] => set (st1 := s) end.
    destruct (IH st1) as ((eo & Ho) & (ea & Ha) & Hr & Hq & Hs).
    repeat split.
    + eexists. rewrite Ho. subst st1. simpl. now rewrite <- app_assoc.
    + eexists. rewrite Ha. subst st1. simpl. now rewrite <- app_assoc.
    + now rewrite Hr.
    + now rewrite Hq.
    + intros u a Hu. apply Hs. subst st1. simpl.
      rewrite Map_get_set_ne; [assumption|].
      intros <-. unfold Map.has in Hhas. now rewrite Hu in Hhas.
Qed.

End CollectFacts.

Section Loop.

Variable server : LanguageServer.
Variable readFile : string -> string.
Variables file uri : string.

Local Abbreviation step := (getReferences server readFile file uri).

(** The loop over [docSymbols] touches neither the arrays nor [symbols],
    keeps the number of objects, and records answers only under addresses
    of objects. *)
Lemma getReferences_frame (st st' : State) (a : nat) :
  step st a = Return st' ->
  arrays st' = arrays st /\ symbols st' = symbols st
  /\ length (objects st') = length (objects st)
  /\ a < length (objects st)
  /\ (forall k, k <> a ->
        Map.get (allReferences st') k = Map.get (allReferences st) k
        /\ objects st' !! k = objects st !! k).
Proof.
  intros H. apply getReferences_Return in H as (s & Hs & H).
  apply lookup_lt_Some in Hs as Hlt.
  destruct H as [->|(lineContent & s' & _ & _ & _ & ->)]; [tauto|].
  simpl. rewrite length_insert. repeat split; auto.
  - now apply Map_get_set_ne.
  - now apply list_lookup_insert_ne.
Qed.

Lemma loop_frame (l : list nat) (st st' : State) :
  foldM step st l = Return st' ->
  arrays st' = arrays st /\ symbols st' = symbols st
  /\ length (objects st') = length (objects st)
  /\ Forall (fun a => a < length (objects st)) l
  /\ (forall k, ~ In k l ->
        Map.get (allReferences st') k = Map.get (allReferences st) k
        /\ objects st' !! k = objects st !! k).
Proof.
  revert st. induction l as [|a l IH]; simpl; intros st H.
  - inversion H. repeat split; auto.
  - apply bind_Return in H as (st1 & H1 & H2).
    apply getReferences_frame in H1 as (Ha & Hs & Hl & Hlt & Hk).
    apply IH in H2 as (Ha' & Hs' & Hl' & Hlt' & Hk').
    rewrite Hl in *. split; [congruence|]. split; [congruence|].
    split; [congruence|]. split; [now constructor|].
    intros k Hin. destruct (Hk k) as [? ?]; [intros ->; apply Hin; now left|].
    destruct (Hk' k) as [? ?]; [intros ?; apply Hin; now right|].
    split; congruence.
Qed.

(** Every request the loop sends is for a position on a line that does not
    match the import pattern. *)
Lemma loop_requests (l : list nat) (st st' : State) :
  foldM step st l = Return st' ->
  exists new,
    requests st' = requests st ++ new
    /\ Forall (fun r => exists p lineContent,
                 r = ReferencesRequest uri p
                 /\ JS.split newline (readFile file) !! line p
                    = Some lineContent
                 /\ JS.testImport lineContent = false) new.
Proof.
  revert st. induction l as [|a l IH]; simpl; intros st H.
  - inversion H. exists []. now rewrite app_nil_r.
  - apply bind_Return in H as (st1 & H1 & H2).
    apply IH in H2 as (new & Hnew & Hall).
    apply getReferences_Return in H1 as (s & Hs & H1).
    destruct H1 as [->|(lineContent & s' & Hline & Himp & Hsame & ->)];
      [eauto|].
    simpl in Hnew. rewrite <- app_assoc in Hnew. eexists. split; [exact Hnew|].
    simpl. constructor; [|assumption].
    exists (start (lookupRange s')), lineContent.
    repeat split; [|assumption]. rewrite Hsame. exact Hline.
Qed.

(** A symbol declared on an import line goes through the loop untouched,
    and nothing is recorded for it. *)
Lemma loop_skips (l : list nat) (st st' : State) (k : nat) (s : LSPSymbol)
    (lineContent : string) :
  objects st !! k = Some s ->
  declarationLine readFile file s = Some lineContent ->
  JS.testImport lineContent = true ->
  foldM step st l = Return st' ->
  objects st' !! k = Some s
  /\ Map.get (allReferences st') k = Map.get (allReferences st) k.
Proof.
  intros Hs Hline Himp. revert st Hs.
  induction l as [|a l IH]; simpl; intros st Hs H.
  - inversion H. subst. auto.
  - apply bind_Return in H as (st1 & H1 & H2).
    destruct (decide (a = k)) as [->|Hne].
    + rewrite (getReferences_import _ _ _ _ _ _ _ _ Hs Hline Himp) in H1.
      inversion H1; subst st1. eauto.
    + apply getReferences_frame in H1 as (_ & _ & _ & _ & Hk).
      destruct (Hk k) as [Hr Ho]; [congruence|].
      rewrite <- Hr. apply IH; [congruence | assumption].
Qed.

End Loop.

Section FileFacts.

Variable cwd : string.
Variable rootPath : string.
Variable noReferences : bool.
Variable server : LanguageServer.
Variable readFile : string -> string.

Local Abbreviation response file :=
  (default [] (documentSymbolResult server (url.pathToFileURL cwd file))).

Lemma getSymbols_Return (st st0 : State) (file : string)
    (received : list SymbolObject) (docSymbols : nat) :
  getSymbols cwd rootPath server st file = (received, docSymbols, st0) ->
  received = imap (fun i s => mkObject (length (objects st) + i) s)
               (response file)
  /\ docSymbols = length (arrays st)
  /\ (exists extra, objects st0 = objects st ++ response file ++ extra)
  /\ (exists extra, arrays st0 = arrays st ++ extra)
  /\ allReferences st0 = allReferences st
  /\ requests st0
     = requests st
       ++ [DocumentSymbolRequest (url.pathToFileURL cwd file)].
Proof.
  unfold getSymbols, newObjects, newArray. simpl.
  match goal with
  | |- context [addDirectories _ _ ?l ?s] =>
      destruct (addDirectories_frame cwd rootPath l s)
        as ((eo & Ho) & (ea & Ha) & Hr & Hq & _)
  end.
  intros [= <- <- <-]. rewrite Ho, Ha, Hr, Hq. simpl.
  repeat split; try reflexivity.
  - eexists. now rewrite <- app_assoc.
  - eexists. now rewrite <- !app_assoc.
Qed.

Lemma received_addresses (base : nat) (l : list LSPSymbol) :
  map addr (imap (fun i s => mkObject (base + i) s) l) = seq base (length l).
Proof.
  revert base. induction l as [|s l IH]; intros base; [reflexivity|].
  cbn [imap map length seq]. f_equal; [simpl; lia|].
  rewrite <- IH. f_equal. apply imap_ext. intros i x _. simpl. f_equal. lia.
Qed.

(** What [processFile] does, step by step. *)
Lemma processFile_Return (st st' : State) (file : string) :
  processFile cwd rootPath noReferences server readFile st file = Return st' ->
  exists received docSymbols st0 st1,
    getSymbols cwd rootPath server st file = (received, docSymbols, st0)
    /\ (if negb noReferences
        then foldM (getReferences server readFile file
                      (url.pathToFileURL cwd file))
               st0 (map addr received)
        else Return st0) = Return st1
    /\ st' =
       push docSymbols (length (objects st1))
         (snd (newObject
                 (SymbolInformation
                    (path.basename (path.relative cwd rootPath file)) SkFile
                    {| uri := url.pathToFileURL cwd file; range := zeroRange |}
                    (Some (path.basename
                             (path.join (path.relative cwd rootPath file)
                                ".."))))
                 st1)).
Proof.
  unfold processFile.
  destruct (getSymbols cwd rootPath server st file)
    as [[received docSymbols] st0].
  intros H. apply bind_Return in H as (st1 & H1 & H2).
  inversion H2. now exists received, docSymbols, st0, st1.
Qed.

Lemma processFile_keys (st st' : State) (file : string) :
  processFile cwd rootPath noReferences server readFile st file = Return st' ->
  length (objects st) + length (response file) <= length (objects st')
  /\ (forall k, k < length (objects st) ->
        Map.get (allReferences st') k = Map.get (allReferences st) k)
  /\ (keysBounded st -> keysBounded st').
Proof.
  intros H.
  apply processFile_Return in H
    as (received & docSymbols & st0 & st1 & Hg & Hl & Hst).
  apply getSymbols_Return in Hg as (-> & _ & (eo & Ho) & _ & Hr & _).
  rewrite received_addresses in Hl.
  assert (Hloop : length (objects st1) = length (objects st0)
    /\ forall k, ~ In k (seq (length (objects st)) (length (response file))) ->
         Map.get (allReferences st1) k = Map.get (allReferences st0) k).
  { destruct (negb noReferences).
    - apply loop_frame in Hl as (_ & _ & Hlen & _ & Hk). split; [assumption|].
      intros k Hin. now apply Hk.
    - inversion Hl. auto. }
  destruct Hloop as [Hlen Hk].
  assert (Hsize : length (objects st')
                  = length (objects st) + length (response file)
                    + length eo + 1).
  { subst st'. simpl. rewrite length_app, Hlen, Ho, !length_app. simpl. lia. }
  assert (Hsame : allReferences st' = allReferences st1) by now subst st'.
  rewrite Hsame, Hsize. unfold keysBounded. rewrite Hsame, Hsize.
  split; [lia|]. split.
  - intros k Hlt. rewrite Hk, Hr; [reflexivity|]. rewrite in_seq. lia.
  - intros Hb k Hge. rewrite Hk, Hr.
    + apply Hb. lia.
    + rewrite in_seq. lia.
Qed.

Lemma collect_from_keys (files : list string) (st st' : State) :
  foldM (processFile cwd rootPath noReferences server readFile) st files
  = Return st' ->
  length (objects st) <= length (objects st')
  /\ (forall k, k < length (objects st) ->
        Map.get (allReferences st') k = Map.get (allReferences st) k)
  /\ (keysBounded st -> keysBounded st').
Proof.
  revert st. induction files as [|file files IH]; simpl; intros st H.
  - inversion H. auto.
  - apply bind_Return in H as (st1 & H1 & H2).
    apply processFile_keys in H1 as (Hlen & Hold & Hb).
    apply IH in H2 as (Hlen' & Hold' & Hb').
    split; [lia|]. split; [|auto].
    intros k Hk. rewrite Hold' by lia. now apply Hold.
Qed.

Lemma foldM_app {A B} (f : A -> B -> result A) (l1 l2 : list B) (a : A) :
  foldM f a (l1 ++ l2) = bind (foldM f a l1) (fun a' => foldM f a' l2).
Proof.
  revert a. induction l1 as [|b l1 IH]; intros a; simpl; [reflexivity|].
  destruct (f a b); simpl; auto.
Qed.

(** Nothing is recorded for a symbol of [file] that is declared on an
    import line. *)
Lemma processFile_skips (st st' : State) (file : string) (i : nat)
    (s : LSPSymbol) (lineContent : string) :
  processFile cwd rootPath noReferences server readFile st file = Return st' ->
  response file !! i = Some s ->
  declarationLine readFile file s = Some lineContent ->
  JS.testImport lineContent = true ->
  Map.get (allReferences st') (length (objects st) + i)
  = Map.get (allReferences st) (length (objects st) + i).
Proof.
  intros H Hi Hline Himp.
  apply processFile_Return in H as (received & docSymbols & st0 & st1 & Hg & Hl & ->).
  apply getSymbols_Return in Hg as (-> & _ & (eo & Ho) & _ & Hr & _).
  simpl. rewrite <- Hr. destruct (negb noReferences).
  - eapply loop_skips in Hl as [_ Hk]; eauto.
    rewrite Ho, lookup_app_r by lia.
    replace (length (objects st) + i - length (objects st)) with i by lia.
    now rewrite lookup_app_l by (eapply lookup_lt_Some; eauto).
  - now inversion Hl.
Qed.

End FileFacts.

(** ** From the recorded answers to the edges *)

Lemma resolveReferences_keys (st : State) (m : Map.t nat (list SymbolObject))
    (k : nat) :
  resolveReferences st = Return m ->
  Map.get (allReferences st) k = None ->
  Map.get m k = None.
Proof.
  unfold resolveReferences. intros H Hk.
  apply Map_get_None_keys in Hk. unfold Map.keys in Hk.
  assert (Hstart : Map.get ([] : Map.t nat (list SymbolObject)) k = None)
    by reflexivity.
  revert H Hstart Hk.
  generalize ([] : Map.t nat (list SymbolObject)).
  induction (allReferences st) as [|[d l] rest IH]; simpl; intros acc H Hacc Hk.
  - injection H as <-. assumption.
  - apply bind_Return in H as (acc1 & H1 & H2).
    apply bind_Return in H1 as (r & _ & H1). inversion H1; subst acc1.
    eapply IH; [exact H2 | | tauto].
    rewrite Map_get_set_ne; [assumption | tauto].
Qed.

Lemma references_of_absent (st : State) (m : Map.t nat (list SymbolObject))
    (references : Map.t SymbolObject (list SymbolObject)) (symbol : SymbolObject) :
  mapM (fun '(k, l) => try! o := readObject st k in Return (o, l)) m
  = Return references ->
  Map.get m (addr symbol) = None ->
  referencesOf references symbol = None.
Proof.
  unfold referencesOf. revert references.
  induction m as [|[k l] m IH]; simpl; intros references H Hk.
  - now inversion H.
  - apply bind_Return in H as ([o l'] & H1 & H2).
    apply bind_Return in H2 as (rest & H2 & H3). inversion H3; subst references.
    apply bind_Return in H1 as (o' & Ho & H1). inversion H1; subst o' l'.
    unfold readObject in Ho. destruct (objects st !! k); [|discriminate].
    inversion Ho; subst o. simpl.
    destruct (decide (k = addr symbol)) as [->|Hne]; [discriminate|].
    rewrite bool_decide_eq_false_2 by assumption. now apply IH.
Qed.

Lemma addSymbol_unreferenced (objectId : HashInput -> string) (cwd : string)
    symbolsByFile references rootPath uri symbols b symbol b' :
  referencesOf references symbol = None ->
  addSymbol objectId cwd symbolsByFile references rootPath uri symbols b symbol
  = Return b' ->
  edgeNodeIds b' = edgeNodeIds b
  /\ filter (fun e => isDependencyEdge e = true) (graphElement b')
     = filter (fun e => isDependencyEdge e = true) (graphElement b).
Proof.
  intros Hnone H. apply addSymbol_Return in H.
  destruct (getGXLSymbolKind (val symbol)); [|now subst].
  destruct H as (appended & filePath & Happ & _ & _ & ->).
  rewrite Hnone. simpl. split; [reflexivity|].
  rewrite !filter_app, (filter_enclosing _ Happ).
  rewrite filter_cons_False by discriminate.
  now rewrite filter_nil, !app_nil_r.
Qed.

(** C10. Let the [i]-th symbol that the server reports for [file] be
    declared on a line that matches the import pattern. Then processing
    [file] sends no references request for a position on that line, no
    answer is ever recorded under the symbol (its address is the number of
    objects before [file] plus [i]), the resolver has no entry for it, and
    the graph builder adds no [Source_Dependency] edge when it comes to
    the symbol. *)
Theorem import_definition_skipped
    (objectId : HashInput -> string) (cwd rootPath : string)
    (noReferences : bool) (server : LanguageServer)
    (readFile : string -> string)
    (before : list string) (file : string) (after : list string)
    (st1 st : State) (i : nat) (s : LSPSymbol) (lineContent : string) :
  collect cwd rootPath noReferences server readFile before = Return st1 ->
  collect cwd rootPath noReferences server readFile (before ++ file :: after)
  = Return st ->
  default [] (documentSymbolResult server (url.pathToFileURL cwd file)) !! i
  = Some s ->
  declarationLine readFile file s = Some lineContent ->
  JS.testImport lineContent = true ->
  let definition := length (objects st1) + i in
  (exists st2 new,
     processFile cwd rootPath noReferences server readFile st1 file
     = Return st2
     /\ requests st2 = requests st1 ++ new
     /\ forall u p, In (ReferencesRequest u p) new ->
                    line p <> line (start (lookupRange s)))
  /\ Map.get (allReferences st) definition = None
  /\ forall m references,
       resolveReferences st = Return m ->
       mapM (fun '(k, l) => try! o := readObject st k in Return (o, l)) m
       = Return references ->
       Map.get m definition = None
       /\ forall value symbolsByFile uri symbols b b',
            addSymbol objectId cwd symbolsByFile references rootPath uri
              symbols b (mkObject definition value) = Return b' ->
            edgeNodeIds b' = edgeNodeIds b
            /\ filter (fun e => isDependencyEdge e = true) (graphElement b')
               = filter (fun e => isDependencyEdge e = true) (graphElement b).
Proof.
  intros Hbefore Hall Hi Hline Himp. cbv zeta.
  unfold collect in *. rewrite foldM_app, Hbefore in Hall. simpl in Hall.
  apply bind_Return in Hall as (st2 & Hfile & Hafter).
  assert (Hbound : keysBounded st1).
  { eapply collect_from_keys; [exact Hbefore|]. intros k _. reflexivity. }
  assert (Hnone : Map.get (allReferences st) (length (objects st1) + i) = None).
  { apply collect_from_keys in Hafter as (_ & Hold & _).
    pose proof (processFile_keys _ _ _ _ _ _ _ _ Hfile) as (Hlen & _ & _).
    rewrite Hold.
    - rewrite (processFile_skips _ _ _ _ _ _ _ _ _ _ _ Hfile Hi Hline Himp).
      apply Hbound. lia.
    - apply lookup_lt_Some in Hi. lia. }
  split; [|split; [exact Hnone|]].
  - exists st2. pose proof Hfile as Hf.
    apply processFile_Return in Hf
      as (received & docSymbols & st0 & st3 & Hg & Hl & ->).
    apply getSymbols_Return in Hg as (_ & _ & _ & _ & _ & Hq).
    assert (Hnew : exists new,
      requests st3 = requests st0 ++ new
      /\ Forall (fun r => exists p lineContent,
                   r = ReferencesRequest (url.pathToFileURL cwd file) p
                   /\ JS.split newline (readFile file) !! line p
                      = Some lineContent
                   /\ JS.testImport lineContent = false) new).
    { destruct (negb noReferences).
      - eapply loop_requests; eauto.
      - inversion Hl. exists []. now rewrite app_nil_r. }
    destruct Hnew as (new & Hnew & Hforall).
    eexists. split; [exact Hfile|]. split.
    + simpl. rewrite Hnew, Hq, <- app_assoc. reflexivity.
    + intros u p [Hin|Hin]; [discriminate|].
      rewrite Forall_forall in Hforall.
      apply list_elem_of_In in Hin.
      destruct (Hforall _ Hin) as (p' & lc & [= -> ->] & Hlc & Hno).
      intros Heq. unfold declarationLine in Hline.
      rewrite <- Heq, Hlc in Hline. congruence.
  - intros m references Hm Hrefs.
    pose proof (resolveReferences_keys _ _ _ Hm Hnone) as Hmk.
    split; [exact Hmk|].
    intros value symbolsByFile uri symbols b b'.
    apply addSymbol_unreferenced.
    eapply references_of_absent; eauto.
Qed.

Lemma import_definition_skipped_run :
  exists st,
    collect Scenario.cwd Scenario.rootPath false Scenario.importServer
      Scenario.importText [Scenario.file] = Return st
    /\ Map.get (allReferences st) 0 = None.
Proof.
  eexists. split; [vm_compute; reflexivity|].
  refine (proj1 (proj2 (import_definition_skipped Digest.objectId
            Scenario.cwd Scenario.rootPath false Scenario.importServer
            Scenario.importText [] Scenario.file [] initialState _ 0
            Scenario.os "import os" _ _ _ _ _))); reflexivity.
Defined.

(** ** Node identifiers *)

(** C7 as stated fails, twice. Two symbols with the same name, kind, range
    and document, one contained in [b] and one in [x], get different node
    identifiers from a digest that tells different values apart. And two
    objects with the same value, stored in one list, give two nodes in the
    graph that [asGXL] returns, both with the same identifier. *)
Lemma same_identity_not_one_node :
  ~ (forall (objectId : HashInput -> string) (s1 s2 : LSPSymbol),
       sameIdentity s1 s2 -> nodeID objectId s1 = nodeID objectId s2)
  /\ exists d n,
       asGXL Digest.objectId Scenario.cwd Scenario.twice []
         Scenario.rootPath = Return d
       /\ elements d = [n; n] /\ isNode n = true.
Proof.
  split.
  - intros H.
    specialize (H Digest.objectId Scenario.dir1 Scenario.dir2).
    assert (Hsame : sameIdentity Scenario.dir1 Scenario.dir2)
      by (repeat split; reflexivity).
    apply H in Hsame. vm_compute in Hsame. discriminate.
  - eexists _, _. split; [vm_compute; reflexivity|].
    split; reflexivity.
Qed.

(** ** Enclosing edges of symbols *)

Lemma findM_pure {A} (p : A -> result bool) (q : A -> bool) (l : list A) :
  (forall x, p x = Return (q x)) -> findM p l = Return (find q l).
Proof.
  intros Hp. induction l as [|x l IH]; simpl; [reflexivity|].
  rewrite Hp. simpl. now destruct (q x).
Qed.

(** C5. The edge to the container is created and thrown away. Let a
    stored [SymbolInformation] produce a node and not be of kind [File].
    The builder looks up its container, the first symbol of the document
    whose name is its [containerName] or else the first symbol of kind
    [File] named by the path of the document below the root, and creates
    the [Enclosing] edge to it; but what it appends to the graph for the
    symbol is the node and the dependency edges only, whereas the branch
    for a symbol of kind [File] appends the edge it creates. *)
Theorem container_edge_created_not_appended
    (objectId : HashInput -> string) (cwd rootPath uri filePath : string)
    (symbolsByFile : Map.t string (list SymbolObject))
    (references : Map.t SymbolObject (list SymbolObject))
    (symbols : list SymbolObject) (b : Builder)
    (symbol container : SymbolObject) :
  is_Some (getGXLSymbolKind (val symbol)) ->
  kind (val symbol) <> SkFile ->
  DocumentSymbol_is (val symbol) = false ->
  url.fileURLToPath uri = Return filePath ->
  (find (namedAsContainerOf symbol) symbols = Some container
   \/ (find (namedAsContainerOf symbol) symbols = None
       /\ find (fileNamed (path.relative cwd rootPath filePath)) symbols
          = Some container)) ->
  containerEdge objectId cwd rootPath uri symbols symbol
  = Return (Some (edge (nodeID objectId (val symbol))
                    (objectId (HashSymbol (val container))) Enclosing))
  /\ exists b' type attributes dependencies,
       addSymbol objectId cwd symbolsByFile references rootPath uri symbols b
         symbol = Return b'
       /\ graphElement b'
          = graphElement b
            ++ node (nodeID objectId (val symbol)) type attributes
               :: dependencies
       /\ forallb isDependencyEdge dependencies = true.
Proof.
  intros [type Hkind] Hfile Hinfo Hpath Hfound. split.
  - unfold containerEdge, findContainer. rewrite Hinfo. simpl.
    fold (namedAsContainerOf symbol).
    destruct Hfound as [->|[-> Hfallback]]; [reflexivity|].
    erewrite (findM_pure _
                (fileNamed (path.relative cwd rootPath filePath))).
    + rewrite Hfallback. reflexivity.
    + intros x. unfold fileNamed. rewrite Hpath. simpl.
      now destruct (bool_decide _).
  - destruct (addSymbol_total objectId cwd symbolsByFile references rootPath
                uri symbols b symbol filePath Hpath) as [b' Hb'].
    exists b'. pose proof Hb' as H. apply addSymbol_Return in H.
    rewrite Hkind in H.
    destruct H as (appended & filePath' & _ & Hnone & _ & Hb).
    rewrite (Hnone Hfile), fold_addReference in Hb. simpl in Hb.
    eexists _, _, _. split; [exact Hb'|]. rewrite Hb. simpl. split.
    + rewrite <- app_assoc. reflexivity.
    + apply forallb_forall. intros e He.
      apply in_map_iff in He as (r & <- & _). reflexivity.
Qed.

Lemma container_edge_created_not_appended_run :
  containerEdge Digest.objectId Scenario.cwd Scenario.rootPath
    Scenario.document
    [mkObject 0 Scenario.classC; mkObject 1 Scenario.methodM]
    (mkObject 1 Scenario.methodM)
  = Return (Some (edge (nodeID Digest.objectId Scenario.methodM)
                    (Digest.objectId (HashSymbol Scenario.classC))
                    Enclosing))
  /\ exists d,
       asGXL Digest.objectId Scenario.cwd Scenario.stored []
         Scenario.rootPath = Return d
       /\ length (elements d) = 2
       /\ forall from to, ~ In (edge from to Enclosing) (elements d).
Proof.
  split.
  - exact (proj1 (container_edge_created_not_appended Digest.objectId
                    Scenario.cwd Scenario.rootPath Scenario.document
                    Scenario.file Scenario.stored []
                    [mkObject 0 Scenario.classC; mkObject 1 Scenario.methodM]
                    emptyBuilder (mkObject 1 Scenario.methodM)
                    (mkObject 0 Scenario.classC)
                    (ex_intro _ "Method" eq_refl)
                    ltac:(discriminate) eq_refl eq_refl
                    (or_introl eq_refl))).
  - eexists. split; [vm_compute; reflexivity|].
    split; [reflexivity|].
    intros from to. simpl. intuition discriminate.
Defined.

(** ** Paths *)

Lemma split_noSeparator (x : string) :
  noSeparator x = true -> JS.split path.sepChar x = [x].
Proof.
  unfold noSeparator. induction x as [|c x IH]; simpl; [reflexivity|].
  intros H. apply andb_prop in H as [Hc Hx].
  apply negb_true_iff in Hc. rewrite Hc, (IH Hx). reflexivity.
Qed.

Lemma split_segment (x rest : string) :
  noSeparator x = true ->
  JS.split path.sepChar (x +:+ path.sep +:+ rest)
  = x :: JS.split path.sepChar rest.
Proof.
  unfold noSeparator. induction x as [|c x IH]; simpl; [reflexivity|].
  intros H. apply andb_prop in H as [Hc Hx].
  apply negb_true_iff in Hc. rewrite Hc, (IH Hx). reflexivity.
Qed.

Lemma cleanSegment_noSeparator (s : string) :
  cleanSegment s = true -> noSeparator s = true.
Proof. unfold cleanSegment. intros H. now apply andb_prop in H as [_ H]. Qed.

Lemma split_join (l : list string) :
  l <> [] -> forallb cleanSegment l = true ->
  JS.split path.sepChar (JS.join path.sep l) = l.
Proof.
  induction l as [|x l IH]; [contradiction|]. intros _ H.
  simpl in H. apply andb_prop in H as [Hx Hl].
  apply cleanSegment_noSeparator in Hx.
  destruct l as [|y l].
  - simpl. now apply split_noSeparator.
  - change (JS.join path.sep (x :: y :: l))
      with (x +:+ path.sep +:+ JS.join path.sep (y :: l)).
    rewrite split_segment by assumption. f_equal. now apply IH.
Qed.

Lemma split_absolute (l : list string) :
  l <> [] -> forallb cleanSegment l = true ->
  JS.split path.sepChar (absolute l) = "" :: l.
Proof.
  intros Hne Hl. unfold absolute.
  change (path.sep +:+ JS.join path.sep l)
    with ("" +:+ path.sep +:+ JS.join path.sep l).
  rewrite split_segment by reflexivity. f_equal. now apply split_join.
Qed.

Lemma join_absolute (l : list string) :
  l <> [] -> JS.join path.sep ("" :: l) = absolute l.
Proof. destruct l; [contradiction | reflexivity]. Qed.

Lemma normalizeSegments_clean (a : bool) (stack l : list string) :
  forallb cleanSegment l = true ->
  path.normalizeSegments a stack l = rev stack ++ l.
Proof.
  revert stack. induction l as [|s l IH]; intros stack H; simpl.
  - now rewrite app_nil_r.
  - simpl in H. apply andb_prop in H as [Hs Hl].
    unfold cleanSegment in Hs.
    apply andb_prop in Hs as [Hs _]. apply andb_prop in Hs as [Hs H2].
    apply andb_prop in Hs as [H0 H1].
    apply negb_true_iff in H0, H1, H2. rewrite H0, H1, H2. simpl.
    rewrite IH by assumption. simpl. now rewrite <- app_assoc.
Qed.

Lemma isAbsolute_absolute (l : list string) :
  path.isAbsolute (absolute l) = true.
Proof.
  unfold path.isAbsolute, absolute.
  change (path.sep +:+ JS.join path.sep l)
    with (String "/" (JS.join path.sep l)).
  cbn [String.prefix].
  destruct (ascii_dec "/"%char "/"%char); [|congruence].
  now destruct (JS.join path.sep l).
Qed.

Lemma resolveSegments_absolute (cwd : string) (l : list string) :
  l <> [] -> forallb cleanSegment l = true ->
  path.resolveSegments cwd (absolute l) = l.
Proof.
  intros Hne Hl. unfold path.resolveSegments.
  rewrite isAbsolute_absolute.
  rewrite split_absolute by assumption. simpl.
  now rewrite normalizeSegments_clean.
Qed.

Lemma resolve_absolute (cwd : string) (l : list string) :
  l <> [] -> forallb cleanSegment l = true ->
  path.resolve cwd (absolute l) = absolute l.
Proof.
  intros Hne Hl. unfold path.resolve.
  now rewrite resolveSegments_absolute.
Qed.

Lemma stripCommon_prefix (p x : list string) :
  path.stripCommon p (p ++ x) = ([], x).
Proof.
  induction p as [|s p IH]; simpl; [now destruct x|].
  now rewrite String.eqb_refl.
Qed.

Lemma stripCommon_parent (p : list string) (s : string) :
  path.stripCommon (p ++ [s]) p = ([s], []).
Proof.
  induction p as [|t p IH]; simpl; [reflexivity|].
  now rewrite String.eqb_refl.
Qed.

Lemma append_empty (s : string) : s +:+ "" = s.
Proof.
  induction s as [|c s IH]; [reflexivity|].
  change (String c (s +:+ "") = String c s). now rewrite IH.
Qed.

(** A path that starts with a clean segment does not lead out of the
    root. *)
Lemma clean_not_outside (s t : string) :
  cleanSegment s = true -> outsideRoot (s +:+ t) = false.
Proof.
  unfold cleanSegment, noSeparator, outsideRoot, JS.startsWith.
  change (".." +:+ path.sep) with "../".
  intros H.
  apply andb_prop in H as [H Hsep]. apply andb_prop in H as [H Hdd].
  apply andb_prop in H as [Hempty Hd].
  apply negb_true_iff in Hempty, Hd, Hdd.
  apply String.eqb_neq in Hempty, Hd, Hdd.
  destruct s as [|c1 s1]; [contradiction|].
  change (String c1 s1 +:+ t) with (String c1 (s1 +:+ t)).
  destruct (ascii_dec "."%char c1) as [<-|Hc1].
  2:{ apply orb_false_intro.
      - apply String.eqb_neq. intros [= ? _]. congruence.
      - cbn [String.prefix]. now destruct (ascii_dec "."%char c1). }
  destruct s1 as [|c2 s2]; [contradiction|].
  change (String c2 s2 +:+ t) with (String c2 (s2 +:+ t)).
  destruct (ascii_dec "."%char c2) as [<-|Hc2].
  2:{ apply orb_false_intro.
      - apply String.eqb_neq. intros [= ? _]. congruence.
      - cbn [String.prefix].
        destruct (ascii_dec "."%char "."%char); [|congruence].
        now destruct (ascii_dec "."%char c2). }
  destruct s2 as [|c3 s3]; [contradiction|].
  change (String c3 s3 +:+ t) with (String c3 (s3 +:+ t)).
  apply orb_false_intro.
  - apply String.eqb_neq. discriminate.
  - cbn [String.prefix].
    destruct (ascii_dec "."%char "."%char); [|congruence].
    destruct (ascii_dec "/"%char c3) as [<-|]; [|reflexivity].
    simpl in Hsep. discriminate.
Qed.

Lemma outsideRoot_join (l : list string) :
  forallb cleanSegment l = true -> outsideRoot (JS.join path.sep l) = false.
Proof.
  destruct l as [|s l]; [reflexivity|]. simpl forallb.
  intros H. apply andb_prop in H as [Hs _].
  destruct l as [|s' l].
  - simpl. pose proof (clean_not_outside s "" Hs) as H.
    now rewrite append_empty in H.
  - change (JS.join path.sep (s :: s' :: l))
      with (s +:+ (path.sep +:+ JS.join path.sep (s' :: l))).
    now apply clean_not_outside.
Qed.

Lemma forallb_app_clean (l1 l2 : list string) :
  forallb cleanSegment l1 = true -> forallb cleanSegment l2 = true ->
  forallb cleanSegment (l1 ++ l2) = true.
Proof. intros H1 H2. rewrite forallb_app, H1, H2. reflexivity. Qed.

Lemma relative_below (cwd : string) (root below : list string) :
  root <> [] ->
  forallb cleanSegment root = true -> forallb cleanSegment below = true ->
  path.relative cwd (absolute root) (absolute (root ++ below))
  = JS.join path.sep below.
Proof.
  intros Hne Hroot Hbelow. unfold path.relative.
  rewrite !resolveSegments_absolute;
    try assumption; try (now apply forallb_app_clean).
  - now rewrite stripCommon_prefix.
  - destruct root; [contradiction | discriminate].
Qed.

Lemma relative_parent (cwd : string) (parent : list string) (s : string) :
  parent <> [] ->
  forallb cleanSegment (parent ++ [s]) = true ->
  path.relative cwd (absolute (parent ++ [s])) (absolute parent) = "..".
Proof.
  intros Hne Hclean. unfold path.relative.
  assert (Hparent : forallb cleanSegment parent = true).
  { rewrite forallb_app in Hclean. now apply andb_prop in Hclean as [? _]. }
  rewrite !resolveSegments_absolute; try assumption.
  - now rewrite stripCommon_parent.
  - now destruct parent.
Qed.

(** ** Directories *)

Lemma pathToFileURL_absolute (cwd : string) (l : list string) :
  l <> [] -> forallb cleanSegment l = true ->
  url.pathToFileURL cwd (absolute l) = "file://" +:+ absolute l.
Proof.
  intros Hne Hl. unfold url.pathToFileURL. now rewrite resolve_absolute.
Qed.

(** A directory that gets its entry from the directory loop gets a new
    array with one new symbol, of kind [File], for the directory. *)
Lemma addDirectories_created (cwd rootPath : string) (l : list string)
    (st : State) (u : string) (a : nat) :
  Map.get (symbols (addDirectories cwd rootPath l st)) u = Some a ->
  Map.get (symbols st) u = None ->
  exists o dir,
    u = url.pathToFileURL cwd dir
    /\ length (arrays st) <= a /\ length (objects st) <= o
    /\ arrays (addDirectories cwd rootPath l st) !! a = Some [o]
    /\ objects (addDirectories cwd rootPath l st) !! o
       = Some (directorySymbol cwd dir).
Proof.
  revert st. induction l as [|popped remaining IH]; intros st Hafter Hbefore.
  - simpl in Hafter. congruence.
  - rewrite addDirectories_step in *. cbv zeta in *.
    destruct (String.eqb popped ""); [congruence|].
    destruct (outsideRoot _); [congruence|].
    destruct (Map.has (symbols st) _) eqn:Hhas; [now apply IH|].
    set (dir := JS.join path.sep (rev remaining)) in *.
    match type of Hafter with
    | context [addDirectories _ _ _ ?s] => set (st1 := s) in *
    end.
    destruct (addDirectories_frame cwd rootPath remaining st1)
      as ((eo & Ho) & (ea & Ha) & _ & _ & Hkeep).
    destruct (decide (url.pathToFileURL cwd dir = u)) as [Hu|Hne].
    + assert (H1 : Map.get (symbols st1) u = Some (length (arrays st))).
      { subst st1. simpl. rewrite Hu. apply Map_get_set_eq. }
      apply Hkeep in H1. rewrite H1 in Hafter. injection Hafter as <-.
      exists (length (objects st)), dir.
      split; [now symmetry|]. split; [lia|]. split; [lia|].
      rewrite Ho, Ha. subst st1. simpl. split.
      * rewrite <- app_assoc. now apply list_lookup_middle.
      * rewrite <- app_assoc. now apply list_lookup_middle.
    + destruct (IH st1 Hafter) as (o & d & Hd & Hla & Hlo & Harr & Hobj).
      { subst st1. simpl. now rewrite Map_get_set_ne. }
      exists o, d. subst st1. simpl in Hla, Hlo.
      rewrite length_app in Hla, Hlo. simpl in Hla, Hlo.
      repeat split; try assumption; lia.
Qed.

(** At the parent of the root the directory loop stops. *)
Lemma addDirectories_above (cwd : string) (root : list string) (st : State) :
  1 < length root -> forallb cleanSegment root = true ->
  addDirectories cwd (absolute root) (rev root ++ [""]) st = st.
Proof.
  intros Hlen Hclean.
  destruct (exists_last (l := root)) as (parent & s & ->).
  { intros ->. simpl in Hlen. lia. }
  assert (Hparent : parent <> []).
  { intros ->. simpl in Hlen. lia. }
  rewrite rev_app_distr. simpl rev. cbn [app].
  rewrite addDirectories_step. cbv zeta.
  rewrite rev_app_distr, rev_involutive. simpl rev. cbn [app].
  rewrite join_absolute by assumption.
  rewrite relative_parent by assumption.
  destruct (String.eqb s ""); reflexivity.
Qed.

Lemma addDirectories_below (cwd : string) (root reversed : list string)
    (st : State) :
  1 < length root -> forallb cleanSegment root = true ->
  forallb cleanSegment reversed = true ->
  forall u,
    Map.has
      (symbols
         (addDirectories cwd (absolute root) (reversed ++ rev root ++ [""])
            st)) u = true
    <-> Map.has (symbols st) u = true
        \/ exists j,
             j < length reversed
             /\ u = "file://" +:+ absolute (root ++ rev (drop (S j) reversed)).
Proof.
  intros Hlen Hroot. revert st.
  assert (Hne : root <> []) by (intros ->; simpl in Hlen; lia).
  induction reversed as [|popped remaining IH]; intros st Hclean u.
  - simpl app. rewrite addDirectories_above by assumption.
    split; [auto|]. intros [H|(j & Hj & _)]; [assumption|]. simpl in Hj. lia.
  - simpl in Hclean. apply andb_prop in Hclean as [Hpopped Hremaining].
    assert (Hrev : forallb cleanSegment (rev remaining) = true).
    { rewrite forallb_forall in *. intros x Hx. apply Hremaining.
      now apply in_rev. }
    cbn [app]. rewrite addDirectories_step. cbv zeta.
    replace (rev (remaining ++ rev root ++ [""]))
      with ("" :: root ++ rev remaining)
      by (now rewrite !rev_app_distr, rev_involutive).
    assert (Hdir : root ++ rev remaining <> []).
    { destruct root; [contradiction | discriminate]. }
    rewrite join_absolute by assumption.
    rewrite relative_below by assumption.
    rewrite outsideRoot_join by assumption.
    rewrite pathToFileURL_absolute
      by (try assumption; now apply forallb_app_clean).
    assert (Hp : String.eqb popped "" = false).
    { unfold cleanSegment in Hpopped. destruct (String.eqb popped "");
        [discriminate | reflexivity]. }
    rewrite Hp. rewrite IH by assumption.
    set (uri := "file://" +:+ absolute (root ++ rev remaining)).
    assert (Hstored :
      Map.has
        (symbols
           (if Map.has (symbols st) uri then st
            else
              setSymbols uri (length (arrays st))
                (snd (newArray [length (objects st)]
                   (snd (newObject
                      (SymbolInformation
                         (path.basename (absolute (root ++ rev remaining)))
                         SkFile {| uri := uri; range := zeroRange |}
                         (Some (path.basename
                                  (path.join
                                     (absolute (root ++ rev remaining))
                                     ".."))))
                      st)))))) u = true
      <-> Map.has (symbols st) u = true \/ u = uri).
    { destruct (Map.has (symbols st) uri) eqn:Hhas.
      - split; [auto|]. intros [H| ->]; assumption.
      - simpl. rewrite Map_has_set. split; intros [H|H]; auto. }
    rewrite Hstored. split.
    + intros [[H|H]|(j & Hj & H)]; [auto| |].
      * right. exists 0. split; [simpl; lia | exact H].
      * right. exists (S j). split; [simpl; lia | exact H].
    + intros [H|(j & Hj & H)]; [auto|].
      destruct j as [|j].
      * left. right. exact H.
      * right. exists j. split; [simpl in Hj; lia | exact H].
Qed.

(** C6, as the program has it. For a root at least two directories deep and
    a file below it, the directories that have a symbol after the
    directory loop are those that had one before, the root itself and the
    directories between the root and the file: the loop stops at the
    parent of the root. Each directory that gets its symbol from the loop
    gets a new array with one new symbol of kind [File]. *)
Theorem directory_symbols_from_root
    (cwd : string) (root below : list string) (st : State) :
  1 < length root ->
  below <> [] ->
  forallb cleanSegment root = true ->
  forallb cleanSegment below = true ->
  let st' :=
    addDirectories cwd (absolute root)
      (rev (JS.split path.sepChar (absolute (root ++ below)))) st in
  (forall u,
     Map.has (symbols st') u = true
     <-> Map.has (symbols st) u = true
         \/ exists k,
              k < length below
              /\ u = "file://" +:+ absolute (root ++ take k below))
  /\ (forall u a,
        Map.get (symbols st') u = Some a ->
        Map.get (symbols st) u = None ->
        exists o dir,
          u = url.pathToFileURL cwd dir
          /\ arrays st' !! a = Some [o]
          /\ objects st' !! o = Some (directorySymbol cwd dir)).
Proof.
  intros Hlen Hne Hroot Hbelow st'. split.
  - intros u. subst st'.
    rewrite split_absolute;
      [ | destruct root; [simpl in Hlen; lia | discriminate]
        | now apply forallb_app_clean ].
    replace (rev ("" :: root ++ below)) with (rev below ++ rev root ++ [""])
      by (simpl; now rewrite rev_app_distr, <- app_assoc).
    rewrite addDirectories_below; try assumption.
    2:{ rewrite forallb_forall in *. intros x Hx. apply Hbelow.
        now apply in_rev. }
    rewrite length_rev.
    split; (intros [H|(j & Hj & ->)]; [now left|right]).
    + exists (length below - S j). split; [lia|].
      now rewrite skipn_rev, rev_involutive.
    + exists (length below - S j). split; [lia|].
      rewrite skipn_rev, rev_involutive.
      now replace (length below - S (length below - S j)) with j by lia.
  - intros u a Hafter Hbefore.
    destruct (addDirectories_created _ _ _ _ _ _ Hafter Hbefore)
      as (o & dir & Hu & _ & _ & Harr & Hobj).
    now exists o, dir.
Qed.

Lemma directory_symbols_from_root_run :
  Map.has
    (symbols
       (addDirectories Scenario.cwd "/a/b"
          (rev (JS.split path.sepChar "/a/b/c/d.py")) initialState))
    "file:///a/b" = true.
Proof.
  refine (proj2 (proj1 (directory_symbols_from_root Scenario.cwd ["a"; "b"]
                          ["c"; "d.py"] initialState _ _ _ _) _) _);
    try reflexivity.
  - simpl. lia.
  - discriminate.
  - right. exists 0. split; [simpl; lia | reflexivity].
Defined.

(** C6 as stated fails: with root [/a/b] and file [/a/b/c/d.py], the root
    [/a/b] itself gets a directory symbol. *)
Lemma root_gets_directory_symbol :
  exists st array,
    collect Scenario.cwd Scenario.rootPath false Scenario.silent
      (Scenario.text []) [Scenario.file] = Return st
    /\ Map.get (symbols st) "file:///a/b" = Some array
    /\ readArray st array
       = Return [mkObject 1
                   (SymbolInformation "b" SkFile
                      {| uri := "file:///a/b"; range := zeroRange |}
                      (Some "a"))]
    /\ Map.keys (symbols st)
       = [Scenario.document; "file:///a/b/c"; "file:///a/b"].
Proof.
  eexists _, _. split; [vm_compute; reflexivity|].
  repeat split; vm_compute; reflexivity.
Qed.

(** * Further properties of the graph builder *)

Lemma foldM_collects {A B C} (g : A -> list C) (h : B -> list C)
    (f : A -> B -> result A) :
  (forall a b a', f a b = Return a' -> g a' = g a ++ h b) ->
  forall l a a', foldM f a l = Return a' -> g a' = g a ++ flat_map h l.
Proof.
  intros Hstep l. induction l as [|b l IH]; simpl; intros a a' H.
  - injection H as <-. now rewrite app_nil_r.
  - apply bind_Return in H as (a1 & H1 & H2).
    rewrite (IH _ _ H2), (Hstep _ _ _ H1). now rewrite app_assoc.
Qed.

Lemma foldM_Throw {A B} (f : A -> B -> result A) (l : list B) (a : A)
    (e : Error) :
  foldM f a l = Throw e -> exists a' b, In b l /\ f a' b = Throw e.
Proof.
  revert a. induction l as [|b l IH]; simpl; intros a H; [discriminate|].
  destruct (f a b) as [a1|e1] eqn:Hf; simpl in H.
  - destruct (IH _ H) as (a' & b' & Hin & Hb). eauto.
  - injection H as ->. eauto.
Qed.

Lemma foldM_invariant_in {A B} (P : A -> Prop) (f : A -> B -> result A)
    (l : list B) :
  (forall a b a', In b l -> P a -> f a b = Return a' -> P a') ->
  forall a a', P a -> foldM f a l = Return a' -> P a'.
Proof.
  induction l as [|b l IH]; simpl; intros Hstep a a' Ha Hr.
  - congruence.
  - apply bind_Return in Hr as (a1 & H1 & H2).
    eapply IH; [ | | exact H2]; eauto.
Qed.

Lemma findM_Throw {A} (p : A -> result bool) (l : list A) (e : Error) :
  findM p l = Throw e -> exists x, In x l /\ p x = Throw e.
Proof.
  induction l as [|x l IH]; simpl; [discriminate|].
  destruct (p x) as [b|e1] eqn:Hp; simpl.
  - destruct b; [discriminate|]. intros H.
    destruct (IH H) as (y & Hy & Hpy). eauto.
  - intros [= ->]. eauto.
Qed.

Lemma fileURLToPath_Return (u p : string) :
  url.fileURLToPath u = Return p -> p = JS.slice 7 u.
Proof.
  unfold url.fileURLToPath. destruct (String.prefix _ _); congruence.
Qed.

Lemma fileURLToPath_Throw (u : string) (e : Error) :
  url.fileURLToPath u = Throw e -> e = InvalidFileURL.
Proof.
  unfold url.fileURLToPath. destruct (String.prefix _ _); congruence.
Qed.

Section NodeFacts.

Variable objectId : HashInput -> string.
Variable cwd : string.
Variable symbolsByFile : Map.t string (list SymbolObject).
Variable references : Map.t SymbolObject (list SymbolObject).
Variable rootPath : string.

Lemma filter_isNode_enclosing (l : list Element) :
  forallb isEnclosingEdge l = true ->
  filter (fun e => isNode e = true) l = [].
Proof.
  induction l as [|e l IH]; simpl; [reflexivity|].
  intros H. apply andb_prop in H as [He Hl].
  destruct e as [|f t []]; try discriminate.
  rewrite filter_cons_False by discriminate. auto.
Qed.

Lemma addSymbol_nodes uri symbols b symbol b' :
  addSymbol objectId cwd symbolsByFile references rootPath uri symbols b
    symbol = Return b' ->
  filter (fun e => isNode e = true) (graphElement b')
  = filter (fun e => isNode e = true) (graphElement b)
    ++ option_list (nodeOf objectId cwd rootPath (uri, symbol)).
Proof.
  intros H. apply addSymbol_Return in H. unfold nodeOf. simpl.
  destruct (getGXLSymbolKind (val symbol)) as [type|]; simpl.
  2:{ subst. now rewrite app_nil_r. }
  destruct H as (appended & filePath & Happ & _ & Hpath & ->).
  rewrite fold_addReference. simpl.
  rewrite !filter_app, (filter_isNode_enclosing _ Happ).
  rewrite filter_cons_True by reflexivity. rewrite filter_nil. simpl.
  rewrite (fileURLToPath_Return _ _ Hpath).
  replace (filter (fun e => isNode e = true) (map _ _)) with (@nil Element).
  - now rewrite app_nil_r.
  - induction (default [] (referencesOf references symbol)) as [|r l IH];
      [reflexivity|].
    simpl. now rewrite filter_cons_False by discriminate.
Qed.

Lemma build_nodes (b : Builder) :
  build objectId cwd symbolsByFile references rootPath = Return b ->
  filter (fun e => isNode e = true) (graphElement b)
  = omap (nodeOf objectId cwd rootPath) (storedSymbols symbolsByFile).
Proof.
  unfold build, storedSymbols. intros H.
  apply (foldM_collects
           (fun b => filter (fun e => isNode e = true) (graphElement b))
           (fun e : string * list SymbolObject =>
              omap (nodeOf objectId cwd rootPath) (map (pair (fst e)) (snd e))))
    in H.
  - simpl in H. rewrite H. clear H.
    induction symbolsByFile as [|e l IH]; [reflexivity|].
    simpl. rewrite omap_app. now rewrite IH.
  - intros a [uri symbols] a' Hf. simpl.
    apply (foldM_collects
             (fun b => filter (fun e => isNode e = true) (graphElement b))
             (fun o => option_list (nodeOf objectId cwd rootPath (uri, o))))
      in Hf.
    + rewrite Hf. f_equal. clear Hf.
      induction symbols as [|o l IH]; [reflexivity|].
      simpl. rewrite IH.
      now destruct (nodeOf objectId cwd rootPath (uri, o)).
    + intros. eapply addSymbol_nodes; eauto.
Qed.

End NodeFacts.

(** X1. The nodes of a document that [asGXL] returns are, in the order of
    the store, the nodes of the stored symbols with a kind that is not
    excluded: one node for every such symbol (objects with the same value
    are not merged), with the name of the symbol, the start of its declared
    range and the path of its document below the root. *)
Theorem asGXL_nodes
    (objectId : HashInput -> string) (cwd : string)
    (symbolsByFile : Map.t string (list SymbolObject))
    (references : Map.t SymbolObject (list SymbolObject))
    (rootPath : string) (d : Document) :
  asGXL objectId cwd symbolsByFile references rootPath = Return d ->
  filter (fun e => isNode e = true) (elements d)
  = omap (nodeOf objectId cwd rootPath) (storedSymbols symbolsByFile).
Proof.
  intros H. apply asGXL_Return in H as (b & Hb & _ & ->).
  eapply build_nodes; eauto.
Qed.

Lemma asGXL_nodes_run :
  exists d,
    asGXL Digest.objectId Scenario.cwd Scenario.hierarchy []
      Scenario.rootPath = Return d
    /\ filter (fun e => isNode e = true) (elements d)
       = omap (nodeOf Digest.objectId Scenario.cwd Scenario.rootPath)
           (storedSymbols Scenario.hierarchy).
Proof.
  destruct (asGXL Digest.objectId Scenario.cwd Scenario.hierarchy []
              Scenario.rootPath) as [d|e] eqn:H.
  - exists d. split; [reflexivity|].
    exact (asGXL_nodes _ _ _ _ _ _ H).
  - vm_compute in H. discriminate.
Defined.

(** X2. Every node of a returned document has one of the five node types,
    and its identifier is its [Source.Name] followed by a colon and a
    digest. *)
Theorem asGXL_node_shape
    (objectId : HashInput -> string) (cwd : string)
    (symbolsByFile : Map.t string (list SymbolObject))
    (references : Map.t SymbolObject (list SymbolObject))
    (rootPath : string) (d : Document) (id type : string)
    (attrs : GXLNodeAttributes) :
  asGXL objectId cwd symbolsByFile references rootPath = Return d ->
  In (node id type attrs) (elements d) ->
  In type ["File"; "Class"; "Member"; "Method"; "Routine"]
  /\ exists h, id = Source_Name attrs +:+ ":" +:+ objectId h.
Proof.
  intros H Hin. apply asGXL_Return in H as (b & Hb & _ & Hel).
  rewrite Hel in Hin.
  assert (Hn : node id type attrs
               ∈ filter (fun e => isNode e = true) (graphElement b)).
  { apply list_elem_of_filter. split; [reflexivity|].
    now apply list_elem_of_In. }
  erewrite build_nodes in Hn by eauto.
  apply list_elem_of_omap in Hn as ([uri o] & _ & Hn).
  unfold nodeOf in Hn. simpl in Hn.
  destruct (getGXLSymbolKind (val o)) as [t|] eqn:Hk; [|discriminate].
  injection Hn as <- <- <-. simpl. split; [|unfold nodeID; eauto].
  unfold getGXLSymbolKind in Hk.
  destruct (kind (val o)); inversion Hk; simpl; auto 6.
Qed.

Lemma asGXL_node_shape_run :
  exists d,
    asGXL Digest.objectId Scenario.cwd Scenario.hierarchy []
      Scenario.rootPath = Return d
    /\ (forall id type attrs,
          In (node id type attrs) (elements d) ->
          In type ["File"; "Class"; "Member"; "Method"; "Routine"]
          /\ exists h, id = Source_Name attrs +:+ ":" +:+ Digest.objectId h).
Proof.
  destruct (asGXL Digest.objectId Scenario.cwd Scenario.hierarchy []
              Scenario.rootPath) as [d|e] eqn:H.
  - exists d. split; [reflexivity|].
    intros id type attrs. exact (asGXL_node_shape _ _ _ _ _ _ _ _ _ H).
  - vm_compute in H. discriminate.
Defined.

Section ThrowFacts.

Variable objectId : HashInput -> string.
Variable cwd : string.
Variable symbolsByFile : Map.t string (list SymbolObject).
Variable references : Map.t SymbolObject (list SymbolObject).
Variable rootPath : string.

(** A step of the inner loop throws only for a symbol that produces a
    node, and only what [fileURLToPath] throws for the URI. *)
Lemma addSymbol_Throw uri symbols b symbol e :
  addSymbol objectId cwd symbolsByFile references rootPath uri symbols b
    symbol = Throw e ->
  is_Some (getGXLSymbolKind (val symbol))
  /\ url.fileURLToPath uri = Throw e.
Proof.
  unfold addSymbol.
  destruct (getGXLSymbolKind (val symbol)) as [type|] eqn:Hk; [|discriminate].
  intros H. split; [eauto|].
  destruct (url.fileURLToPath uri) as [filePath|e1] eqn:Hpath.
  - destruct (addSymbol_total objectId cwd symbolsByFile references rootPath
                uri symbols b symbol filePath Hpath) as [b' Hb'].
    unfold addSymbol in Hb'. rewrite Hk, Hpath in Hb'. congruence.
  - destruct (bool_decide (kind (val symbol) = SkFile)).
    + unfold parentDirectoryEdge in H. rewrite Hpath in H. simpl in H.
      congruence.
    + unfold containerEdge in H.
      destruct (negb (DocumentSymbol_is (val symbol))); simpl in H;
        [|congruence].
      unfold findContainer in H.
      destruct (find _ symbols); simpl in H; [congruence|].
      match type of H with
      | context [findM ?p ?l] =>
          destruct (findM p l) as [r|e2] eqn:Hfind
      end; simpl in H; [congruence|].
      apply findM_Throw in Hfind as (x & _ & Hx).
      destruct (bool_decide (kind (val x) = SkFile)); [|discriminate].
      rewrite Hpath in Hx. simpl in Hx. congruence.
Qed.

Lemma build_Throw (e : Error) :
  build objectId cwd symbolsByFile references rootPath = Throw e ->
  e = InvalidFileURL
  /\ exists uri symbols symbol,
       In (uri, symbols) symbolsByFile /\ In symbol symbols
       /\ is_Some (getGXLSymbolKind (val symbol))
       /\ url.fileURLToPath uri = Throw InvalidFileURL.
Proof.
  unfold build. intros H.
  apply foldM_Throw in H as (a & [uri symbols] & Hin & H).
  apply foldM_Throw in H as (a' & symbol & Hs & H).
  apply addSymbol_Throw in H as [Hk Hp].
  pose proof (fileURLToPath_Throw _ _ Hp) as ->. eauto 10.
Qed.

Lemma foldM_Return_in {A B} (f : A -> B -> result A) (l : list B) (x : B) :
  In x l ->
  forall a a', foldM f a l = Return a' ->
  exists a1 a2, f a1 x = Return a2.
Proof.
  induction l as [|b l IH]; simpl; intros Hin a a' H; [contradiction|].
  apply bind_Return in H as (a1 & H1 & H2).
  destruct Hin as [->|Hin]; eauto.
Qed.

Lemma build_Return_url (b : Builder) uri symbols symbol :
  build objectId cwd symbolsByFile references rootPath = Return b ->
  In (uri, symbols) symbolsByFile -> In symbol symbols ->
  is_Some (getGXLSymbolKind (val symbol)) ->
  exists filePath, url.fileURLToPath uri = Return filePath.
Proof.
  unfold build. intros H Hin Hs [type Hk].
  destruct (foldM_Return_in _ _ _ Hin _ _ H) as (a1 & a2 & H1).
  simpl in H1.
  destruct (foldM_Return_in _ _ _ Hs _ _ H1) as (a3 & a4 & H2).
  apply addSymbol_Return in H2. rewrite Hk in H2.
  destruct H2 as (_ & filePath & _ & _ & Hp & _). eauto.
Qed.

Lemma verify_Throw (b : Builder) (e : Error) :
  verify b = Throw e -> e = DanglingEdge.
Proof.
  unfold verify. intros H.
  apply foldM_Throw in H as (a & x & _ & H).
  destruct (_ || _); congruence.
Qed.

Lemma verify_Return (b : Builder) :
  verify b = Return tt <-> endsKnown b.
Proof.
  unfold verify, endsKnown.
  induction (edgeNodeIds b) as [|x l IH]; simpl.
  - split; [constructor|reflexivity].
  - rewrite Forall_cons.
    destruct (decide (x.1 ∈ nodeIds b)) as [H1|H1];
      destruct (decide (x.2 ∈ nodeIds b)) as [H2|H2];
      rewrite ?(bool_decide_eq_true_2 _ H1), ?(bool_decide_eq_true_2 _ H2),
        ?(bool_decide_eq_false_2 _ H1), ?(bool_decide_eq_false_2 _ H2);
      simpl; rewrite ?orb_true_r; simpl;
      (split; [|tauto]); try discriminate.
    intros H. split; [auto|]. now apply IH.
Qed.

End ThrowFacts.

(** X3. [asGXL] throws the URL error exactly when a stored symbol that
    produces a node is stored under a URI that [fileURLToPath] rejects,
    whatever the references map holds. *)
Theorem asGXL_invalid_url
    (objectId : HashInput -> string) (cwd : string)
    (symbolsByFile : Map.t string (list SymbolObject))
    (references : Map.t SymbolObject (list SymbolObject))
    (rootPath : string) :
  asGXL objectId cwd symbolsByFile references rootPath = Throw InvalidFileURL
  <-> exists uri symbols symbol,
        In (uri, symbols) symbolsByFile /\ In symbol symbols
        /\ is_Some (getGXLSymbolKind (val symbol))
        /\ url.fileURLToPath uri = Throw InvalidFileURL.
Proof.
  unfold asGXL. split.
  - destruct (build objectId cwd symbolsByFile references rootPath)
      as [b|e] eqn:Hb; simpl.
    + destruct (verify b) as [[]|e] eqn:Hv; simpl; [discriminate|].
      apply verify_Throw in Hv. congruence.
    + intros _. now apply build_Throw in Hb.
  - intros (uri & symbols & symbol & Hin & Hs & Hk & Hp).
    destruct (build objectId cwd symbolsByFile references rootPath)
      as [b|e] eqn:Hb; simpl.
    + destruct (build_Return_url _ _ _ _ _ _ _ _ _ Hb Hin Hs Hk) as [p Hp'].
      congruence.
    + now apply build_Throw in Hb as [-> _].
Qed.

(** X4. [asGXL] throws nothing but the URL error and the dangling-edge
    error, and the second one only after the loops over the store have
    finished with a recorded edge that has an end outside the node
    identifiers. *)
Theorem asGXL_errors
    (objectId : HashInput -> string) (cwd : string)
    (symbolsByFile : Map.t string (list SymbolObject))
    (references : Map.t SymbolObject (list SymbolObject))
    (rootPath : string) (e : Error) :
  asGXL objectId cwd symbolsByFile references rootPath = Throw e ->
  e = InvalidFileURL
  \/ (e = DanglingEdge
      /\ exists b,
           build objectId cwd symbolsByFile references rootPath = Return b
           /\ ~ endsKnown b).
Proof.
  unfold asGXL.
  destruct (build objectId cwd symbolsByFile references rootPath)
    as [b|e1] eqn:Hb; simpl.
  - destruct (verify b) as [[]|e1] eqn:Hv; simpl; [discriminate|].
    intros [= <-]. right. split; [eapply verify_Throw; eauto|].
    exists b. split; [reflexivity|].
    intros Hk. apply verify_Return in Hk. congruence.
  - intros [= <-]. left. now apply build_Throw in Hb.
Qed.

Lemma asGXL_errors_run :
  exists e,
    asGXL Digest.objectId Scenario.cwd Scenario.stored Scenario.resolved
      Scenario.rootPath = Throw e
    /\ (e = InvalidFileURL
        \/ (e = DanglingEdge
            /\ exists b,
                 build Digest.objectId Scenario.cwd Scenario.stored
                   Scenario.resolved Scenario.rootPath = Return b
                 /\ ~ endsKnown b)).
Proof.
  destruct (asGXL Digest.objectId Scenario.cwd Scenario.stored
              Scenario.resolved Scenario.rootPath) as [d|e] eqn:H.
  - vm_compute in H. discriminate.
  - exists e. split; [reflexivity|].
    exact (asGXL_errors _ _ _ _ _ _ H).
Defined.

(** X5. The verification pass returns exactly when both ends of every
    recorded edge are node identifiers, and throws the dangling-edge error
    otherwise. *)
Theorem verify_ends_known (b : Builder) :
  (verify b = Return tt <-> endsKnown b)
  /\ (~ endsKnown b -> verify b = Throw DanglingEdge).
Proof.
  split; [apply verify_Return|].
  intros Hk. destruct (verify b) as [[]|e] eqn:Hv.
  - now apply verify_Return in Hv.
  - now rewrite (verify_Throw _ _ Hv).
Qed.

Section EdgeFacts.

Variable objectId : HashInput -> string.
Variable cwd : string.
Variable symbolsByFile : Map.t string (list SymbolObject).
Variable references : Map.t SymbolObject (list SymbolObject).
Variable rootPath : string.

(** Without a recorded dependency the loops record no edge. *)
Lemma build_no_edges (b : Builder) :
  ~ recordsDependency symbolsByFile references ->
  build objectId cwd symbolsByFile references rootPath = Return b ->
  edgeNodeIds b = [].
Proof.
  intros Hno. unfold build.
  apply (foldM_invariant_in (fun b => edgeNodeIds b = [])); [|reflexivity].
  intros a [uri symbols] a' Hin Ha.
  apply (foldM_invariant_in (fun b => edgeNodeIds b = [])); [|exact Ha].
  intros a1 s a2 Hs Ha1 H.
  apply addSymbol_Return in H.
  destruct (getGXLSymbolKind (val s)) as [type|] eqn:Hk; [|now subst].
  destruct H as (appended & filePath & _ & _ & _ & ->).
  rewrite fold_addReference. simpl. rewrite Ha1. simpl.
  destruct (referencesOf references s) as [[|r rs]|] eqn:Hr; try reflexivity.
  exfalso. apply Hno. exists uri, symbols, s, r, rs.
  rewrite Hk. eauto.
Qed.

(** The [Enclosing] edges that one step of the inner loop appends. *)
Lemma addSymbol_enclosing uri symbols b symbol b' f t :
  addSymbol objectId cwd symbolsByFile references rootPath uri symbols b
    symbol = Return b' ->
  In (edge f t Enclosing) (graphElement b') ->
  In (edge f t Enclosing) (graphElement b)
  \/ (kind (val symbol) = SkFile
      /\ f = nodeID objectId (val symbol)
      /\ outsideRoot (path.relative cwd rootPath (JS.slice 7 uri)) = false
      /\ exists parent,
           Map.get symbolsByFile
             (url.pathToFileURL cwd (path.join (JS.slice 7 uri) ".."))
           = Some parent
           /\ t = objectId (HashSymbols (map val parent))).
Proof.
  unfold addSymbol.
  destruct (getGXLSymbolKind (val symbol)) as [type|];
    [|intros [= <-]; auto].
  intros H. apply bind_Return in H as (appended & Happ & H).
  apply bind_Return in H as (filePath & Hpath & H).
  injection H as <-. rewrite fold_addReference. simpl.
  rewrite !in_app_iff. intros [[Hin|[Hin|Hin]]|Hin].
  - auto.
  - right. destruct (bool_decide (kind (val symbol) = SkFile)) eqn:Hfile.
    2:{ apply bind_Return in Happ as (c & _ & [= <-]). destruct Hin. }
    apply bool_decide_eq_true_1 in Hfile. split; [assumption|].
    unfold parentDirectoryEdge in Happ. rewrite Hpath in Happ.
    simpl in Happ. rewrite (fileURLToPath_Return _ _ Hpath) in Happ.
    rewrite <- negb_orb in Happ. fold (outsideRoot
      (path.relative cwd rootPath (JS.slice 7 uri))) in Happ.
    destruct (outsideRoot _); simpl in Happ;
      [injection Happ as <-; destruct Hin|].
    destruct (Map.get symbolsByFile _) as [parent|];
      injection Happ as <-; [|destruct Hin].
    destruct Hin as [[= <- <-]|[]]. eauto.
  - destruct Hin as [Hin|[]]. discriminate.
  - apply in_map_iff in Hin as (r & Hr & _). discriminate.
Qed.

Lemma build_enclosing (b : Builder) f t :
  build objectId cwd symbolsByFile references rootPath = Return b ->
  In (edge f t Enclosing) (graphElement b) ->
  exists uri symbols symbol parent,
    In (uri, symbols) symbolsByFile /\ In symbol symbols
    /\ kind (val symbol) = SkFile
    /\ f = nodeID objectId (val symbol)
    /\ outsideRoot (path.relative cwd rootPath (JS.slice 7 uri)) = false
    /\ Map.get symbolsByFile
         (url.pathToFileURL cwd (path.join (JS.slice 7 uri) ".."))
       = Some parent
    /\ t = objectId (HashSymbols (map val parent)).
Proof.
  unfold build. intros H. revert H.
  apply (foldM_invariant_in
    (fun b => In (edge f t Enclosing) (graphElement b) -> _)).
  2:{ intros []. }
  intros a [uri symbols] a' Hin Ha.
  apply (foldM_invariant_in
    (fun b => In (edge f t Enclosing) (graphElement b) -> _)); [|exact Ha].
  intros a1 s a2 Hs Ha1 H He.
  destruct (addSymbol_enclosing _ _ _ _ _ _ _ H He)
    as [Hold|(Hk & Hf & Hout & parent & Hp & Ht)]; [auto|].
  exists uri, symbols, s, parent. auto 10.
Qed.

Lemma build_node_ids (b : Builder) (id : string) :
  build objectId cwd symbolsByFile references rootPath = Return b ->
  In id (nodeIdsOf (graphElement b)) -> hasColon id.
Proof.
  intros Hb Hin. unfold nodeIdsOf in Hin.
  apply list_elem_of_In, list_elem_of_omap in Hin as (x & Hx & Hid).
  destruct x as [id' type attrs|]; [|discriminate]. injection Hid as ->.
  assert (Hn : node id type attrs
               ∈ filter (fun e => isNode e = true) (graphElement b)).
  { apply list_elem_of_filter. now split. }
  erewrite build_nodes in Hn by eauto.
  apply list_elem_of_omap in Hn as ([uri o] & _ & Hn).
  unfold nodeOf in Hn. simpl in Hn.
  destruct (getGXLSymbolKind (val o)); [|discriminate].
  injection Hn as <- _ _. apply hasColon_infix.
Qed.

End EdgeFacts.

(** X6. When every document URI of the store is a file URL, [asGXL]
    returns a document exactly when the references map gives no referencing
    symbol to any stored symbol that produces a node. *)
Theorem asGXL_returns_iff
    (objectId : HashInput -> string) (cwd : string)
    (symbolsByFile : Map.t string (list SymbolObject))
    (references : Map.t SymbolObject (list SymbolObject))
    (rootPath : string) :
  (forall h, hexadecimal (objectId h)) ->
  fileURLs symbolsByFile ->
  (exists d, asGXL objectId cwd symbolsByFile references rootPath = Return d)
  <-> ~ recordsDependency symbolsByFile references.
Proof.
  intros Hhex Hurls. split.
  - intros [d Hd] Hrec. apply asGXL_Return in Hd as (b & Hb & Hv & _).
    rewrite (verify_dangling objectId b Hhex) in Hv; [discriminate| |].
    + eapply build_consistent; eauto.
    + eapply build_records; eauto.
  - intros Hno.
    destruct (build_total objectId cwd symbolsByFile references rootPath Hurls)
      as [b Hb].
    unfold asGXL. rewrite Hb. simpl.
    replace (verify b) with (Return tt); [simpl; eauto|].
    symmetry. apply verify_Return. unfold endsKnown.
    erewrite build_no_edges by eauto. constructor.
Qed.

Lemma asGXL_returns_iff_run :
  exists d,
    asGXL Digest.objectId Scenario.cwd Scenario.hierarchy []
      Scenario.rootPath = Return d.
Proof.
  refine (proj2 (asGXL_returns_iff Digest.objectId Scenario.cwd
                   Scenario.hierarchy [] Scenario.rootPath
                   objectId_hexadecimal _) _).
  - repeat constructor. eexists; reflexivity.
  - intros (uri & symbols & symbol & r & rs & _ & _ & _ & H). discriminate.
Defined.

(** X7. Every [Enclosing] edge of a returned document starts at the node
    of a stored symbol of kind [File] whose document lies inside the root,
    and ends at the digest of the whole list stored under the URI of the
    parent directory of that document; no other symbol gets such an
    edge. *)
Theorem enclosing_edges_of_files
    (objectId : HashInput -> string) (cwd : string)
    (symbolsByFile : Map.t string (list SymbolObject))
    (references : Map.t SymbolObject (list SymbolObject))
    (rootPath : string) (d : Document) (from to : string) :
  asGXL objectId cwd symbolsByFile references rootPath = Return d ->
  In (edge from to Enclosing) (elements d) ->
  exists uri symbols symbol parent,
    In (uri, symbols) symbolsByFile /\ In symbol symbols
    /\ kind (val symbol) = SkFile
    /\ from = nodeID objectId (val symbol)
    /\ outsideRoot (path.relative cwd rootPath (JS.slice 7 uri)) = false
    /\ Map.get symbolsByFile
         (url.pathToFileURL cwd (path.join (JS.slice 7 uri) ".."))
       = Some parent
    /\ to = objectId (HashSymbols (map val parent)).
Proof.
  intros H Hin. apply asGXL_Return in H as (b & Hb & _ & Hel).
  rewrite Hel in Hin. eapply build_enclosing; eauto.
Qed.

Lemma enclosing_edges_of_files_run :
  exists d from to,
    asGXL Digest.objectId Scenario.cwd Scenario.directories []
      Scenario.rootPath = Return d
    /\ In (edge from to Enclosing) (elements d)
    /\ exists uri symbols symbol parent,
         In (uri, symbols) Scenario.directories /\ In symbol symbols
         /\ kind (val symbol) = SkFile
         /\ from = nodeID Digest.objectId (val symbol)
         /\ outsideRoot
              (path.relative Scenario.cwd Scenario.rootPath (JS.slice 7 uri))
            = false
         /\ Map.get Scenario.directories
              (url.pathToFileURL Scenario.cwd
                 (path.join (JS.slice 7 uri) ".."))
            = Some parent
         /\ to = Digest.objectId (HashSymbols (map val parent)).
Proof.
  destruct (asGXL Digest.objectId Scenario.cwd Scenario.directories []
              Scenario.rootPath) as [d|e] eqn:H;
    [|vm_compute in H; discriminate].
  exists d, (nodeID Digest.objectId Scenario.dir1),
    (Digest.objectId (HashSymbols [Scenario.dirB])).
  assert (Hin : In (edge (nodeID Digest.objectId Scenario.dir1)
                      (Digest.objectId (HashSymbols [Scenario.dirB]))
                      Enclosing) (elements d)).
  { pose proof H as H'. vm_compute in H'. injection H' as <-.
    left. reflexivity. }
  split; [reflexivity|]. split; [exact Hin|].
  exact (enclosing_edges_of_files _ _ _ _ _ _ _ _ H Hin).
Defined.

(** X8. In every document that [asGXL] returns, the target of every
    [Enclosing] edge is the identifier of no node: it is a bare digest,
    and every node identifier contains a colon. *)
Theorem enclosing_edges_dangle
    (objectId : HashInput -> string) (cwd : string)
    (symbolsByFile : Map.t string (list SymbolObject))
    (references : Map.t SymbolObject (list SymbolObject))
    (rootPath : string) (d : Document) (from to : string) :
  (forall h, hexadecimal (objectId h)) ->
  asGXL objectId cwd symbolsByFile references rootPath = Return d ->
  In (edge from to Enclosing) (elements d) ->
  ~ In to (nodeIdsOf (elements d)).
Proof.
  intros Hhex H Hin Hto. apply asGXL_Return in H as (b & Hb & _ & Hel).
  rewrite Hel in Hin, Hto.
  destruct (build_enclosing _ _ _ _ _ _ _ _ Hb Hin)
    as (uri & symbols & symbol & parent & _ & _ & _ & _ & _ & _ & ->).
  apply (build_node_ids _ _ _ _ _ _ _ Hb) in Hto.
  exact (hexadecimal_no_colon _ (Hhex _) Hto).
Qed.

Lemma enclosing_edges_dangle_run :
  exists d from to,
    asGXL Digest.objectId Scenario.cwd Scenario.directories []
      Scenario.rootPath = Return d
    /\ In (edge from to Enclosing) (elements d)
    /\ ~ In to (nodeIdsOf (elements d)).
Proof.
  destruct (asGXL Digest.objectId Scenario.cwd Scenario.directories []
              Scenario.rootPath) as [d|e] eqn:H;
    [|vm_compute in H; discriminate].
  exists d, (nodeID Digest.objectId Scenario.dir1),
    (Digest.objectId (HashSymbols [Scenario.dirB])).
  assert (Hin : In (edge (nodeID Digest.objectId Scenario.dir1)
                      (Digest.objectId (HashSymbols [Scenario.dirB]))
                      Enclosing) (elements d)).
  { pose proof H as H'. vm_compute in H'. injection H' as <-.
    left. reflexivity. }
  split; [reflexivity|]. split; [exact Hin|].
  exact (enclosing_edges_dangle _ _ _ _ _ _ _ _ objectId_hexadecimal H Hin).
Defined.

(** * Further properties of the loop over the files *)

Section MapEntries.

Context {K V : Type} `{EqDecision K}.

Lemma Map_set_In (m : Map.t K V) (k k' : K) (v v' : V) :
  In (k', v') (Map.set m k v) -> (k', v') = (k, v) \/ In (k', v') m.
Proof.
  induction m as [|[k0 v0] m IH]; simpl.
  - intros [H|[]]; auto.
  - destruct (decide (k0 = k)) as [->|Hne]; simpl.
    + intros [H|H]; auto.
    + intros [H|H]; auto. destruct (IH H); auto.
Qed.

Lemma Map_get_In (m : Map.t K V) (k : K) (v : V) :
  Map.get m k = Some v -> In (k, v) m.
Proof.
  induction m as [|[k0 v0] m IH]; simpl; [discriminate|].
  destruct (decide (k0 = k)) as [->|Hne]; [intros [= ->]|]; auto.
Qed.

Lemma Map_set_keys (m : Map.t K V) (k : K) (v : V) :
  Map.keys (Map.set m k v)
  = if Map.has m k then Map.keys m else Map.keys m ++ [k].
Proof.
  unfold Map.has, Map.keys. induction m as [|[k0 v0] m IH]; simpl;
    [reflexivity|].
  destruct (decide (k0 = k)) as [->|Hne]; simpl; [reflexivity|].
  rewrite IH. now destruct (Map.get m k).
Qed.

Lemma Map_set_NoDup (m : Map.t K V) (k : K) (v : V) :
  NoDup (Map.keys m) -> NoDup (Map.keys (Map.set m k v)).
Proof.
  intros Hm. rewrite Map_set_keys. unfold Map.has.
  destruct (Map.get m k) eqn:Hk; [assumption|].
  apply NoDup_app. split; [assumption|]. split.
  - intros x Hx Hin. apply list_elem_of_In in Hx.
    apply list_elem_of_In in Hin as [->|[]].
    now apply Map_get_None_keys in Hk.
  - apply NoDup_singleton.
Qed.

End MapEntries.

Lemma advance_0 (s : LSPSymbol) : advance 0 s = s.
Proof.
  destruct s as [nm k [u [[l c] e]] cn|nm k r [[l c] e]]; simpl;
    now rewrite Nat.add_0_r.
Qed.

Lemma advance_advance (n m : nat) (s : LSPSymbol) :
  advance m (advance n s) = advance (n + m) s.
Proof. destruct s; simpl; now rewrite Nat.add_assoc. Qed.

Lemma advance_movedBy (n : nat) (s : LSPSymbol) : movedBy n s (advance n s).
Proof. destruct s; unfold movedBy; simpl; repeat split; discriminate. Qed.

Section LookupMoves.

Variable server : LanguageServer.
Variable readFile : string -> string.
Variables file uri : string.

(** A step of the loop over [docSymbols] rewrites at most the object it
    is called for, and moves it by 0, 5, 7 or 12 columns. *)
Lemma getReferences_moves (st st' : State) (a : nat) :
  getReferences server readFile file uri st a = Return st' ->
  exists s n,
    objects st !! a = Some s /\ In n [0; 5; 7; 12]
    /\ objects st' = <[a := advance n s]> (objects st).
Proof.
  unfold getReferences, readObject. intros H.
  destruct (objects st !! a) as [s|] eqn:Hs; [|discriminate].
  simpl in H. exists s.
  assert (Hsame : objects st = <[a := advance 0 s]> (objects st)).
  { rewrite advance_0. symmetry. now apply list_insert_id. }
  destruct (getGXLSymbolKind s).
  2:{ injection H as <-. exists 0. simpl. auto. }
  destruct (JS.split newline (readFile file) !! _) as [lineContent|];
    [|discriminate].
  destruct (JS.testImport lineContent).
  { injection H as <-. exists 0. simpl. auto. }
  injection H as <-. simpl.
  destruct (JS.startsWith _ "def ");
    match goal with
    | |- context [if ?c then _ else _] => destruct c
    end.
  - exists 12. rewrite advance_advance. simpl. tauto.
  - exists 5. simpl. tauto.
  - exists 7. simpl. tauto.
  - exists 0. rewrite advance_0. simpl. tauto.
Qed.

End LookupMoves.

(** X9. Looking up the references of a symbol changes nothing of any
    symbol object but the column at which the lookup range of that symbol
    starts, which moves right by 0, 5, 7 or 12: name, kind, container
    name, document, the end of the range and its start line stay, the
    declared range of a [DocumentSymbol] stays, and all other objects, the
    arrays and the store stay. *)
Theorem lookup_moves_start_column_only
    (server : LanguageServer) (readFile : string -> string)
    (file uri : string) (st st' : State) (a : nat) :
  getReferences server readFile file uri st a = Return st' ->
  (exists s s' n,
     objects st !! a = Some s /\ objects st' !! a = Some s'
     /\ In n [0; 5; 7; 12] /\ movedBy n s s')
  /\ (forall k, k <> a -> objects st' !! k = objects st !! k)
  /\ length (objects st') = length (objects st)
  /\ arrays st' = arrays st /\ symbols st' = symbols st.
Proof.
  intros H.
  destruct (getReferences_frame _ _ _ _ _ _ _ H)
    as (Ha & Hsym & Hlen & Hlt & Hk).
  apply getReferences_moves in H as (s & n & Hs & Hn & Hobj).
  repeat split; try assumption.
  - exists s, (advance n s), n. split; [assumption|].
    split; [rewrite Hobj; now apply list_lookup_insert_eq|].
    split; [assumption|apply advance_movedBy].
  - intros k Hne. now apply Hk.
Qed.

Lemma lookup_moves_start_column_only_run :
  exists st',
    getReferences Scenario.fooServer Scenario.fooText Scenario.file
      Scenario.document
      {| objects := [Scenario.foo]; arrays := []; symbols := [];
         allReferences := []; requests := [] |} 0 = Return st'
    /\ exists s s' n,
         [Scenario.foo] !! 0 = Some s /\ objects st' !! 0 = Some s'
         /\ In n [0; 5; 7; 12] /\ movedBy n s s'.
Proof.
  eexists. split; [vm_compute; reflexivity|].
  refine (proj1 (lookup_moves_start_column_only Scenario.fooServer
                   Scenario.fooText Scenario.file Scenario.document
                   {| objects := [Scenario.foo]; arrays := []; symbols := [];
                      allReferences := []; requests := [] |} _ 0 _)).
  vm_compute. reflexivity.
Defined.

Lemma fileURLToPath_pathToFileURL (cwd p : string) :
  url.fileURLToPath (url.pathToFileURL cwd p) = Return (path.resolve cwd p).
Proof.
  unfold url.fileURLToPath, url.pathToFileURL, path.resolve.
  destruct (JS.join path.sep (path.resolveSegments cwd p)); reflexivity.
Qed.

Lemma kind_producesNode (s s' : LSPSymbol) :
  kind s' = kind s ->
  is_Some (getGXLSymbolKind s) -> is_Some (getGXLSymbolKind s').
Proof. unfold getGXLSymbolKind. now intros ->. Qed.

Lemma nodeObjects_step (st st' : State) (l : list nat) :
  (forall o s, objects st !! o = Some s ->
     exists s', objects st' !! o = Some s' /\ kind s' = kind s) ->
  nodeObjects st l -> nodeObjects st' l.
Proof.
  intros Hobj Hl. unfold nodeObjects. eapply Forall_impl; [exact Hl|].
  intros o (s & Hs & Hk). destruct (Hobj o s Hs) as (s' & Hs' & Hk').
  exists s'. split; [assumption|]. eapply kind_producesNode; eauto.
Qed.

Lemma wellStored_step (st st' : State) :
  (forall u a, In (u, a) (symbols st') -> In (u, a) (symbols st)) ->
  (forall u a, In (u, a) (symbols st) -> arrays st' !! a = arrays st !! a) ->
  (forall o s, objects st !! o = Some s ->
     exists s', objects st' !! o = Some s' /\ kind s' = kind s) ->
  wellStored st -> wellStored st'.
Proof.
  intros Hsym Harr Hobj Hst u a Hin. apply Hsym in Hin.
  destruct (Hst u a Hin) as (Hurl & l & Hl & Hgood).
  split; [assumption|]. exists l. rewrite (Harr u a Hin).
  split; [assumption|]. eapply nodeObjects_step; eauto.
Qed.

Lemma wellStored_set (st : State) (u : string) (a : nat) (l : list nat) :
  (exists p, url.fileURLToPath u = Return p) ->
  arrays st !! a = Some l -> nodeObjects st l ->
  wellStored st -> wellStored (setSymbols u a st).
Proof.
  intros Hurl Hl Hgood Hst u' a' Hin. simpl in Hin.
  apply Map_set_In in Hin as [[= -> ->]|Hin]; [eauto|].
  exact (Hst u' a' Hin).
Qed.

Section StoreFacts.

Variable cwd : string.
Variable rootPath : string.

(** The directory loop keeps the store well formed, and the arrays it
    stores are new ones. *)
Lemma addDirectories_stored (d : nat) (l : list string) (st : State) :
  d < length (arrays st) ->
  wellStored st /\ (forall u a, In (u, a) (symbols st) -> a <> d) ->
  wellStored (addDirectories cwd rootPath l st)
  /\ (forall u a,
        In (u, a) (symbols (addDirectories cwd rootPath l st)) -> a <> d).
Proof.
  revert st. induction l as [|popped remaining IH]; intros st Hd Hst;
    [exact Hst|].
  rewrite addDirectories_step. cbv zeta.
  destruct (String.eqb popped ""); [exact Hst|].
  destruct (outsideRoot _); [exact Hst|].
  destruct (Map.has (symbols st) _); [now apply IH|].
  destruct Hst as [Hst Hne].
  apply IH; [simpl; rewrite length_app; lia|]. split.
  - apply wellStored_set with (l := [length (objects st)]).
    + rewrite fileURLToPath_pathToFileURL. eauto.
    + simpl. now apply list_lookup_middle.
    + constructor; [|constructor]. simpl. eexists. split.
      * now apply list_lookup_middle.
      * simpl. eauto.
    + apply (wellStored_step st); [ | | |exact Hst]; simpl.
      * auto.
      * intros u a Hin. destruct (Hst u a Hin) as (_ & l' & Hl' & _).
        apply lookup_app_l. eapply lookup_lt_Some; eauto.
      * intros o s Hs. exists s. split; [|reflexivity].
        now apply lookup_app_l_Some.
  - simpl. intros u a Hin.
    apply Map_set_In in Hin as [[= -> ->]|Hin]; [lia|eauto].
Qed.

End StoreFacts.

Section LoopKinds.

Variable server : LanguageServer.
Variable readFile : string -> string.
Variables file uri : string.

(** The loop over [docSymbols] keeps every object at its address, with
    its kind and the line its lookup range starts on. *)
Lemma loop_kinds (l : list nat) (st st' : State) :
  foldM (getReferences server readFile file uri) st l = Return st' ->
  forall o s, objects st !! o = Some s ->
    exists s', objects st' !! o = Some s' /\ kind s' = kind s
               /\ line (start (lookupRange s'))
                  = line (start (lookupRange s)).
Proof.
  revert st. induction l as [|a l IH]; simpl; intros st H o s Hs.
  - injection H as <-. eauto.
  - apply bind_Return in H as (st1 & H1 & H2).
    apply getReferences_moves in H1 as (sa & n & Hsa & _ & Hobj).
    destruct (decide (o = a)) as [->|Hne].
    + assert (Hs1 : objects st1 !! a = Some (advance n s)).
      { rewrite Hobj. replace sa with s by congruence.
        apply list_lookup_insert_eq. eapply lookup_lt_Some; eauto. }
      destruct (IH _ H2 _ _ Hs1) as (s' & Hs' & Hk & Hl).
      exists s'. split; [assumption|].
      destruct (advance_movedBy n s) as (_ & Hk' & _ & _ & _ & _ & Hl' & _).
      split; congruence.
    + apply (IH _ H2). rewrite Hobj.
      now rewrite list_lookup_insert_ne by congruence.
Qed.

End LoopKinds.

Section StoredFiles.

Variable cwd : string.
Variable rootPath : string.
Variable noReferences : bool.
Variable server : LanguageServer.
Variable readFile : string -> string.

Lemma getSymbols_stored (st st0 : State) (file : string)
    (received : list SymbolObject) (docSymbols : nat) :
  wellStored st ->
  getSymbols cwd rootPath server st file = (received, docSymbols, st0) ->
  wellStored st0
  /\ (forall u a, In (u, a) (symbols st0) -> a <> docSymbols).
Proof.
  unfold getSymbols. simpl. intros Hst [= <- <- <-].
  apply addDirectories_stored; [simpl; rewrite !length_app; simpl; lia|].
  split.
  - eapply wellStored_set.
    + rewrite fileURLToPath_pathToFileURL. eauto.
    + simpl. now apply list_lookup_middle.
    + apply Forall_forall. intros o Ho. simpl.
      apply list_elem_of_fmap in Ho as (x & -> & Hx).
      apply list_elem_of_filter in Hx as [Hk Hx].
      apply bool_decide_unpack in Hk.
      apply elem_of_lookup_imap in Hx as (i & s & -> & Hi).
      exists s. split; [|exact Hk]. simpl.
      rewrite lookup_app_r by lia.
      now replace (length (objects st) + i - length (objects st)) with i
        by lia.
    + apply (wellStored_step st); [ | | |exact Hst]; simpl.
      * auto.
      * intros u a Hin. destruct (Hst u a Hin) as (_ & l' & Hl' & _).
        apply lookup_lt_Some in Hl'.
        rewrite !lookup_app_l; rewrite ?length_app; simpl; try lia.
        reflexivity.
      * intros o s Hs. exists s. split; [|reflexivity].
        now apply lookup_app_l_Some.
  - simpl. intros u a Hin.
    apply Map_set_In in Hin as [[= -> ->]|Hin].
    + rewrite length_app. simpl. lia.
    + destruct (Hst u a Hin) as (_ & l' & Hl' & _).
      apply lookup_lt_Some in Hl'. lia.
Qed.

Lemma processFile_stored (st st' : State) (file : string) :
  wellStored st ->
  processFile cwd rootPath noReferences server readFile st file = Return st' ->
  wellStored st'.
Proof.
  intros Hst H.
  apply processFile_Return in H
    as (received & docSymbols & st0 & st1 & Hg & Hl & ->).
  destruct (getSymbols_stored _ _ _ _ _ Hst Hg) as [Hst0 Hfresh].
  assert (H1 : wellStored st1 /\ symbols st1 = symbols st0).
  { destruct (negb noReferences).
    - pose proof (loop_kinds _ _ _ _ _ _ _ Hl) as Hk.
      apply loop_frame in Hl as (Ha & Hs & _).
      split; [|assumption].
      apply (wellStored_step st0); [ | | |exact Hst0].
      + rewrite Hs. auto.
      + intros. now rewrite Ha.
      + intros o s Ho. destruct (Hk o s Ho) as (s' & ? & ? & _). eauto.
    - injection Hl as <-. auto. }
  destruct H1 as [Hst1 Hsym].
  apply (wellStored_step st1); [ | | |exact Hst1]; simpl.
  - auto.
  - intros u a Hin. rewrite Hsym in Hin.
    apply list_lookup_alter_ne. intros <-. exact (Hfresh u _ Hin eq_refl).
  - intros o s Hs. exists s. split; [|reflexivity].
    now apply lookup_app_l_Some.
Qed.

Lemma collect_stored (files : list string) (st : State) :
  collect cwd rootPath noReferences server readFile files = Return st ->
  wellStored st.
Proof.
  unfold collect. apply foldM_invariant.
  - intros a b a' Ha. now apply processFile_stored.
  - intros u a [].
Qed.

End StoredFiles.

(** ** From the store to the document *)

Lemma mapM_total {A B} (f : A -> result B) (l : list A) :
  (forall x, In x l -> exists y, f x = Return y) ->
  exists ys, mapM f l = Return ys.
Proof.
  induction l as [|x l IH]; simpl; intros Hf; [eauto|].
  destruct (Hf x) as [y Hy]; [auto|]. rewrite Hy. simpl.
  destruct IH as [ys Hys]; [auto|]. rewrite Hys. simpl. eauto.
Qed.

Lemma mapM_Return {A B} (f : A -> result B) (l : list A) (ys : list B) :
  mapM f l = Return ys -> Forall2 (fun x y => f x = Return y) l ys.
Proof.
  revert ys. induction l as [|x l IH]; simpl; intros ys H.
  - injection H as <-. constructor.
  - apply bind_Return in H as (y & Hy & H).
    apply bind_Return in H as (ys' & Hys & H). injection H as <-.
    constructor; auto.
Qed.

Lemma readArray_stored (st : State) (a : nat) (l : list nat) :
  arrays st !! a = Some l -> nodeObjects st l ->
  exists os,
    readArray st a = Return os /\ map addr os = l
    /\ Forall (fun o => is_Some (getGXLSymbolKind (val o))) os.
Proof.
  unfold readArray, nodeObjects. intros -> Hl.
  induction Hl as [|o l (s & Hs & Hk) Hl (os & Hos & Hmap & Hkinds)]; simpl.
  - exists []. auto.
  - unfold readObject at 1. rewrite Hs. simpl. rewrite Hos. simpl.
    exists (mkObject o s :: os). simpl. split; [reflexivity|].
    split; [now rewrite Hmap|]. now constructor.
Qed.

Lemma findReferencingSymbol_total (st : State) (reference : Location) :
  wellStored st -> exists r, findReferencingSymbol st reference = Return r.
Proof.
  intros Hst. unfold findReferencingSymbol.
  destruct (Map.get (symbols st) (uri reference)) as [a|] eqn:Ha; [|eauto].
  apply Map_get_In in Ha. destruct (Hst _ _ Ha) as (_ & l & Hl & Hgood).
  destruct (readArray_stored _ _ _ Hl Hgood) as (os & -> & _). simpl. eauto.
Qed.

Lemma referencingSymbolsOf_total (st : State) (references : list Location) :
  wellStored st -> exists r, referencingSymbolsOf st references = Return r.
Proof.
  intros Hst. unfold referencingSymbolsOf. apply foldM_total.
  intros acc reference _.
  destruct (findReferencingSymbol_total st reference Hst) as [[r|] ->];
    simpl; eauto.
Qed.

(** [symbolToSymbolReferences] gets the keys of [allReferences], in the
    same order. *)
Lemma resolveReferences_total (st : State) :
  wellStored st -> NoDup (Map.keys (allReferences st)) ->
  exists m,
    resolveReferences st = Return m
    /\ Map.keys m = Map.keys (allReferences st).
Proof.
  intros Hst. unfold resolveReferences.
  assert (Hgen : forall l acc,
    NoDup (Map.keys l) ->
    (forall k, In k (Map.keys l) -> ~ In k (Map.keys acc)) ->
    exists m,
      foldM (fun symbolToSymbolReferences
                 '((definitionSymbol, references) : nat * list Location) =>
               try! referencingSymbols := referencingSymbolsOf st references in
               Return (Map.set symbolToSymbolReferences definitionSymbol
                         referencingSymbols)) acc l = Return m
      /\ Map.keys m = Map.keys acc ++ Map.keys l).
  { induction l as [|[k refs] l IH]; simpl; intros acc Hnd Hfresh.
    - exists acc. now rewrite app_nil_r.
    - destruct (referencingSymbolsOf_total st refs Hst) as [r ->]. simpl.
      apply NoDup_cons in Hnd as [Hk Hnd].
      destruct (IH (Map.set acc k r) Hnd) as (m & Hm & Hkeys).
      + intros k' Hk'. rewrite Map_set_keys. unfold Map.has.
        assert (Hacc : Map.get acc k = None).
        { apply Map_get_None_keys. apply Hfresh. now left. }
        rewrite Hacc. rewrite in_app_iff. intros [Hin|[->|[]]].
        * apply (Hfresh k'); auto.
        * apply Hk. now apply list_elem_of_In.
      + exists m. split; [assumption|]. rewrite Hkeys, Map_set_keys.
        unfold Map.has.
        replace (Map.get acc k) with (@None (list SymbolObject)).
        * now rewrite <- app_assoc.
        * symmetry. apply Map_get_None_keys. apply Hfresh. now left. }
  intros Hnd. destruct (Hgen (allReferences st) [] Hnd) as (m & Hm & Hkeys).
  - intros k _ [].
  - eauto.
Qed.

Section RecordedOnce.

Variable cwd : string.
Variable rootPath : string.
Variable noReferences : bool.
Variable server : LanguageServer.
Variable readFile : string -> string.

Lemma loop_recorded_once (file uri : string) (l : list nat)
    (st st' : State) :
  foldM (getReferences server readFile file uri) st l = Return st' ->
  NoDup (Map.keys (allReferences st)) ->
  NoDup (Map.keys (allReferences st')).
Proof.
  intros H Hst. revert H.
  apply (foldM_invariant (fun st => NoDup (Map.keys (allReferences st))));
    [|exact Hst].
  intros a b a' Ha H.
  apply getReferences_Return in H as (s & _ & [->|H]); [assumption|].
  destruct H as (lineContent & s' & _ & _ & _ & ->). simpl.
  now apply Map_set_NoDup.
Qed.

Lemma collect_recorded_once (files : list string) (st : State) :
  collect cwd rootPath noReferences server readFile files = Return st ->
  NoDup (Map.keys (allReferences st)).
Proof.
  unfold collect.
  apply (foldM_invariant (fun st => NoDup (Map.keys (allReferences st))));
    [|constructor].
  intros st0 file st' Hst0 H.
  apply processFile_Return in H
    as (received & docSymbols & st1 & st2 & Hg & Hl & ->).
  apply getSymbols_Return in Hg as (_ & _ & _ & _ & Hr & _). simpl.
  destruct (negb noReferences).
  - eapply loop_recorded_once; [exact Hl|]. now rewrite Hr.
  - injection Hl as <-. now rewrite Hr.
Qed.

Lemma collect_keysBounded (files : list string) (st : State) :
  collect cwd rootPath noReferences server readFile files = Return st ->
  keysBounded st.
Proof.
  unfold collect. intros H.
  apply collect_from_keys in H as (_ & _ & Hb). apply Hb.
  intros k _. reflexivity.
Qed.

End RecordedOnce.

Section MainFacts.

Variable objectId : HashInput -> string.
Variable cwd : string.
Variable rootPath : string.
Variable noReferences : bool.
Variable server : LanguageServer.
Variable readFile : string -> string.

(** Once the loop over the files has returned, nothing fails before
    [asGXL] is called, and [asGXL] gets file URLs with lists of symbols
    that produce nodes. *)
Lemma main_after_collect (files : list string) (st : State) :
  collect cwd rootPath noReferences server readFile files = Return st ->
  exists symbolsByFile references,
    main objectId cwd rootPath noReferences server readFile files
    = asGXL objectId cwd symbolsByFile references rootPath
    /\ fileURLs symbolsByFile
    /\ Forall2 (fun e e' =>
                  fst e' = fst e
                  /\ arrays st !! snd e = Some (map addr (snd e'))
                  /\ Forall (fun o => is_Some (getGXLSymbolKind (val o)))
                       (snd e'))
         (symbols st) symbolsByFile
    /\ map (fun e => addr (fst e)) references = Map.keys (allReferences st).
Proof.
  intros Hc. unfold main. rewrite Hc. simpl.
  pose proof (collect_stored _ _ _ _ _ _ _ Hc) as Hst.
  pose proof (collect_recorded_once _ _ _ _ _ _ _ Hc) as Hnd.
  pose proof (collect_keysBounded _ _ _ _ _ _ _ Hc) as Hb.
  destruct (resolveReferences_total st Hst Hnd) as (m & -> & Hkeys). simpl.
  destruct (mapM_total
              (fun '((u, array) : string * nat) =>
                 try! l := readArray st array in Return (u, l))
              (symbols st)) as [sbf Hsbf].
  { intros [u a] Hin. destruct (Hst u a Hin) as (_ & l & Hl & Hgood).
    destruct (readArray_stored _ _ _ Hl Hgood) as (os & -> & _).
    simpl. eauto. }
  destruct (mapM_total
              (fun '((k, l) : nat * list SymbolObject) =>
                 try! o := readObject st k in Return (o, l)) m)
    as [refs Hrefs].
  { intros [k l] Hin. unfold readObject.
    destruct (objects st !! k) as [s|] eqn:Hs; simpl; [eauto|].
    exfalso. apply lookup_ge_None in Hs. apply Hb in Hs.
    apply Map_get_None_keys in Hs. apply Hs. rewrite <- Hkeys.
    unfold Map.keys. apply in_map_iff. exists (k, l). auto. }
  rewrite Hsbf, Hrefs. simpl. exists sbf, refs.
  split; [reflexivity|].
  apply mapM_Return in Hsbf. apply mapM_Return in Hrefs.
  assert (Hshape : Forall2 (fun e e' =>
            fst e' = fst e
            /\ arrays st !! snd e = Some (map addr (snd e'))
            /\ Forall (fun o => is_Some (getGXLSymbolKind (val o)))
                 (snd e')) (symbols st) sbf).
  { assert (Hin : forall e, In e (symbols st) -> In e (symbols st)) by auto.
    revert Hin Hsbf. generalize (symbols st) at 1 3 4.
    intros l0 Hin Hsbf.
    induction Hsbf as [|[u a] [u' os] l1 sbf Hx Hsbf IH]; constructor.
    - destruct (Hst u a) as (_ & l' & Hl' & Hgood); [apply Hin; now left|].
      destruct (readArray_stored _ _ _ Hl' Hgood) as (os' & Hos' & Hmap & Hk).
      rewrite Hos' in Hx. simpl in Hx. injection Hx as <- <-. simpl.
      rewrite Hmap. auto.
    - apply IH. intros e He. apply Hin. now right. }
  split; [|split; [exact Hshape|]].
  - unfold fileURLs. apply Forall_forall. intros [u os] Hin.
    apply list_elem_of_lookup in Hin as [i Hi].
    destruct (Forall2_lookup_r _ _ _ _ _ Hshape Hi) as ([u' a] & Hi' & Hu & _).
    simpl in Hu. subst u'. apply list_elem_of_lookup_2, list_elem_of_In in Hi'.
    destruct (Hst u a Hi') as [Hurl _]. exact Hurl.
  - rewrite <- Hkeys. unfold Map.keys. clear - Hrefs.
    induction Hrefs as [|[k l] [o l'] m refs Hx Hrefs IH]; [reflexivity|].
    simpl. rewrite IH. f_equal. unfold readObject in Hx.
    destruct (objects st !! k); simpl in Hx; [|discriminate].
    now injection Hx as <- _.
Qed.

End MainFacts.

(** ** When the loop over the files fails *)

Lemma foldM_Throw_invariant {A B} (P : A -> Prop) (f : A -> B -> result A) :
  (forall a b a', P a -> f a b = Return a' -> P a') ->
  forall l a e, P a -> foldM f a l = Throw e ->
  exists a' b, P a' /\ In b l /\ f a' b = Throw e.
Proof.
  intros Hstep l. induction l as [|b l IH]; simpl; intros a e Ha H;
    [discriminate|].
  destruct (f a b) as [a1|e1] eqn:Hf; simpl in H.
  - destruct (IH a1 e (Hstep _ _ _ Ha Hf) H) as (a' & b' & Ha' & Hin & Hb).
    eauto 6.
  - injection H as ->. eauto 6.
Qed.

Section Failures.

Variable cwd : string.
Variable rootPath : string.
Variable noReferences : bool.
Variable server : LanguageServer.
Variable readFile : string -> string.

Local Abbreviation response file :=
  (default [] (documentSymbolResult server (url.pathToFileURL cwd file))).

(** The object at [base + i] is the [i]-th symbol of the response, up to
    the column its lookup range starts at. *)
Local Abbreviation received base file st :=
  (forall i s, response file !! i = Some s ->
     exists s', objects st !! (base + i) = Some s' /\ kind s' = kind s
                /\ line (start (lookupRange s'))
                   = line (start (lookupRange s))).

Lemma getReferences_Throw (file uri : string) (st : State) (a : nat)
    (e : Error) :
  getReferences server readFile file uri st a = Throw e ->
  e = TypeError
  /\ (objects st !! a = None
      \/ exists s, objects st !! a = Some s
                   /\ is_Some (getGXLSymbolKind s)
                   /\ declarationLine readFile file s = None).
Proof.
  unfold getReferences, readObject, declarationLine.
  destruct (objects st !! a) as [s|]; simpl; [|intros [= <-]; auto].
  destruct (getGXLSymbolKind s) as [type|] eqn:Hk; [|discriminate].
  destruct (JS.split newline (readFile file) !! _) eqn:Hline.
  - destruct (JS.testImport _); discriminate.
  - intros [= <-]. split; [reflexivity|]. right. exists s.
    rewrite Hk. eauto.
Qed.

Lemma getReferences_off_file (file uri : string) (st : State) (a : nat)
    (s : LSPSymbol) :
  objects st !! a = Some s -> is_Some (getGXLSymbolKind s) ->
  declarationLine readFile file s = None ->
  getReferences server readFile file uri st a = Throw TypeError.
Proof.
  unfold getReferences, readObject, declarationLine.
  intros Hs [type Hk] Hline. rewrite Hs. simpl. now rewrite Hk, Hline.
Qed.

Lemma getReferences_received (file uri : string) (st st' : State) (a : nat)
    (base : nat) (file' : string) :
  getReferences server readFile file uri st a = Return st' ->
  received base file' st -> received base file' st'.
Proof.
  intros H Hst i s Hi. destruct (Hst i s Hi) as (s1 & Hs1 & Hk & Hl).
  assert (H' : foldM (getReferences server readFile file uri) st [a]
               = Return st') by (simpl; now rewrite H).
  destruct (loop_kinds _ _ _ _ _ _ _ H' _ _ Hs1) as (s2 & Hs2 & Hk2 & Hl2).
  exists s2. split; [assumption|]. split; congruence.
Qed.

Lemma getSymbols_received (st st0 : State) (file : string)
    (objs : list SymbolObject) (docSymbols : nat) :
  getSymbols cwd rootPath server st file = (objs, docSymbols, st0) ->
  map addr objs = seq (length (objects st)) (length (response file))
  /\ received (length (objects st)) file st0.
Proof.
  intros H. apply getSymbols_Return in H as (-> & _ & (extra & Ho) & _).
  split; [apply received_addresses|].
  intros i s Hi. exists s. split; [|auto].
  rewrite Ho, lookup_app_r by lia.
  replace (length (objects st) + i - length (objects st)) with i by lia.
  now apply lookup_app_l_Some.
Qed.

Lemma processFile_Throw (st : State) (file : string) (e : Error) :
  processFile cwd rootPath noReferences server readFile st file = Throw e
  <-> exists objs docSymbols st0,
        getSymbols cwd rootPath server st file = (objs, docSymbols, st0)
        /\ noReferences = false
        /\ foldM (getReferences server readFile file
                    (url.pathToFileURL cwd file)) st0 (map addr objs)
           = Throw e.
Proof.
  unfold processFile.
  destruct (getSymbols cwd rootPath server st file) as [[objs d] st0].
  destruct noReferences; simpl.
  - split; [discriminate|]. intros (? & ? & ? & _ & ? & _). congruence.
  - destruct (foldM _ st0 (map addr objs)) as [st1|e1] eqn:Hl; simpl.
    + split; [discriminate|].
      intros (? & ? & ? & [= <- <- <-] & _ & ?). congruence.
    + split.
      * intros [= ->]. eauto 7.
      * intros (? & ? & ? & [= <- <- <-] & _ & H). congruence.
Qed.

Lemma loop_off_file (file uri : string) (base i : nat) (s : LSPSymbol)
    (l : list nat) (st : State) :
  response file !! i = Some s -> is_Some (getGXLSymbolKind s) ->
  declarationLine readFile file s = None ->
  received base file st -> In (base + i) l ->
  foldM (getReferences server readFile file uri) st l = Throw TypeError.
Proof.
  intros Hi Hk Hline. revert st.
  induction l as [|a l IH]; simpl; intros st Hst Hin; [contradiction|].
  destruct (getReferences server readFile file uri st a) as [st1|e1] eqn:H1;
    simpl.
  - destruct Hin as [->|Hin].
    + destruct (Hst i s Hi) as (s' & Hs' & Hk' & Hl').
      rewrite (getReferences_off_file file uri st (base + i) s') in H1;
        [discriminate|assumption| |].
      * eapply kind_producesNode; eauto.
      * unfold declarationLine in *. now rewrite Hl'.
    + apply IH; [|assumption]. eapply getReferences_received; eauto.
  - now apply getReferences_Throw in H1 as [-> _].
Qed.

Lemma loop_Throw (file uri : string) (base : nat) (st : State) (e : Error) :
  received base file st ->
  foldM (getReferences server readFile file uri) st
    (seq base (length (response file))) = Throw e ->
  e = TypeError /\ declaredOffFile cwd server readFile file.
Proof.
  intros Hst H.
  apply (foldM_Throw_invariant (fun st => received base file st)) in H
    as (st' & a & Hst' & Hin & H); [| |exact Hst].
  2:{ intros st1 a st2 H1 H2. eapply getReferences_received; eauto. }
  apply getReferences_Throw in H as [-> H]. split; [reflexivity|].
  apply in_seq in Hin as [Hge Hlt].
  destruct (lookup_lt_is_Some_2 (response file) (a - base)) as [s Hs];
    [lia|].
  destruct (Hst' _ _ Hs) as (s' & Hs' & Hk' & Hl').
  replace (base + (a - base)) with a in Hs' by lia.
  destruct H as [H|(s1 & Hs1 & Hk1 & Hline)]; [congruence|].
  replace s1 with s' in * by congruence.
  exists (a - base), s. split; [assumption|]. split.
  - eapply kind_producesNode; [symmetry|]; eauto.
  - unfold declarationLine in *. now rewrite <- Hl'.
Qed.

Lemma processFile_throws (st : State) (file : string) (e : Error) :
  processFile cwd rootPath noReferences server readFile st file = Throw e
  <-> e = TypeError /\ noReferences = false
      /\ declaredOffFile cwd server readFile file.
Proof.
  rewrite processFile_Throw. split.
  - intros (objs & d & st0 & Hg & Hno & Hl).
    apply getSymbols_received in Hg as [Haddr Hst0]. rewrite Haddr in Hl.
    apply loop_Throw in Hl as [-> Hoff]; auto.
  - intros (-> & Hno & i & s & Hi & Hk & Hline).
    destruct (getSymbols cwd rootPath server st file) as [[objs d] st0] eqn:Hg.
    exists objs, d, st0. split; [reflexivity|]. split; [assumption|].
    apply getSymbols_received in Hg as [Haddr Hst0]. rewrite Haddr.
    eapply loop_off_file; eauto.
    apply in_seq. apply lookup_lt_Some in Hi. lia.
Qed.

Lemma collect_throws (files : list string) (e : Error) :
  collect cwd rootPath noReferences server readFile files = Throw e
  <-> e = TypeError /\ noReferences = false
      /\ exists file, In file files
                      /\ declaredOffFile cwd server readFile file.
Proof.
  unfold collect. split.
  - intros H. apply foldM_Throw in H as (st & file & Hin & H).
    apply processFile_throws in H as (-> & Hno & Hoff). eauto.
  - intros (-> & Hno & file & Hin & Hoff).
    destruct (foldM _ initialState files) as [st|e] eqn:H.
    + destruct (foldM_Return_in _ _ _ Hin _ _ H) as (a1 & a2 & H1).
      assert (H2 : processFile cwd rootPath noReferences server readFile
                     a1 file = Throw TypeError)
        by (apply processFile_throws; auto).
      congruence.
    + apply foldM_Throw in H as (st & file' & _ & H).
      now apply processFile_throws in H as (-> & _).
Qed.

End Failures.

(** X10. The loop over the files fails exactly when references are looked
    up and the server reports, for one of the files, a symbol of a kind
    that produces a node on a line that the file does not have; it then
    fails with a [TypeError], whatever else the server answers. *)
Theorem file_loop_fails_iff
    (cwd rootPath : string) (noReferences : bool) (server : LanguageServer)
    (readFile : string -> string) (files : list string) (e : Error) :
  collect cwd rootPath noReferences server readFile files = Throw e
  <-> e = TypeError /\ noReferences = false
      /\ exists file, In file files
                      /\ declaredOffFile cwd server readFile file.
Proof. apply collect_throws. Qed.

Lemma no_dependency_edges (l : list Element) :
  filter (fun e => isDependencyEdge e = true) l = [] ->
  forallb (fun e => negb (isDependencyEdge e)) l = true.
Proof.
  intros H. apply forallb_forall. intros x Hx.
  destruct (isDependencyEdge x) eqn:Hdep; [|reflexivity].
  assert (Hin : x ∈ filter (fun e => isDependencyEdge e = true) l).
  { apply list_elem_of_filter. split; [assumption|].
    now apply list_elem_of_In. }
  rewrite H in Hin. inversion Hin.
Qed.

(** X11. [main] fails in two ways only: with the [TypeError] of the loop
    over the files, for a symbol reported on a line its file does not
    have, or, after that loop has finished, with the dangling-edge error
    of [asGXL]. The resolution of the references, the reading of the store
    and the conversion of the document URIs never fail. *)
Theorem main_errors
    (objectId : HashInput -> string) (cwd rootPath : string)
    (noReferences : bool) (server : LanguageServer)
    (readFile : string -> string) (files : list string) (e : Error) :
  main objectId cwd rootPath noReferences server readFile files = Throw e ->
  (e = TypeError /\ noReferences = false
   /\ exists file, In file files /\ declaredOffFile cwd server readFile file)
  \/ (e = DanglingEdge
      /\ exists st,
           collect cwd rootPath noReferences server readFile files
           = Return st).
Proof.
  intros H.
  destruct (collect cwd rootPath noReferences server readFile files)
    as [st|e1] eqn:Hc.
  - right.
    destruct (main_after_collect objectId _ _ _ _ _ _ _ Hc)
      as (sbf & refs & Hmain & Hurls & _).
    rewrite Hmain in H. split; [|eauto]. unfold asGXL in H.
    destruct (build_total objectId cwd sbf refs rootPath Hurls) as [b Hb].
    rewrite Hb in H. simpl in H.
    destruct (verify b) as [[]|e2] eqn:Hv; simpl in H; [discriminate|].
    injection H as <-. eapply verify_Throw; eauto.
  - left. unfold main in H. rewrite Hc in H. simpl in H. injection H as <-.
    now apply collect_throws in Hc.
Qed.

Lemma main_errors_run :
  exists e,
    main Digest.objectId Scenario.cwd Scenario.rootPath false
      Scenario.classServer Scenario.classText [Scenario.file] = Throw e
    /\ ((e = TypeError /\ false = false
         /\ exists file,
              In file [Scenario.file]
              /\ declaredOffFile Scenario.cwd Scenario.classServer
                   Scenario.classText file)
        \/ (e = DanglingEdge
            /\ exists st,
                 collect Scenario.cwd Scenario.rootPath false
                   Scenario.classServer Scenario.classText [Scenario.file]
                 = Return st)).
Proof.
  destruct (main Digest.objectId Scenario.cwd Scenario.rootPath false
              Scenario.classServer Scenario.classText [Scenario.file])
    as [d|e] eqn:H.
  - vm_compute in H. discriminate.
  - exists e. split; [reflexivity|].
    exact (main_errors _ _ _ _ _ _ _ _ H).
Defined.

(** X12. With [noReferences] the loop over the files always finishes: it
    sends one document-symbol request for every file, in the order of the
    files, and nothing else, and records no references. *)
Theorem collect_without_references
    (cwd rootPath : string) (server : LanguageServer)
    (readFile : string -> string) (files : list string) :
  exists st,
    collect cwd rootPath true server readFile files = Return st
    /\ requests st
       = map (fun file => DocumentSymbolRequest (url.pathToFileURL cwd file))
           files
    /\ allReferences st = [].
Proof.
  unfold collect.
  assert (Hgen : forall st0, exists st,
    foldM (processFile cwd rootPath true server readFile) st0 files
    = Return st
    /\ requests st
       = requests st0
         ++ map (fun file =>
                   DocumentSymbolRequest (url.pathToFileURL cwd file)) files
    /\ allReferences st = allReferences st0).
  { induction files as [|file l IH]; intros st0; cbn [foldM map].
    - exists st0. now rewrite app_nil_r.
    - destruct (processFile cwd rootPath true server readFile st0 file)
        as [st1|e] eqn:H1.
      2:{ apply processFile_throws in H1 as (_ & ? & _). discriminate. }
      simpl. destruct (IH st1) as (st & Hst & Hreq & Hrefs).
      exists st. split; [assumption|].
      apply processFile_Return in H1
        as (objs & d & st2 & st3 & Hg & Hl & ->).
      simpl in Hl. injection Hl as <-.
      apply getSymbols_Return in Hg as (_ & _ & _ & _ & Hr & Hq).
      simpl in Hreq, Hrefs. rewrite Hreq, Hrefs, Hq, Hr.
      now rewrite <- app_assoc. }
  destruct (Hgen initialState) as (st & Hst & Hreq & Hrefs). eauto.
Qed.

(** X13. With [noReferences], [main] always returns a document, and the
    document has no [Source_Dependency] edge. *)
Theorem main_without_references
    (objectId : HashInput -> string) (cwd rootPath : string)
    (server : LanguageServer) (readFile : string -> string)
    (files : list string) :
  exists d,
    main objectId cwd rootPath true server readFile files = Return d
    /\ forallb (fun e => negb (isDependencyEdge e)) (elements d) = true.
Proof.
  destruct (collect_without_references cwd rootPath server readFile files)
    as (st & Hc & _ & Hrefs).
  destruct (main_after_collect objectId _ _ _ _ _ _ _ Hc)
    as (sbf & refs & -> & Hurls & _ & Hkeys).
  rewrite Hrefs in Hkeys. destruct refs; [|discriminate].
  destruct (build_total objectId cwd sbf [] rootPath Hurls) as [b Hb].
  assert (Hno : ~ recordsDependency sbf []).
  { intros (? & ? & ? & ? & ? & _ & _ & _ & H). discriminate. }
  pose proof (build_no_edges _ _ _ _ _ _ Hno Hb) as He.
  unfold asGXL. rewrite Hb. simpl.
  replace (verify b) with (Return tt).
  - simpl. eexists. split; [reflexivity|]. simpl.
    apply no_dependency_edges.
    rewrite (recorded _ _ (build_consistent _ _ _ _ _ _ Hb)).
    now rewrite He.
  - symmetry. apply verify_Return. unfold endsKnown. rewrite He. constructor.
Qed.

(** X14. After the loop over the files every entry of the store is under
    a file URL that [fileURLToPath] accepts, and its list holds only
    symbols of kinds that produce a node: the symbols of the other kinds,
    whatever the server sends, are in no list of the store. *)
Theorem store_holds_node_symbols
    (cwd rootPath : string) (noReferences : bool) (server : LanguageServer)
    (readFile : string -> string) (files : list string) (st : State) :
  collect cwd rootPath noReferences server readFile files = Return st ->
  wellStored st.
Proof. apply collect_stored. Qed.

Lemma store_holds_node_symbols_run :
  exists st,
    collect Scenario.cwd Scenario.rootPath false Scenario.importServer
      Scenario.importText [Scenario.file] = Return st
    /\ wellStored st.
Proof.
  destruct (collect Scenario.cwd Scenario.rootPath false
              Scenario.importServer Scenario.importText [Scenario.file])
    as [st|e] eqn:H.
  - exists st. split; [reflexivity|].
    exact (store_holds_node_symbols _ _ _ _ _ _ _ H).
  - vm_compute in H. discriminate.
Defined.

Section Stored.

Variable objectId : HashInput -> string.
Variable cwd : string.
Variable rootPath : string.
Variable noReferences : bool.
Variable server : LanguageServer.
Variable readFile : string -> string.

Lemma processFile_parts (st st' : State) (file : string) :
  wellStored st ->
  processFile cwd rootPath noReferences server readFile st file = Return st' ->
  exists objs docSymbols st0 st1,
    getSymbols cwd rootPath server st file = (objs, docSymbols, st0)
    /\ wellStored st1
    /\ symbols st1 = symbols st0 /\ arrays st1 = arrays st0
    /\ (forall u a, In (u, a) (symbols st1) -> a <> docSymbols)
    /\ st' =
       push docSymbols (length (objects st1))
         (snd (newObject
                 (SymbolInformation
                    (path.basename (path.relative cwd rootPath file)) SkFile
                    {| uri := url.pathToFileURL cwd file; range := zeroRange |}
                    (Some (path.basename
                             (path.join (path.relative cwd rootPath file)
                                ".."))))
                 st1)).
Proof.
  intros Hst H.
  apply processFile_Return in H
    as (objs & docSymbols & st0 & st1 & Hg & Hl & ->).
  destruct (getSymbols_stored _ _ _ _ _ _ _ _ Hst Hg) as [Hst0 Hfresh].
  exists objs, docSymbols, st0, st1. split; [assumption|].
  assert (H1 : wellStored st1 /\ symbols st1 = symbols st0
               /\ arrays st1 = arrays st0).
  { destruct (negb noReferences).
    - pose proof (loop_kinds _ _ _ _ _ _ _ Hl) as Hk.
      apply loop_frame in Hl as (Ha & Hs & _).
      split; [|auto].
      apply (wellStored_step st0); [ | | |exact Hst0].
      + rewrite Hs. auto.
      + intros. now rewrite Ha.
      + intros o s Ho. destruct (Hk o s Ho) as (s' & ? & ? & _). eauto.
    - injection Hl as <-. auto. }
  destruct H1 as (Hst1 & Hsym & Harr).
  split; [assumption|]. split; [assumption|]. split; [assumption|].
  split; [|reflexivity]. rewrite Hsym. exact Hfresh.
Qed.

Lemma omap_length_all {A B} (f : A -> option B) (l : list A) :
  Forall (fun x => is_Some (f x)) l -> length (omap f l) = length l.
Proof.
  induction 1 as [|x l [y Hy] Hl IH]; [reflexivity|].
  change (omap f (x :: l))
    with (match f x with Some y => y :: omap f l | None => omap f l end).
  rewrite Hy. simpl. now rewrite IH.
Qed.

Lemma main_node_count (files : list string) (st : State) (d : Document) :
  collect cwd rootPath noReferences server readFile files = Return st ->
  main objectId cwd rootPath noReferences server readFile files = Return d ->
  length (filter (fun e => isNode e = true) (elements d))
  = length (storedAddresses st).
Proof.
  intros Hc Hd.
  destruct (main_after_collect objectId _ _ _ _ _ _ _ Hc)
    as (sbf & refs & Hmain & _ & Hshape & _).
  rewrite Hmain in Hd. apply asGXL_Return in Hd as (b & Hb & _ & ->).
  rewrite (build_nodes _ _ _ _ _ _ Hb).
  unfold storedAddresses, storedSymbols. clear Hmain Hb.
  induction Hshape as [|[u a] [u' os] l sbf' (_ & Ha & Hk) Hshape IH];
    [reflexivity|].
  simpl in *. rewrite omap_app, !length_app, IH. f_equal.
  rewrite Ha. simpl. rewrite omap_length_all.
  - now rewrite !length_map.
  - apply Forall_forall. intros x Hx.
    apply list_elem_of_fmap in Hx as (o & -> & Ho).
    rewrite Forall_forall in Hk. destruct (Hk o Ho) as [type Ht].
    unfold nodeOf. simpl. rewrite Ht. simpl. eauto.
Qed.

End Stored.

(** X15. A document that [main] returns has exactly one node for every
    element of every list of the store, counted with repetition. *)
Theorem main_one_node_per_stored_symbol
    (objectId : HashInput -> string) (cwd rootPath : string)
    (noReferences : bool) (server : LanguageServer)
    (readFile : string -> string) (files : list string) (st : State)
    (d : Document) :
  collect cwd rootPath noReferences server readFile files = Return st ->
  main objectId cwd rootPath noReferences server readFile files = Return d ->
  length (filter (fun e => isNode e = true) (elements d))
  = length (storedAddresses st).
Proof. apply main_node_count. Qed.

Lemma main_one_node_per_stored_symbol_run :
  exists st d,
    collect Scenario.cwd Scenario.rootPath true Scenario.classServer
      Scenario.classText [Scenario.file] = Return st
    /\ main Digest.objectId Scenario.cwd Scenario.rootPath true
         Scenario.classServer Scenario.classText [Scenario.file] = Return d
    /\ length (filter (fun e => isNode e = true) (elements d))
       = length (storedAddresses st).
Proof.
  destruct (collect Scenario.cwd Scenario.rootPath true Scenario.classServer
              Scenario.classText [Scenario.file]) as [st|e] eqn:Hc;
    [|vm_compute in Hc; discriminate].
  destruct (main Digest.objectId Scenario.cwd Scenario.rootPath true
              Scenario.classServer Scenario.classText [Scenario.file])
    as [d|e] eqn:Hd; [|vm_compute in Hd; discriminate].
  exists st, d. split; [reflexivity|]. split; [reflexivity|].
  exact (main_one_node_per_stored_symbol _ _ _ _ _ _ _ _ _ Hc Hd).
Defined.

Section Requests.

Variable cwd : string.
Variable rootPath : string.
Variable noReferences : bool.
Variable server : LanguageServer.
Variable readFile : string -> string.

Lemma references_requests (uri : string) (P : Position -> Prop)
    (new : list Request) :
  Forall (fun r => exists p, r = ReferencesRequest uri p /\ P p) new ->
  exists positions,
    new = map (ReferencesRequest uri) positions /\ Forall P positions.
Proof.
  induction 1 as [|r new (p & -> & Hp) _ (ps & -> & Hps)].
  - exists []. auto.
  - exists (p :: ps). auto.
Qed.

Lemma processFile_requests (st st' : State) (file : string) :
  processFile cwd rootPath noReferences server readFile st file = Return st' ->
  exists positions,
    requests st' = requests st ++ requestsFor cwd file positions
    /\ Forall (fun p => exists lineContent,
                 JS.split newline (readFile file) !! line p = Some lineContent
                 /\ JS.testImport lineContent = false) positions
    /\ (noReferences = true -> positions = []).
Proof.
  intros H.
  apply processFile_Return in H as (objs & d & st0 & st1 & Hg & Hl & ->).
  apply getSymbols_Return in Hg as (_ & _ & _ & _ & _ & Hq). simpl.
  destruct noReferences; simpl in Hl.
  - injection Hl as <-. exists []. rewrite Hq. auto.
  - apply loop_requests in Hl as (new & Hnew & Hall).
    destruct (references_requests (url.pathToFileURL cwd file)
                (fun p => exists lineContent,
                   JS.split newline (readFile file) !! line p
                   = Some lineContent
                   /\ JS.testImport lineContent = false) new)
      as (positions & -> & Hps).
    { eapply Forall_impl; [exact Hall|].
      intros r (p & lineContent & -> & Hp). eauto. }
    exists positions. rewrite Hnew, Hq. unfold requestsFor.
    rewrite <- app_assoc. split; [reflexivity|]. split; [assumption|].
    discriminate.
Qed.

Lemma collect_requests (files : list string) (st0 st : State) :
  foldM (processFile cwd rootPath noReferences server readFile) st0 files
  = Return st ->
  exists positions,
    Forall2 (fun file ps =>
               Forall (fun p => exists lineContent,
                         JS.split newline (readFile file) !! line p
                         = Some lineContent
                         /\ JS.testImport lineContent = false) ps)
      files positions
    /\ requests st
       = requests st0 ++ concat (zip_with (requestsFor cwd) files positions).
Proof.
  revert st0. induction files as [|file l IH]; cbn [foldM]; intros st0 H.
  - injection H as <-. exists []. split; [constructor|].
    simpl. now rewrite app_nil_r.
  - apply bind_Return in H as (st1 & H1 & H2).
    apply processFile_requests in H1 as (ps & Hreq & Hps & _).
    apply IH in H2 as (positions & Hall & Hrest).
    exists (ps :: positions). split; [now constructor|].
    rewrite Hrest, Hreq. simpl. now rewrite <- app_assoc.
Qed.

End Requests.

(** X16. The requests of a run are grouped by file, in the order of the
    files: for every file one document-symbol request, followed by the
    references requests for that file, which are all for the URI of the
    file and for positions on lines of the file that do not match the
    import pattern. *)
Theorem requests_grouped_by_file
    (cwd rootPath : string) (noReferences : bool) (server : LanguageServer)
    (readFile : string -> string) (files : list string) (st : State) :
  collect cwd rootPath noReferences server readFile files = Return st ->
  exists positions,
    Forall2 (fun file ps =>
               Forall (fun p => exists lineContent,
                         JS.split newline (readFile file) !! line p
                         = Some lineContent
                         /\ JS.testImport lineContent = false) ps)
      files positions
    /\ requests st = concat (zip_with (requestsFor cwd) files positions).
Proof.
  unfold collect. intros H.
  apply collect_requests in H as (positions & Hall & Hreq). eauto.
Qed.

Lemma requests_grouped_by_file_run :
  exists st positions,
    collect Scenario.cwd Scenario.rootPath false Scenario.fooServer
      Scenario.fooText [Scenario.file] = Return st
    /\ Forall2 (fun file ps =>
                  Forall (fun p => exists lineContent,
                            JS.split newline (Scenario.fooText file) !! line p
                            = Some lineContent
                            /\ JS.testImport lineContent = false) ps)
         [Scenario.file] positions
    /\ requests st
       = concat (zip_with (requestsFor Scenario.cwd) [Scenario.file]
                   positions).
Proof.
  destruct (collect Scenario.cwd Scenario.rootPath false Scenario.fooServer
              Scenario.fooText [Scenario.file]) as [st|e] eqn:H;
    [|vm_compute in H; discriminate].
  destruct (requests_grouped_by_file _ _ _ _ _ _ _ H)
    as (positions & Hall & Hreq).
  exists st, positions. auto.
Defined.

(** X17. After a file has been processed, the list stored under its URI
    is the list of the symbols received for it that are of a kind that
    produces a node, in the order received; neither the directory loop nor
    the lookup of references nor the [push] of the file symbol changes
    which objects it holds. *)
Theorem document_list_stored
    (cwd rootPath : string) (noReferences : bool) (server : LanguageServer)
    (readFile : string -> string) (st st' : State) (file : string) :
  processFile cwd rootPath noReferences server readFile st file = Return st' ->
  exists a,
    Map.get (symbols st') (url.pathToFileURL cwd file) = Some a
    /\ arrays st' !! a
       = Some (nodeAddresses (length (objects st))
                 (default []
                    (documentSymbolResult server
                       (url.pathToFileURL cwd file)))).
Proof.
  intros H.
  apply processFile_Return in H as (objs & d & st0 & st1 & Hg & Hl & ->).
  assert (Hs : arrays st1 = arrays st0 /\ symbols st1 = symbols st0).
  { destruct (negb noReferences).
    - apply loop_frame in Hl as (? & ? & _). auto.
    - injection Hl as <-. auto. }
  destruct Hs as [Harr Hsym]. simpl. rewrite Harr, Hsym.
  unfold getSymbols in Hg. simpl in Hg. injection Hg as _ <- <-.
  match goal with
  | |- context [addDirectories cwd rootPath ?l ?s] =>
      destruct (addDirectories_frame cwd rootPath l s)
        as (_ & (extra & Ha) & _ & _ & Hkeep)
  end.
  exists (S (length (arrays st))). split.
  - apply Hkeep. simpl. rewrite Map_get_set_eq. f_equal.
    rewrite length_app. simpl. lia.
  - rewrite list_lookup_alter_ne by lia. rewrite Ha. simpl.
    rewrite <- !app_assoc. simpl.
    replace (S (length (arrays st))) with (length (arrays st) + 1) by lia.
    rewrite lookup_app_r by lia.
    now replace (length (arrays st) + 1 - length (arrays st)) with 1 by lia.
Qed.

Lemma document_list_stored_run :
  exists st' a,
    processFile Scenario.cwd Scenario.rootPath false Scenario.importServer
      Scenario.importText initialState Scenario.file = Return st'
    /\ Map.get (symbols st') Scenario.document = Some a
    /\ arrays st' !! a = Some [0; 1].
Proof.
  destruct (processFile Scenario.cwd Scenario.rootPath false
              Scenario.importServer Scenario.importText initialState
              Scenario.file) as [st'|e] eqn:H;
    [|vm_compute in H; discriminate].
  destruct (document_list_stored _ _ _ _ _ _ _ _ H) as (a & Ha & Hl).
  exists st', a. split; [reflexivity|]. split; [exact Ha|exact Hl].
Defined.

(** X18. The [File] symbol that the loop makes for a processed file is
    the last object allocated for it, and it is in no list of the store:
    the [push] goes to the array received from the server, which the store
    does not hold. *)
Theorem file_symbol_in_no_list
    (cwd rootPath : string) (noReferences : bool) (server : LanguageServer)
    (readFile : string -> string) (st st' : State) (file : string) :
  wellStored st ->
  processFile cwd rootPath noReferences server readFile st file = Return st' ->
  exists fileObject,
    length (objects st') = S fileObject
    /\ objects st' !! fileObject = Some (fileSymbol cwd rootPath file)
    /\ forall u a l,
         In (u, a) (symbols st') -> arrays st' !! a = Some l ->
         ~ In fileObject l.
Proof.
  intros Hst H.
  apply processFile_parts in H
    as (objs & d & st0 & st1 & _ & Hst1 & _ & _ & Hfresh & ->);
    [|assumption].
  exists (length (objects st1)). simpl. split; [|split].
  - rewrite length_app. simpl. lia.
  - now apply list_lookup_middle.
  - intros u a l Hin Hl Hf.
    rewrite list_lookup_alter_ne in Hl
      by (intros <-; exact (Hfresh u _ Hin eq_refl)).
    destruct (Hst1 u a Hin) as (_ & l' & Hl' & Hgood).
    replace l' with l in * by congruence.
    unfold nodeObjects in Hgood. rewrite Forall_forall in Hgood.
    apply list_elem_of_In in Hf.
    destruct (Hgood _ Hf) as (s & Hs & _).
    apply lookup_lt_Some in Hs. lia.
Qed.

Lemma file_symbol_in_no_list_run :
  exists st' fileObject,
    processFile Scenario.cwd Scenario.rootPath false Scenario.importServer
      Scenario.importText initialState Scenario.file = Return st'
    /\ length (objects st') = S fileObject
    /\ objects st' !! fileObject
       = Some (fileSymbol Scenario.cwd Scenario.rootPath Scenario.file)
    /\ forall u a l,
         In (u, a) (symbols st') -> arrays st' !! a = Some l ->
         ~ In fileObject l.
Proof.
  destruct (processFile Scenario.cwd Scenario.rootPath false
              Scenario.importServer Scenario.importText initialState
              Scenario.file) as [st'|e] eqn:H;
    [|vm_compute in H; discriminate].
  destruct (file_symbol_in_no_list Scenario.cwd Scenario.rootPath false
              Scenario.importServer Scenario.importText initialState st'
              Scenario.file) as (o & Hlen & Ho & Hno).
  - intros u a [].
  - exact H.
  - exists st', o. auto.
Defined.

Section DirectoriesAgain.

Variable cwd : string.
Variable rootPath : string.

(** The loop creates nothing when every directory it visits has its
    entry. *)
Lemma addDirectories_present (l : list string) (st : State) :
  Forall (fun u => Map.has (symbols st) u = true)
    (visitedDirectories cwd rootPath l) ->
  addDirectories cwd rootPath l st = st.
Proof.
  induction l as [|popped remaining IH]; [reflexivity|].
  rewrite addDirectories_step. cbn [visitedDirectories]. cbv zeta.
  destruct (String.eqb popped ""); [reflexivity|].
  destruct (outsideRoot _); [reflexivity|].
  intros H. apply Forall_cons in H as [Hhas Hrest]. rewrite Hhas. auto.
Qed.

(** After the loop every directory it visited has its entry. *)
Lemma addDirectories_visited (l : list string) (st : State) :
  Forall (fun u => Map.has (symbols (addDirectories cwd rootPath l st)) u
                   = true)
    (visitedDirectories cwd rootPath l).
Proof.
  revert st. induction l as [|popped remaining IH]; intros st;
    [constructor|].
  rewrite addDirectories_step. cbn [visitedDirectories]. cbv zeta.
  destruct (String.eqb popped ""); [constructor|].
  destruct (outsideRoot _); [constructor|].
  constructor; [|apply IH].
  match goal with
  | |- Map.has (symbols (addDirectories _ _ _ ?s)) ?u = true =>
      assert (Hu : Map.has (symbols s) u = true);
      [|destruct (addDirectories_frame cwd rootPath remaining s)
          as (_ & _ & _ & _ & Hkeep)]
  end.
  - destruct (Map.has (symbols st) _) eqn:Hhas; [assumption|].
    simpl. apply Map_has_set. now left.
  - unfold Map.has in *.
    destruct (Map.get (symbols _) _) as [a|] eqn:Ha in Hu; [|discriminate].
    now rewrite (Hkeep _ _ Ha).
Qed.

End DirectoriesAgain.

(** X19. The directory loop is idempotent: run again for the same path,
    or for another file of the same directory, it finds the entry of every
    directory it visits and allocates and stores nothing. *)
Theorem directory_loop_idempotent
    (cwd rootPath : string) (reversed : list string) (st : State) :
  addDirectories cwd rootPath reversed
    (addDirectories cwd rootPath reversed st)
  = addDirectories cwd rootPath reversed st.
Proof. apply addDirectories_present, addDirectories_visited. Qed.

(** X20. The directory loop stores an entry for every directory it
    visits, and for no other URI: a URI with an entry afterwards had it
    before or is the URI of a visited directory. *)
Theorem directory_loop_entries
    (cwd rootPath : string) (reversed : list string) (st : State)
    (u : string) :
  Map.has (symbols (addDirectories cwd rootPath reversed st)) u = true
  <-> Map.has (symbols st) u = true
      \/ In u (visitedDirectories cwd rootPath reversed).
Proof.
  revert st. induction reversed as [|popped remaining IH]; intros st.
  - simpl. tauto.
  - rewrite addDirectories_step. cbn [visitedDirectories]. cbv zeta.
    destruct (String.eqb popped ""); [simpl; tauto|].
    destruct (outsideRoot _); [simpl; tauto|].
    rewrite IH. simpl.
    destruct (Map.has (symbols st) _) eqn:Hhas.
    + split; [tauto|]. intros [H|[<-|H]]; auto.
    + simpl. rewrite Map_has_set. tauto.
Qed.

(** ** The resolver *)

Lemma foldM_length {A B} (f : list A -> B -> result (list A))
    (l : list B) :
  (forall acc b acc', f acc b = Return acc' -> length acc' <= S (length acc)) ->
  forall acc acc',
    foldM f acc l = Return acc' -> length acc' <= length acc + length l.
Proof.
  intros Hf. induction l as [|b l IH]; simpl; intros acc acc' H.
  - injection H as <-. lia.
  - apply bind_Return in H as (acc1 & H1 & H2).
    apply Hf in H1. apply IH in H2. lia.
Qed.

Lemma referencingSymbolsOf_length (st : State) (references : list Location)
    (r : list SymbolObject) :
  referencingSymbolsOf st references = Return r ->
  length r <= length references.
Proof.
  unfold referencingSymbolsOf. intros H.
  apply foldM_length in H; [exact H|].
  intros acc b acc' Hb. apply bind_Return in Hb as ([o|] & _ & Hb);
    injection Hb as <-; rewrite ?length_app; simpl; lia.
Qed.

Section MapFresh.

Context {K V : Type} `{EqDecision K}.

Lemma Map_set_fresh (m : Map.t K V) (k : K) (v : V) :
  Map.get m k = None -> Map.set m k v = m ++ [(k, v)].
Proof.
  induction m as [|[k0 v0] m IH]; simpl; [reflexivity|].
  destruct (decide (k0 = k)); [discriminate|]. intros H. now rewrite IH.
Qed.

End MapFresh.

Lemma resolveReferences_each (st : State) :
  wellStored st -> NoDup (Map.keys (allReferences st)) ->
  exists m,
    resolveReferences st = Return m
    /\ Forall2 (fun e e' =>
                  fst e' = fst e
                  /\ referencingSymbolsOf st (snd e) = Return (snd e'))
         (allReferences st) m.
Proof.
  intros Hst. unfold resolveReferences.
  assert (Hgen : forall l acc,
    NoDup (Map.keys l) ->
    (forall k, In k (Map.keys l) -> ~ In k (Map.keys acc)) ->
    exists rs,
      foldM (fun symbolToSymbolReferences
                 '((definitionSymbol, references) : nat * list Location) =>
               try! referencingSymbols := referencingSymbolsOf st references in
               Return (Map.set symbolToSymbolReferences definitionSymbol
                         referencingSymbols)) acc l = Return (acc ++ rs)
      /\ Forall2 (fun e e' =>
                    fst e' = fst e
                    /\ referencingSymbolsOf st (snd e) = Return (snd e'))
           l rs).
  { induction l as [|[k refs] l IH]; simpl; intros acc Hnd Hfresh.
    - exists []. rewrite app_nil_r. split; [reflexivity|constructor].
    - destruct (referencingSymbolsOf_total st refs Hst) as [r Hr].
      rewrite Hr. simpl.
      apply NoDup_cons in Hnd as [Hk Hnd].
      assert (Hacc : Map.get acc k = None).
      { apply Map_get_None_keys. apply Hfresh. now left. }
      rewrite (Map_set_fresh _ _ _ Hacc).
      destruct (IH (acc ++ [(k, r)]) Hnd) as (rs & Hm & Hall).
      + intros k' Hk'. unfold Map.keys. rewrite map_app, in_app_iff.
        intros [Hin|[<-|[]]].
        * apply (Hfresh k'); auto.
        * apply Hk. now apply list_elem_of_In.
      + exists ((k, r) :: rs). rewrite Hm, <- app_assoc.
        split; [reflexivity|]. constructor; auto. }
  intros Hnd. destruct (Hgen (allReferences st) [] Hnd) as (m & Hm & Hall).
  - intros k _ [].
  - eauto.
Qed.

Lemma readArray_objects (st : State) (array : nat)
    (documentSymbols : list SymbolObject) :
  readArray st array = Return documentSymbols ->
  arrays st !! array = Some (map addr documentSymbols)
  /\ Forall (fun o => objects st !! addr o = Some (val o)) documentSymbols.
Proof.
  unfold readArray. destruct (arrays st !! array) as [l|]; [|discriminate].
  intros H. apply mapM_Return in H.
  induction H as [|a o l os Ho _ [IHl IHo]]; [auto|].
  unfold readObject in Ho.
  destruct (objects st !! a) as [s|] eqn:Hs; [|discriminate].
  injection Ho as <-. simpl. injection IHl as <-. auto.
Qed.

(** X21. After the loop over the files, a symbol that the resolver maps a
    reference to is always of a kind that produces a node, so that the
    branch that reports an excluded referencing symbol is never taken; and
    it is an object of the list stored for the document of the reference,
    with a declared range that contains the range of the reference. *)
Theorem resolver_returns_node_symbols
    (cwd rootPath : string) (noReferences : bool) (server : LanguageServer)
    (readFile : string -> string) (files : list string) (st : State)
    (reference : Location) (found : SymbolObject) :
  collect cwd rootPath noReferences server readFile files = Return st ->
  findReferencingSymbol st reference = Return (Some found) ->
  is_Some (getGXLSymbolKind (val found))
  /\ objects st !! addr found = Some (val found)
  /\ contains (fromPlain (declaredRange (val found)))
       (fromPlain (range reference)) = true
  /\ exists array stored,
       Map.get (symbols st) (uri reference) = Some array
       /\ arrays st !! array = Some stored /\ In (addr found) stored.
Proof.
  intros Hc. pose proof (collect_stored _ _ _ _ _ _ _ Hc) as Hst.
  unfold findReferencingSymbol.
  destruct (Map.get (symbols st) (uri reference)) as [array|] eqn:Ha;
    [|discriminate].
  intros H. apply bind_Return in H as (documentSymbols & Hr & H).
  injection H as H. apply find_some in H as [Hin Hcontains].
  destruct (readArray_objects _ _ _ Hr) as [Harr Hobj].
  rewrite Forall_forall in Hobj. apply list_elem_of_In in Hin as Hin'.
  destruct (Hst _ _ (Map_get_In _ _ _ Ha)) as (_ & l & Hl & Hgood).
  assert (Haddr : In (addr found) l).
  { replace l with (map addr documentSymbols) by congruence.
    now apply in_map. }
  unfold nodeObjects in Hgood. rewrite Forall_forall in Hgood.
  destruct (Hgood _ (proj2 (list_elem_of_In _ _) Haddr)) as (s & Hs & Hk).
  rewrite (Hobj _ Hin') in Hs. injection Hs as <-.
  split; [assumption|]. split; [auto|]. split; [assumption|].
  exists array, l. auto.
Qed.

Lemma resolver_returns_node_symbols_run :
  exists st,
    collect Scenario.cwd Scenario.rootPath false Scenario.classServer
      Scenario.classText [Scenario.file] = Return st
    /\ findReferencingSymbol st Scenario.usage
       = Return (Some (mkObject 0 Scenario.classC))
    /\ is_Some (getGXLSymbolKind Scenario.classC)
    /\ objects st !! 0 = Some Scenario.classC.
Proof.
  destruct (collect Scenario.cwd Scenario.rootPath false Scenario.classServer
              Scenario.classText [Scenario.file]) as [st|e] eqn:Hc;
    [|vm_compute in Hc; discriminate].
  assert (Hf : findReferencingSymbol st Scenario.usage
               = Return (Some (mkObject 0 Scenario.classC))).
  { pose proof Hc as H. vm_compute in H. injection H as <-.
    vm_compute. reflexivity. }
  exists st. split; [reflexivity|]. split; [exact Hf|].
  destruct (resolver_returns_node_symbols _ _ _ _ _ _ _ _ _ Hc Hf)
    as (Hk & Ho & _).
  split; [exact Hk|exact Ho].
Defined.

(** X22. After the loop over the files the resolution of the references
    never fails: [symbolToSymbolReferences] gets one entry for every entry
    of [allReferences], under the same definition and in the same order,
    and the entry holds at most one referencing symbol for every recorded
    reference (references that are in no stored symbol are dropped). *)
Theorem resolution_keeps_definitions
    (cwd rootPath : string) (noReferences : bool) (server : LanguageServer)
    (readFile : string -> string) (files : list string) (st : State) :
  collect cwd rootPath noReferences server readFile files = Return st ->
  exists symbolToSymbolReferences,
    resolveReferences st = Return symbolToSymbolReferences
    /\ Forall2 (fun e e' =>
                  fst e' = fst e
                  /\ referencingSymbolsOf st (snd e) = Return (snd e')
                  /\ length (snd e') <= length (snd e))
         (allReferences st) symbolToSymbolReferences.
Proof.
  intros Hc.
  destruct (resolveReferences_each st) as (m & Hm & Hall).
  - eapply collect_stored; eauto.
  - eapply collect_recorded_once; eauto.
  - exists m. split; [assumption|].
    eapply Forall2_impl; [exact Hall|].
    intros e e' [Hk Hr]. repeat split; try assumption.
    eapply referencingSymbolsOf_length; eauto.
Qed.

Lemma resolution_keeps_definitions_run :
  exists st symbolToSymbolReferences,
    collect Scenario.cwd Scenario.rootPath false Scenario.classServer
      Scenario.classText [Scenario.file] = Return st
    /\ resolveReferences st = Return symbolToSymbolReferences
    /\ Forall2 (fun e e' =>
                  fst e' = fst e
                  /\ referencingSymbolsOf st (snd e) = Return (snd e')
                  /\ length (snd e') <= length (snd e))
         (allReferences st) symbolToSymbolReferences.
Proof.
  destruct (collect Scenario.cwd Scenario.rootPath false Scenario.classServer
              Scenario.classText [Scenario.file]) as [st|e] eqn:H;
    [|vm_compute in H; discriminate].
  destruct (resolution_keeps_definitions _ _ _ _ _ _ _ H)
    as (m & Hm & Hall).
  exists st, m. auto.
Defined.

(** ** What a written document holds *)

Lemma asGXL_no_dependency_edges
    (objectId : HashInput -> string) (cwd : string)
    (symbolsByFile : Map.t string (list SymbolObject))
    (references : Map.t SymbolObject (list SymbolObject))
    (rootPath : string) (d : Document) :
  (forall h, hexadecimal (objectId h)) ->
  asGXL objectId cwd symbolsByFile references rootPath = Return d ->
  forallb (fun e => negb (isDependencyEdge e)) (elements d) = true.
Proof.
  intros Hhex Hd. apply asGXL_Return in Hd as (b & Hb & Hv & ->).
  pose proof (build_consistent _ _ _ _ _ _ Hb) as Hc.
  apply no_dependency_edges. rewrite (recorded _ _ Hc).
  destruct (edgeNodeIds b) as [|e l] eqn:He; [reflexivity|].
  rewrite (verify_dangling objectId b Hhex) in Hv;
    [discriminate|assumption|].
  rewrite He. discriminate.
Qed.

(** X23. Every edge of a document that [main] returns is an [Enclosing]
    edge whose target is the identifier of no node. A [Source_Dependency]
    edge is never written: whenever the resolution of the references
    leaves a referencing symbol for a stored symbol, the verification pass
    of [asGXL] throws; and the target of an [Enclosing] edge is a bare
    digest, while every node identifier contains a colon. *)
Theorem main_writes_dangling_edges_only
    (objectId : HashInput -> string) (cwd rootPath : string)
    (noReferences : bool) (server : LanguageServer)
    (readFile : string -> string) (files : list string) (d : Document)
    (from to : string) (type : GXLEdgeType) :
  (forall h, hexadecimal (objectId h)) ->
  main objectId cwd rootPath noReferences server readFile files = Return d ->
  In (edge from to type) (elements d) ->
  type = Enclosing /\ ~ In to (nodeIdsOf (elements d)).
Proof.
  intros Hhex Hd Hin.
  destruct (collect cwd rootPath noReferences server readFile files)
    as [st|e] eqn:Hc.
  2:{ unfold main in Hd. rewrite Hc in Hd. discriminate. }
  destruct (main_after_collect objectId _ _ _ _ _ _ _ Hc)
    as (sbf & refs & Hmain & _).
  rewrite Hmain in Hd.
  pose proof (asGXL_no_dependency_edges _ _ _ _ _ _ Hhex Hd) as Hno.
  rewrite forallb_forall in Hno. specialize (Hno _ Hin).
  destruct type; [discriminate|]. split; [reflexivity|].
  apply asGXL_Return in Hd as (b & Hb & _ & Hel). rewrite Hel in *.
  intros Hto.
  destruct (build_enclosing _ _ _ _ _ _ _ _ Hb Hin)
    as (uri & symbols & symbol & parent & _ & _ & _ & _ & _ & _ & ->).
  apply (build_node_ids _ _ _ _ _ _ _ Hb) in Hto.
  exact (hexadecimal_no_colon _ (Hhex _) Hto).
Qed.

Lemma main_writes_dangling_edges_only_run :
  exists d from to,
    main Digest.objectId Scenario.cwd Scenario.rootPath false Scenario.silent
      (Scenario.text []) [Scenario.file] = Return d
    /\ In (edge from to Enclosing) (elements d)
    /\ Enclosing = Enclosing /\ ~ In to (nodeIdsOf (elements d)).
Proof.
  destruct (main Digest.objectId Scenario.cwd Scenario.rootPath false
              Scenario.silent (Scenario.text []) [Scenario.file])
    as [d|e] eqn:H; [|vm_compute in H; discriminate].
  exists d, (nodeID Digest.objectId Scenario.dir1),
    (Digest.objectId (HashSymbols [Scenario.dirB])).
  assert (Hin : In (edge (nodeID Digest.objectId Scenario.dir1)
                      (Digest.objectId (HashSymbols [Scenario.dirB]))
                      Enclosing) (elements d)).
  { pose proof H as H'. vm_compute in H'. injection H' as <-.
    left. reflexivity. }
  split; [reflexivity|]. split; [exact Hin|].
  exact (main_writes_dangling_edges_only _ _ _ _ _ _ _ _ _ _ _
           objectId_hexadecimal H Hin).
Defined.

(** X24. For a root and a file below it, given by segments without
    separators, every node of a symbol stored under the URI of the file
    has the path of the file relative to the root as its [Source.Path]:
    the segments below the root, joined by the separator. *)
Theorem node_path_relative_to_root
    (objectId : HashInput -> string) (cwd : string)
    (symbolsByFile : Map.t string (list SymbolObject))
    (references : Map.t SymbolObject (list SymbolObject))
    (root below : list string) (symbols : list SymbolObject)
    (symbol : SymbolObject) (type : string) (d : Document) :
  root <> [] ->
  forallb cleanSegment root = true -> forallb cleanSegment below = true ->
  In (url.pathToFileURL cwd (absolute (root ++ below)), symbols)
    symbolsByFile ->
  In symbol symbols ->
  getGXLSymbolKind (val symbol) = Some type ->
  asGXL objectId cwd symbolsByFile references (absolute root) = Return d ->
  In (node (nodeID objectId (val symbol)) type
        {| Source_Name := name (val symbol);
           Source_Line := line (start (declaredRange (val symbol)));
           Source_Column := character (start (declaredRange (val symbol)));
           Source_Path := JS.join path.sep below |})
     (elements d).
Proof.
  intros Hne Hroot Hbelow Hin Hs Hk Hd.
  apply asGXL_Return in Hd as (b & Hb & _ & ->).
  apply build_nodes in Hb.
  match goal with
  | |- In ?n _ =>
      assert (Hn : n ∈ filter (fun e => isNode e = true) (graphElement b))
  end.
  - rewrite Hb. apply list_elem_of_omap.
    exists (url.pathToFileURL cwd (absolute (root ++ below)), symbol).
    split.
    + apply list_elem_of_In. unfold storedSymbols. apply in_flat_map.
      eexists. split; [exact Hin|]. simpl. apply in_map_iff. eauto.
    + unfold nodeOf. cbn [fst snd]. rewrite Hk. cbn [option_map].
      do 3 f_equal. rewrite pathToFileURL_absolute.
      * change (JS.slice 7 ("file://" +:+ absolute (root ++ below)))
          with (absolute (root ++ below)).
        now apply relative_below.
      * destruct root; [contradiction|discriminate].
      * now apply forallb_app_clean.
  - apply list_elem_of_filter in Hn as [_ Hn]. now apply list_elem_of_In.
Qed.

Lemma node_path_relative_to_root_run :
  exists d,
    asGXL Digest.objectId Scenario.cwd Scenario.hierarchy []
      Scenario.rootPath = Return d
    /\ In (node (nodeID Digest.objectId Scenario.docM) "Method"
             {| Source_Name := "m"; Source_Line := 5; Source_Column := 0;
                Source_Path := "c/d.py" |})
          (elements d).
Proof.
  destruct (asGXL Digest.objectId Scenario.cwd Scenario.hierarchy []
              Scenario.rootPath) as [d|e] eqn:H;
    [|vm_compute in H; discriminate].
  exists d. split; [reflexivity|].
  refine (node_path_relative_to_root Digest.objectId Scenario.cwd
            Scenario.hierarchy [] ["a"; "b"] ["c"; "d.py"] _
            (mkObject 1 Scenario.docM) "Method" d _ _ _ _ _ _ H);
    try reflexivity; try discriminate.
  - left. reflexivity.
  - right. left. reflexivity.
Defined.

(** ** The import pattern *)

Lemma prefix_import (s : string) :
  String.prefix "import" s = true <-> exists post, s = "import" +:+ post.
Proof.
  split.
  - intros H.
    do 6 (destruct s as [|? s]; [discriminate|];
          cbn [String.prefix] in H;
          match type of H with
          | (if ?d then _ else _) = _ => destruct d; [subst|discriminate]
          end).
    exists s. reflexivity.
  - intros [post ->]. lazy. now destruct post.
Qed.

Lemma testImportFrom_word (before : bool) (s : string) :
  JS.testImportFrom before s = true
  <-> exists pre post,
        s = pre +:+ "import" +:+ post
        /\ endsInWord before pre = false /\ JS.wordCharAt 0 post = false.
Proof.
  revert before. induction s as [|c s IH]; intros before.
  - split; [discriminate|]. intros ([|? ?] & post & H & _); discriminate.
  - cbn [JS.testImportFrom].
    rewrite orb_true_iff, !andb_true_iff, !negb_true_iff, IH, prefix_import.
    split.
    + intros [[[Hb [post Hs]] Hw]|(pre & post & -> & Hpre & Hpost)].
      * exists "", post. split; [exact Hs|]. split; [exact Hb|].
        rewrite Hs in Hw. exact Hw.
      * exists (String c pre), post. auto.
    + intros ([|c' pre] & post & Hs & Hpre & Hpost).
      * left. simpl in Hpre. split; [split; [assumption|eauto]|].
        change ("" +:+ "import" +:+ post) with ("import" +:+ post) in Hs.
        rewrite Hs. exact Hpost.
      * right. injection Hs as -> ->. exists pre, post. auto.
Qed.

(** X25. The test of a declaration line against the import pattern is
    true exactly when the line holds the six letters of [import] with no
    letter, digit or underscore right before them and none right after
    them; [important] and [reimport] do not count. *)
Theorem import_pattern_matches_word (lineContent : string) :
  JS.testImport lineContent = true <-> hasImportWord lineContent.
Proof. apply testImportFrom_word. Qed.

(** ** The sizes of the kinds *)

(** X26. [symbolSizes] gives every kind its place in the reversed array,
    as a string, and different kinds different places. The keys are
    compared as strings: between two symbols of kinds that produce a node
    (all two-digit places) the comparison agrees with the order of the
    places, leaves before containers, but not in general: [String], at
    place 9, comes after [Constant], at place 10. *)
Theorem symbolSizes_compared_as_strings :
  (forall k, exists n,
     sizeRank k = Some n /\ n < 26 /\ symbolSizes k = Some (pretty n))
  /\ (forall k1 k2, symbolSizes k1 = symbolSizes k2 -> k1 = k2)
  /\ (forall s1 s2 n1 n2,
        is_Some (getGXLSymbolKind s1) -> is_Some (getGXLSymbolKind s2) ->
        sizeRank (kind s1) = Some n1 -> sizeRank (kind s2) = Some n2 ->
        (keyLeb (symbolSizes (kind s1)) (symbolSizes (kind s2)) = true
         <-> n1 <= n2))
  /\ sizeRank SkString = Some 9 /\ sizeRank SkConstant = Some 10
  /\ keyLeb (symbolSizes SkString) (symbolSizes SkConstant) = false.
Proof.
  split; [|split; [|split]].
  - intros k.
    destruct k;
      match goal with
      | |- exists n, sizeRank ?k = _ /\ _ =>
          let r := eval vm_compute in (sizeRank k) in
          match r with Some ?m => exists m end
      end;
      (split; [vm_compute; reflexivity|]);
      (split; [lia|vm_compute; reflexivity]).
  - intros k1 k2 H.
    destruct k1; destruct k2; try reflexivity; vm_compute in H;
      discriminate.
  - intros s1 s2 n1 n2 [t1 H1] [t2 H2].
    unfold getGXLSymbolKind in H1, H2.
    destruct (kind s1); try discriminate; destruct (kind s2);
      try discriminate; clear H1 H2; intros [= <-] [= <-];
      vm_compute; split; intros H;
      first [reflexivity | lia | discriminate | exfalso; lia].
  - repeat split.
Qed.

Lemma symbolSizes_compared_as_strings_run :
  keyLeb (symbolSizes (kind Scenario.methodM))
    (symbolSizes (kind Scenario.classC)) = true
  <-> 17 <= 21.
Proof.
  refine (proj1 (proj2 (proj2 symbolSizes_compared_as_strings))
            Scenario.methodM Scenario.classC 17 21 _ _ _ _);
    try reflexivity; eexists; reflexivity.
Defined.

(** ** The elements of the document *)

Lemma append_append (node : Elements.Dom) (l1 l2 : list Elements.Dom) :
  Elements.append (Elements.append node l1) l2
  = Elements.append node (l1 ++ l2).
Proof. destruct node; simpl; [reflexivity|]. now rewrite <- app_assoc. Qed.

Lemma append_nil (node : Elements.Dom) : Elements.append node [] = node.
Proof. destruct node; simpl; [reflexivity|]. now rewrite app_nil_r. Qed.

Lemma addGXLAttribute_accepted (node : Elements.Dom) (name : string)
    (value : Elements.JSValue) :
  accepted value = true ->
  Elements.addGXLAttribute node name value
  = inr (Elements.append node
           [Elements.DomText (String newline "  ");
            attributeOf (name, value)]).
Proof. destruct value as [[]| | | |]; try discriminate; reflexivity. Qed.

Lemma addAttributes_outcome (id : string) (attrs : list (string * Elements.JSValue))
    (node : Elements.Dom) :
  match Elements.addAttributes id node attrs with
  | inr built =>
      forallb accepted (map snd attrs) = true
      /\ built =
         Elements.append node
           (flat_map (fun e => [Elements.DomText (String newline "  ");
                                attributeOf e]) attrs)
  | inl (Elements.NoValue name id') =>
      id' = id
      /\ exists pre value post,
           attrs = pre ++ (name, value) :: post
           /\ forallb accepted (map snd pre) = true
           /\ missing value = true
  | inl Elements.InvalidType =>
      exists pre name value post,
        attrs = pre ++ (name, value) :: post
        /\ forallb accepted (map snd pre) = true
        /\ accepted value = false /\ missing value = false
  end.
Proof.
  revert node. induction attrs as [|[name value] attrs IH]; intros node.
  - simpl. now rewrite append_nil.
  - cbn [Elements.addAttributes].
    destruct (accepted value) eqn:Hacc.
    + rewrite (addGXLAttribute_accepted _ _ _ Hacc).
      replace (match value with
               | Elements.JSNull | Elements.JSUndefined =>
                   inl (Elements.NoValue name id)
               | _ => Elements.addAttributes id
                        (Elements.append node
                           [Elements.DomText (String newline "  ");
                            attributeOf (name, value)]) attrs
               end)
        with (Elements.addAttributes id
                (Elements.append node
                   [Elements.DomText (String newline "  ");
                    attributeOf (name, value)]) attrs)
        by (destruct value as [[]| | | |]; try discriminate; reflexivity).
      specialize (IH (Elements.append node
                        [Elements.DomText (String newline "  ");
                         attributeOf (name, value)])).
      destruct (Elements.addAttributes id _ attrs) as [[n i|]|built].
      * destruct IH as (-> & pre & v & post & -> & Hpre & Hv).
        split; [reflexivity|].
        exists ((name, value) :: pre), v, post. simpl. rewrite Hacc. auto.
      * destruct IH as (pre & n & v & post & -> & Hpre & Hv).
        exists ((name, value) :: pre), n, v, post. simpl. rewrite Hacc. auto.
      * destruct IH as [Hall ->]. simpl. rewrite Hacc, append_append. auto.
    + destruct value as [[]| | | |]; try discriminate; simpl.
      * exists [], name, (Elements.JSNumber false text), attrs. auto.
      * split; [reflexivity|]. exists [], Elements.JSNull, attrs. auto.
      * split; [reflexivity|]. exists [], Elements.JSUndefined, attrs. auto.
      * exists [], name, (Elements.JSOther text), attrs. auto.
Qed.

Lemma createGXLNode_cases
    (id type : string) (attrs : list (string * Elements.JSValue)) :
  match Elements.createGXLNode id type attrs with
  | inr built =>
      forallb accepted (map snd attrs) = true
      /\ built =
         Elements.DomElement "node" [("id", id)]
           ([Elements.DomText (String newline "  ");
             Elements.createGXLType type]
            ++ flat_map (fun e => [Elements.DomText (String newline "  ");
                                   attributeOf e]) attrs
            ++ [Elements.DomText (String newline "")])
  | inl (Elements.NoValue name id') =>
      id' = id
      /\ exists pre value post,
           attrs = pre ++ (name, value) :: post
           /\ forallb accepted (map snd pre) = true
           /\ missing value = true
  | inl Elements.InvalidType =>
      exists pre name value post,
        attrs = pre ++ (name, value) :: post
        /\ forallb accepted (map snd pre) = true
        /\ accepted value = false /\ missing value = false
  end.
Proof.
  unfold Elements.createGXLNode.
  match goal with
  | |- context [Elements.addAttributes id ?n attrs] =>
      pose proof (addAttributes_outcome id attrs n) as H;
      destruct (Elements.addAttributes id n attrs) as [[n' i|]|built]
  end; try exact H.
  destruct H as [Hall ->]. split; [assumption|].
  rewrite append_append. reflexivity.
Qed.

(** X27. [createGXLNode] returns exactly when every attribute value is an
    integer or a string; the node then holds the [type] element and, in
    the order of the entries, one [attr] element per attribute, typed
    [int] or [string]. Otherwise the first value that is neither decides:
    [null] or [undefined] gives the no-value error with the name of the
    attribute and the id of the node, anything else (a number that is not
    an integer, for one) the invalid-type error. *)
Theorem createGXLNode_outcome
    (id type : string) (attrs : list (string * Elements.JSValue)) :
  match Elements.createGXLNode id type attrs with
  | inr built =>
      forallb accepted (map snd attrs) = true
      /\ built =
         Elements.DomElement "node" [("id", id)]
           ([Elements.DomText (String newline "  ");
             Elements.createGXLType type]
            ++ flat_map (fun e => [Elements.DomText (String newline "  ");
                                   attributeOf e]) attrs
            ++ [Elements.DomText (String newline "")])
  | inl (Elements.NoValue name id') =>
      id' = id
      /\ exists pre value post,
           attrs = pre ++ (name, value) :: post
           /\ forallb accepted (map snd pre) = true
           /\ missing value = true
  | inl Elements.InvalidType =>
      exists pre name value post,
        attrs = pre ++ (name, value) :: post
        /\ forallb accepted (map snd pre) = true
        /\ accepted value = false /\ missing value = false
  end.
Proof. apply createGXLNode_cases. Qed.

(** X28. For the attributes that [asGXL] passes, a string, two integers
    and a string, neither [createGXLNode] nor [addGXLAttribute] throws:
    every element of a document is built, a node with the four [attr]
    elements [Source.Name], [Source.Line], [Source.Column] and
    [Source.Path], in this order, typed [string], [int], [int] and
    [string]. *)
Theorem elements_are_built (e : Element) :
  exists dom,
    Elements.element e = inr dom
    /\ match e with
       | node id type attrs =>
           dom =
           Elements.DomElement "node" [("id", id)]
             ([Elements.DomText (String newline "  ");
               Elements.createGXLType type]
              ++ flat_map (fun e => [Elements.DomText (String newline "  ");
                                     attributeOf e])
                   [("Source.Name", Elements.JSString (Source_Name attrs));
                    ("Source.Line",
                     Elements.JSNumber true (pretty (Source_Line attrs)));
                    ("Source.Column",
                     Elements.JSNumber true (pretty (Source_Column attrs)));
                    ("Source.Path", Elements.JSString (Source_Path attrs))]
              ++ [Elements.DomText (String newline "")])
       | edge from to type =>
           dom = Elements.createGXLEdge from to (Elements.typeName type)
       end.
Proof.
  destruct e as [id type attrs|from to type]; simpl; [|eauto].
  pose proof (createGXLNode_cases id type (Elements.entries attrs)) as H.
  destruct (Elements.createGXLNode id type (Elements.entries attrs))
    as [[n i|]|built].
  - destruct H as (_ & pre & value & post & Heq & Hpre & Hv).
    exfalso. unfold Elements.entries in Heq.
    destruct pre as [|? [|? [|? [|? [|? ?]]]]]; try discriminate;
      injection Heq as <-; intros; subst; discriminate.
  - destruct H as (pre & n & value & post & Heq & Hpre & Hv & _).
    exfalso. unfold Elements.entries in Heq.
    destruct pre as [|? [|? [|? [|? [|? ?]]]]]; try discriminate;
      injection Heq as <-; intros; subst; discriminate.
  - destruct H as [_ ->]. eauto.
Qed.

(** ** Node identifiers and the objects of the store *)

Lemma nodeIdsOf_nodes (l : list Element) :
  nodeIdsOf l = nodeIdsOf (filter (fun e => isNode e = true) l).
Proof.
  unfold nodeIdsOf. induction l as [|e l IH]; [reflexivity|].
  destruct e as [id type attrs|from to type].
  - rewrite filter_cons_True by reflexivity.
    change (omap ?f (node id type attrs :: ?k)) with (id :: omap f k).
    now rewrite IH.
  - rewrite filter_cons_False by discriminate. exact IH.
Qed.

Lemma nodeIdsOf_stored (objectId : HashInput -> string)
    (cwd rootPath : string) (l : list (string * SymbolObject)) :
  nodeIdsOf (omap (nodeOf objectId cwd rootPath) l)
  = omap (nodeIdOf objectId) l.
Proof.
  unfold nodeIdsOf. induction l as [|e l IH]; [reflexivity|].
  change (omap (nodeOf objectId cwd rootPath) (e :: l))
    with (match nodeOf objectId cwd rootPath e with
          | Some n => n :: omap (nodeOf objectId cwd rootPath) l
          | None => omap (nodeOf objectId cwd rootPath) l
          end).
  change (omap (nodeIdOf objectId) (e :: l))
    with (match nodeIdOf objectId e with
          | Some n => n :: omap (nodeIdOf objectId) l
          | None => omap (nodeIdOf objectId) l
          end).
  unfold nodeOf, nodeIdOf.
  destruct (getGXLSymbolKind (val (snd e))); simpl; [|exact IH].
  f_equal. exact IH.
Qed.

Section Kept.

Variable cwd : string.
Variable rootPath : string.
Variable noReferences : bool.
Variable server : LanguageServer.
Variable readFile : string -> string.

(** Processing a file leaves the entries under other URIs, their lists
    and the objects that were there as they are. *)
Lemma processFile_keeps (st st' : State) (file u : string) (a : nat)
    (content : list nat) :
  processFile cwd rootPath noReferences server readFile st file = Return st' ->
  u <> url.pathToFileURL cwd file ->
  Map.get (symbols st) u = Some a ->
  arrays st !! a = Some content ->
  Map.get (symbols st') u = Some a
  /\ arrays st' !! a = Some content
  /\ forall k s, objects st !! k = Some s -> objects st' !! k = Some s.
Proof.
  intros H Hu Hget Harr.
  apply processFile_Return in H as (objs & d & st0 & st1 & Hg & Hl & ->).
  pose proof (getSymbols_received _ _ _ _ _ _ _ _ Hg) as [Haddr _].
  pose proof Hg as Hg'.
  apply getSymbols_Return in Hg' as (_ & -> & (eo & Ho) & (ea & Ha) & _).
  assert (Hsym0 : Map.get (symbols st0) u = Some a).
  { unfold getSymbols in Hg. simpl in Hg. injection Hg as _ <-.
    apply addDirectories_frame. simpl.
    rewrite Map_get_set_ne by congruence. exact Hget. }
  assert (H1 : arrays st1 = arrays st0 /\ symbols st1 = symbols st0
               /\ forall k, k < length (objects st) ->
                    objects st1 !! k = objects st0 !! k).
  { destruct (negb noReferences).
    - apply loop_frame in Hl as (? & ? & _ & _ & Hk).
      repeat split; try assumption.
      intros k Hlt. apply Hk. rewrite Haddr, in_seq. lia.
    - injection Hl as <-. auto. }
  destruct H1 as (Harr1 & Hsym1 & Hobj1).
  apply lookup_lt_Some in Harr as Hlt. simpl.
  split; [now rewrite Hsym1|]. split.
  - rewrite list_lookup_alter_ne by lia. rewrite Harr1, Ha.
    now apply lookup_app_l_Some.
  - intros k s Hk. apply lookup_app_l_Some.
    rewrite Hobj1 by (eapply lookup_lt_Some; eauto).
    rewrite Ho. now apply lookup_app_l_Some.
Qed.

End Kept.

(** C7, as the program has it. The identifier of a node is computed from
    the value of the symbol object as a whole, and [asGXL] makes one node
    for every stored object of a kind that is not excluded: the identifiers
    of the nodes of a returned document are, in the order of the store, the
    identifiers of the stored objects, as often as the store holds them.
    Symbols collapse where the store holds one object for them: processing
    another file leaves the entry of a directory, its list and its symbol
    as they are, so that a directory met again is not stored again. *)
Theorem node_per_object_id_from_value
    (objectId : HashInput -> string) (cwd rootPath : string)
    (noReferences : bool) (server : LanguageServer)
    (readFile : string -> string)
    (symbolsByFile : Map.t string (list SymbolObject))
    (references : Map.t SymbolObject (list SymbolObject))
    (d : Document) (st st' : State) (file directory : string)
    (array : nat) (content : list nat) :
  asGXL objectId cwd symbolsByFile references rootPath = Return d ->
  processFile cwd rootPath noReferences server readFile st file = Return st' ->
  directory <> url.pathToFileURL cwd file ->
  Map.get (symbols st) directory = Some array ->
  arrays st !! array = Some content ->
  nodeIdsOf (elements d)
  = omap (nodeIdOf objectId) (storedSymbols symbolsByFile)
  /\ Map.get (symbols st') directory = Some array
  /\ arrays st' !! array = Some content
  /\ forall k s, objects st !! k = Some s -> objects st' !! k = Some s.
Proof.
  intros Hd Hfile Hne Hdir Harr. split.
  - apply asGXL_Return in Hd as (b & Hb & _ & ->).
    rewrite nodeIdsOf_nodes, (build_nodes _ _ _ _ _ _ Hb).
    apply nodeIdsOf_stored.
  - eapply processFile_keeps; eauto.
Qed.

Lemma node_per_object_id_from_value_run :
  exists d st st',
    asGXL Digest.objectId Scenario.cwd Scenario.twice [] Scenario.rootPath
    = Return d
    /\ collect Scenario.cwd Scenario.rootPath false Scenario.silent
         (Scenario.text []) [Scenario.file] = Return st
    /\ processFile Scenario.cwd Scenario.rootPath false Scenario.silent
         (Scenario.text []) st "/a/b/c/e.py" = Return st'
    /\ nodeIdsOf (elements d)
       = [nodeID Digest.objectId Scenario.dir1;
          nodeID Digest.objectId Scenario.dir1]
    /\ Map.get (symbols st') "file:///a/b/c" = Some 2
    /\ arrays st' !! 2 = Some [0]
    /\ objects st' !! 0 = Some Scenario.dir1.
Proof.
  destruct (asGXL Digest.objectId Scenario.cwd Scenario.twice []
              Scenario.rootPath) as [d|e] eqn:Hd;
    [|vm_compute in Hd; discriminate].
  eexists d, _, _.
  split; [reflexivity|]. split; [vm_compute; reflexivity|].
  split; [vm_compute; reflexivity|].
  match goal with
  | |- _ /\ Map.get (symbols ?st') _ = _ /\ _ =>
      destruct (node_per_object_id_from_value Digest.objectId Scenario.cwd
                  Scenario.rootPath false Scenario.silent (Scenario.text [])
                  Scenario.twice [] d
                  {| objects := [Scenario.dir1; Scenario.dirB;
                                 fileSymbol Scenario.cwd Scenario.rootPath
                                   Scenario.file];
                     arrays := [[2]; []; [0]; [1]];
                     symbols := [(Scenario.document, 1);
                                 ("file:///a/b/c", 2); ("file:///a/b", 3)];
                     allReferences := []; requests :=
                       [DocumentSymbolRequest Scenario.document] |}
                  st' "/a/b/c/e.py" "file:///a/b/c" 2 [0] Hd)
        as (Hids & Hget & Harr & Hobj)
  end.
  - vm_compute. reflexivity.
  - vm_compute. discriminate.
  - reflexivity.
  - reflexivity.
  - split; [exact Hids|]. split; [exact Hget|]. split; [exact Harr|].
    apply Hobj. reflexivity.
Defined.
